(** * Reddit Viewer: preload and playback-buffer management

    A shallow embedding of the preloading core of the viewer: the state
    store ([state.js]), the video element cache and the buffer monitor
    ([ui.js]), the resolution of external video ids ([media.js]) and the
    navigation controller ([controls.js]); and, around it, of autoplay
    and the keyboard ([controls.js]), the retries of a request
    ([api.js]) and the proxy ([worker/reddit-proxy.js]).

    Conventions of the embedding.
    - JavaScript [Map] and [Set] objects that the code never iterates in
      an order-sensitive way are finite maps and sets ([gmap], [gset]).
    - JavaScript objects that are mutated in place and shared between
      closures (slide objects, video elements) live in heaps and are
      named by their index.
    - Callbacks handed to the event loop (timers, promise reactions,
      event listeners) are recorded as pending tasks; the environment
      decides when, and with which outcome, each of them runs.
    - Media times are rationals; console output and the purely visual
      helpers (swipe feedback, counters, titles, overlays) are left out. *)

From Stdlib Require Import ZArith QArith.
From stdpp Require Import gmap strings list fin_maps.

Open Scope Z_scope.

(** ** JavaScript values used by the code *)

(** Truthiness of a string: only the empty string is falsy. *)
Definition truthy (s : string) : bool :=
  match s with
  | EmptyString => false
  | String _ _ => true
  end.

(** Truthiness of a possibly absent ([undefined] or [null]) string. *)
Definition otruthy (o : option string) : bool :=
  match o with
  | Some s => truthy s
  | None => false
  end.

(** [a || b] on possibly absent strings. *)
Definition or_else (a b : option string) : option string :=
  if otruthy a then a else b.

Definition Qltb (a b : Q) : bool := negb (Qle_bool b a).

(** ** The state store ([createStore] in state.js) *)

Module Store.
Section Generic.
Context {V : Type}.

(** A state object: own enumerable properties by name. *)
Abbreviation Obj := (gmap string V).

(** A listener [fn(newState, prevState)]; [Some msg] when it throws. *)
Definition Listener : Type := Obj -> Obj -> option string.

Record t : Type := mk {
  state : Obj;
  listeners : list Listener
}.

(** [{ ...a, ...b }]: the properties of [b] override those of [a]. *)
Definition spread (a b : Obj) : Obj := b ∪ a.

Definition createStore (initial : Obj) : t :=
  {| state := spread ∅ initial; listeners := [] |}.

Definition getState (s : t) : Obj := spread ∅ (state s).

(** [state[key]]; [None] stands for [undefined]. *)
Definition get (key : string) (s : t) : option V := state s !! key.

(** The errors passed to [console.error] while notifying the listeners. *)
Definition notify (ls : list Listener) (new prev : Obj) : list string :=
  omap (fun fn => fn new prev) ls.

Definition setState (updates : Obj) (s : t) : t * list string :=
  let prevState := state s in
  let state' := spread (state s) updates in
  ({| state := state'; listeners := listeners s |},
   notify (listeners s) state' prevState).

Definition subscribe (listener : Listener) (s : t) : t :=
  {| state := state s; listeners := listeners s ++ [listener] |}.

(** The update object that [reset(keys)] builds: the keys that the
    initial state declares, each with its initial value, and a new [Set]
    for [preloadedImages].  ([key in initial] is taken over the own
    properties of [initial].) *)
Definition resetUpdates (initial : Obj) (newSet : V) (keys : list string)
  : Obj :=
  foldl (fun updates key =>
           match initial !! key with
           | Some v =>
               <[key := if String.eqb key "preloadedImages" then newSet else v]>
                 updates
           | None => updates
           end) ∅ keys.

(** [reset(keys)]; [initial] is the argument of [createStore], which the
    closure keeps, and [newSet] the value of [new Set()].  With keys it
    goes through [setState]; without, it replaces the state and calls the
    listeners outside any [try]: the first error is thrown to the caller
    (the third component) and the listeners after it are not called. *)
Definition reset (initial : Obj) (newSet : V) (keys : option (list string))
  (s : t) : t * list string * option string :=
  match keys with
  | Some keys =>
      let '(s', errors) := setState (resetUpdates initial newSet keys) s in
      (s', errors, None)
  | None =>
      let state' := <["preloadedImages" := newSet]> (spread ∅ initial) in
      ({| state := state'; listeners := listeners s |}, [],
       head (notify (listeners s) state' initial))
  end.

End Generic.
Arguments t : clear implicits.
End Store.

(** ** Configuration

    [config.js] is not part of the sources: the constants the code reads
    from [CONFIG] are the fields of this record, and every definition
    below takes the configuration as a parameter. *)

Record Config : Type := mkConfig {
  MAX_CACHED_VIDEOS : Z;        (* CONFIG.preloading.MAX_CACHED_VIDEOS *)
  MIN_BUFFER_SECONDS : Q;       (* CONFIG.preloading.MIN_BUFFER_SECONDS *)
  HEALTHY_BUFFER_SECONDS : Q;   (* CONFIG.preloading.HEALTHY_BUFFER_SECONDS *)
  CLEANUP_THRESHOLD : Z;        (* CONFIG.preloading.CLEANUP_THRESHOLD *)
  VIDEO_PRELOAD_COUNT : Z;      (* CONFIG.preloading.VIDEO_PRELOAD_COUNT *)
  URL_PRELOAD_COUNT : Z;        (* CONFIG.preloading.URL_PRELOAD_COUNT *)
  PRELOAD_COUNT : Z;            (* CONFIG.slideshow.PRELOAD_COUNT *)
  PRELOAD_THRESHOLD : Z;        (* CONFIG.slideshow.PRELOAD_THRESHOLD *)
  PROXY_ENABLED : bool;         (* CONFIG.proxy.ENABLED *)
  PROXY_URL : string;           (* CONFIG.proxy.URL *)
  encodeURIComponent : string -> string;  (* the built-in of the platform *)
  toLowerCase : string -> string          (* String.prototype.toLowerCase *)
}.

(** ** Data model *)

(** Slide objects ([ExtractedMedia] in media.js). *)
Module Slide.
Record t : Type := mk {
  title : string;
  type : string;                       (* 'image', 'video', 'gif' *)
  url : option string;                 (* [None] is [null] *)
  needsResolve : bool;                 (* absent counts as false *)
  externalVideoId : option string      (* [None] is absent *)
}.
Definition set_resolved (u : string) (s : t) : t :=
  {| title := title s; type := type s; url := Some u;
     needsResolve := false; externalVideoId := externalVideoId s |}.
End Slide.

(** Video elements, with the properties the code reads or writes. *)
Module Video.
Record Style : Type := mkStyle {
  position : string; left : string; width : string; height : string
}.
Inductive Parent : Type := Detached | InBody | InSlide.
Record t : Type := mk {
  src : string;
  preload : string;
  muted : bool;
  playsInline : bool;
  loop : bool;
  crossOrigin : string;
  autoplay : bool;
  poster : string;
  ariaLabel : string;
  style : Style;
  paused : bool;
  parent : Parent;
  currentTime : Q;
  buffered : list (Q * Q);             (* the TimeRanges: (start, end) *)
  errorListener : option Z             (* the once-listener of the preloader
                                          and the slide index it captured *)
}.

(** [document.createElement('video')]. *)
Definition create : t :=
  {| src := ""; preload := ""; muted := false; playsInline := false;
     loop := false; crossOrigin := ""; autoplay := false; poster := "";
     ariaLabel := ""; style := mkStyle "" "" "" ""; paused := true;
     parent := Detached; currentTime := 0%Q; buffered := [];
     errorListener := None |}.

Definition set_src (x : string) (v : t) : t :=
  mk x (preload v) (muted v) (playsInline v) (loop v) (crossOrigin v)
     (autoplay v) (poster v) (ariaLabel v) (style v) (paused v) (parent v)
     (currentTime v) (buffered v) (errorListener v).
Definition set_muted (x : bool) (v : t) : t :=
  mk (src v) (preload v) x (playsInline v) (loop v) (crossOrigin v)
     (autoplay v) (poster v) (ariaLabel v) (style v) (paused v) (parent v)
     (currentTime v) (buffered v) (errorListener v).
Definition set_autoplay (x : bool) (v : t) : t :=
  mk (src v) (preload v) (muted v) (playsInline v) (loop v) (crossOrigin v)
     x (poster v) (ariaLabel v) (style v) (paused v) (parent v)
     (currentTime v) (buffered v) (errorListener v).
Definition set_poster (x : string) (v : t) : t :=
  mk (src v) (preload v) (muted v) (playsInline v) (loop v) (crossOrigin v)
     (autoplay v) x (ariaLabel v) (style v) (paused v) (parent v)
     (currentTime v) (buffered v) (errorListener v).
Definition set_ariaLabel (x : string) (v : t) : t :=
  mk (src v) (preload v) (muted v) (playsInline v) (loop v) (crossOrigin v)
     (autoplay v) (poster v) x (style v) (paused v) (parent v)
     (currentTime v) (buffered v) (errorListener v).
Definition set_style (x : Style) (v : t) : t :=
  mk (src v) (preload v) (muted v) (playsInline v) (loop v) (crossOrigin v)
     (autoplay v) (poster v) (ariaLabel v) x (paused v) (parent v)
     (currentTime v) (buffered v) (errorListener v).
Definition set_paused (x : bool) (v : t) : t :=
  mk (src v) (preload v) (muted v) (playsInline v) (loop v) (crossOrigin v)
     (autoplay v) (poster v) (ariaLabel v) (style v) x (parent v)
     (currentTime v) (buffered v) (errorListener v).
Definition set_parent (x : Parent) (v : t) : t :=
  mk (src v) (preload v) (muted v) (playsInline v) (loop v) (crossOrigin v)
     (autoplay v) (poster v) (ariaLabel v) (style v) (paused v) x
     (currentTime v) (buffered v) (errorListener v).
Definition set_progress (ct : Q) (b : list (Q * Q)) (v : t) : t :=
  mk (src v) (preload v) (muted v) (playsInline v) (loop v) (crossOrigin v)
     (autoplay v) (poster v) (ariaLabel v) (style v) (paused v) (parent v)
     ct b (errorListener v).
Definition set_errorListener (x : option Z) (v : t) : t :=
  mk (src v) (preload v) (muted v) (playsInline v) (loop v) (crossOrigin v)
     (autoplay v) (poster v) (ariaLabel v) (style v) (paused v) (parent v)
     (currentTime v) (buffered v) x.

(** [video.play()] clears [paused]; the promise it returns is settled by
    the browser later.  [video.pause()] sets [paused]. *)
Definition play (v : t) : t := set_paused false v.
Definition pause (v : t) : t := set_paused true v.
(** [video.remove()]. *)
Definition remove (v : t) : t := set_parent Detached v.
End Video.

(** Heap addresses of slide objects and of video elements. *)
Abbreviation SlideRef := nat.
Abbreviation ElemId := nat.

(** An entry of the [preloadedVideos] map. *)
Module CacheEntry.
Record t : Type := mk {
  element : ElemId;
  url : string;
  timestamp : Z
}.
End CacheEntry.

(** A rendered [div.slide] of the slideshow container. *)
Inductive SlideMedia : Type :=
| MediaVideo (e : ElemId)
| MediaImg (src : option string).

Record SlideEl : Type := mkSlideEl {
  slidePosition : string;              (* 'prev', 'active', 'next' *)
  slideMedia : SlideMedia
}.

(** ** The application state

    The keys of the store that the modelled functions read or write.
    [initialState] in state.js declares the feed, view and image keys;
    the declarations of [preloadedVideos], [preloadedVideoUrls],
    [preloadingInProgress], [preloadingPaused] and [videoMuted] are not in
    the sources, so these keys are taken as present and holding a [Map],
    a [Map], a [Set] and two booleans, as every use of them requires.
    The two maps and the two sets are mutated in place and never rebound
    by [setState], so they are held by value. *)

Record AppState : Type := mkAppState {
  slides : list SlideRef;
  currentIndex : Z;
  subreddit : string;
  after : option string;
  loading : bool;
  firstLoad : bool;
  isZoomed : bool;
  panX : Z;
  panY : Z;
  isPanning : bool;
  autoplay : bool;
  autoplayInterval : option nat;
  videoMuted : bool;
  preloadedImages : gset (option string);
  preloadedVideos : gmap Z CacheEntry.t;
  preloadedVideoUrls : gmap string string;
  preloadingInProgress : gset string;
  preloadingPaused : bool
}.

Definition set_slides (x : list SlideRef) (s : AppState) : AppState :=
  mkAppState x (currentIndex s) (subreddit s) (after s) (loading s)
    (firstLoad s) (isZoomed s) (panX s) (panY s) (isPanning s) (autoplay s)
    (autoplayInterval s) (videoMuted s) (preloadedImages s)
    (preloadedVideos s) (preloadedVideoUrls s) (preloadingInProgress s)
    (preloadingPaused s).
Definition set_currentIndex (x : Z) (s : AppState) : AppState :=
  mkAppState (slides s) x (subreddit s) (after s) (loading s) (firstLoad s)
    (isZoomed s) (panX s) (panY s) (isPanning s) (autoplay s)
    (autoplayInterval s) (videoMuted s) (preloadedImages s)
    (preloadedVideos s) (preloadedVideoUrls s) (preloadingInProgress s)
    (preloadingPaused s).
Definition set_subreddit (x : string) (s : AppState) : AppState :=
  mkAppState (slides s) (currentIndex s) x (after s) (loading s)
    (firstLoad s) (isZoomed s) (panX s) (panY s) (isPanning s) (autoplay s)
    (autoplayInterval s) (videoMuted s) (preloadedImages s)
    (preloadedVideos s) (preloadedVideoUrls s) (preloadingInProgress s)
    (preloadingPaused s).
Definition set_after (x : option string) (s : AppState) : AppState :=
  mkAppState (slides s) (currentIndex s) (subreddit s) x (loading s)
    (firstLoad s) (isZoomed s) (panX s) (panY s) (isPanning s) (autoplay s)
    (autoplayInterval s) (videoMuted s) (preloadedImages s)
    (preloadedVideos s) (preloadedVideoUrls s) (preloadingInProgress s)
    (preloadingPaused s).
Definition set_loading (x : bool) (s : AppState) : AppState :=
  mkAppState (slides s) (currentIndex s) (subreddit s) (after s) x
    (firstLoad s) (isZoomed s) (panX s) (panY s) (isPanning s) (autoplay s)
    (autoplayInterval s) (videoMuted s) (preloadedImages s)
    (preloadedVideos s) (preloadedVideoUrls s) (preloadingInProgress s)
    (preloadingPaused s).
Definition set_firstLoad (x : bool) (s : AppState) : AppState :=
  mkAppState (slides s) (currentIndex s) (subreddit s) (after s) (loading s)
    x (isZoomed s) (panX s) (panY s) (isPanning s) (autoplay s)
    (autoplayInterval s) (videoMuted s) (preloadedImages s)
    (preloadedVideos s) (preloadedVideoUrls s) (preloadingInProgress s)
    (preloadingPaused s).
Definition set_isZoomed (x : bool) (s : AppState) : AppState :=
  mkAppState (slides s) (currentIndex s) (subreddit s) (after s) (loading s)
    (firstLoad s) x (panX s) (panY s) (isPanning s) (autoplay s)
    (autoplayInterval s) (videoMuted s) (preloadedImages s)
    (preloadedVideos s) (preloadedVideoUrls s) (preloadingInProgress s)
    (preloadingPaused s).
Definition set_panX (x : Z) (s : AppState) : AppState :=
  mkAppState (slides s) (currentIndex s) (subreddit s) (after s) (loading s)
    (firstLoad s) (isZoomed s) x (panY s) (isPanning s) (autoplay s)
    (autoplayInterval s) (videoMuted s) (preloadedImages s)
    (preloadedVideos s) (preloadedVideoUrls s) (preloadingInProgress s)
    (preloadingPaused s).
Definition set_panY (x : Z) (s : AppState) : AppState :=
  mkAppState (slides s) (currentIndex s) (subreddit s) (after s) (loading s)
    (firstLoad s) (isZoomed s) (panX s) x (isPanning s) (autoplay s)
    (autoplayInterval s) (videoMuted s) (preloadedImages s)
    (preloadedVideos s) (preloadedVideoUrls s) (preloadingInProgress s)
    (preloadingPaused s).
Definition set_isPanning (x : bool) (s : AppState) : AppState :=
  mkAppState (slides s) (currentIndex s) (subreddit s) (after s) (loading s)
    (firstLoad s) (isZoomed s) (panX s) (panY s) x (autoplay s)
    (autoplayInterval s) (videoMuted s) (preloadedImages s)
    (preloadedVideos s) (preloadedVideoUrls s) (preloadingInProgress s)
    (preloadingPaused s).
Definition set_autoplay (x : bool) (s : AppState) : AppState :=
  mkAppState (slides s) (currentIndex s) (subreddit s) (after s) (loading s)
    (firstLoad s) (isZoomed s) (panX s) (panY s) (isPanning s) x
    (autoplayInterval s) (videoMuted s) (preloadedImages s)
    (preloadedVideos s) (preloadedVideoUrls s) (preloadingInProgress s)
    (preloadingPaused s).
Definition set_autoplayInterval (x : option nat) (s : AppState) : AppState :=
  mkAppState (slides s) (currentIndex s) (subreddit s) (after s) (loading s)
    (firstLoad s) (isZoomed s) (panX s) (panY s) (isPanning s) (autoplay s)
    x (videoMuted s) (preloadedImages s) (preloadedVideos s)
    (preloadedVideoUrls s) (preloadingInProgress s) (preloadingPaused s).
Definition set_videoMuted (x : bool) (s : AppState) : AppState :=
  mkAppState (slides s) (currentIndex s) (subreddit s) (after s) (loading s)
    (firstLoad s) (isZoomed s) (panX s) (panY s) (isPanning s) (autoplay s)
    (autoplayInterval s) x (preloadedImages s) (preloadedVideos s)
    (preloadedVideoUrls s) (preloadingInProgress s) (preloadingPaused s).
Definition set_preloadedImages (x : gset (option string)) (s : AppState) :
AppState :=
 mkAppState (slides s) (currentIndex s) (subreddit s) (after s) (loading s)
    (firstLoad s) (isZoomed s) (panX s) (panY s) (isPanning s) (autoplay s)
    (autoplayInterval s) (videoMuted s) x (preloadedVideos s)
    (preloadedVideoUrls s) (preloadingInProgress s) (preloadingPaused s).
Definition set_preloadedVideos (x : gmap Z CacheEntry.t) (s : AppState) :
AppState :=
 mkAppState (slides s) (currentIndex s) (subreddit s) (after s) (loading s)
    (firstLoad s) (isZoomed s) (panX s) (panY s) (isPanning s) (autoplay s)
    (autoplayInterval s) (videoMuted s) (preloadedImages s) x
    (preloadedVideoUrls s) (preloadingInProgress s) (preloadingPaused s).
Definition set_preloadedVideoUrls (x : gmap string string) (s : AppState) :
AppState :=
 mkAppState (slides s) (currentIndex s) (subreddit s) (after s) (loading s)
    (firstLoad s) (isZoomed s) (panX s) (panY s) (isPanning s) (autoplay s)
    (autoplayInterval s) (videoMuted s) (preloadedImages s) (preloadedVideos
    s) x (preloadingInProgress s) (preloadingPaused s).
Definition set_preloadingInProgress (x : gset string) (s : AppState) :
AppState :=
 mkAppState (slides s) (currentIndex s) (subreddit s) (after s) (loading s)
    (firstLoad s) (isZoomed s) (panX s) (panY s) (isPanning s) (autoplay s)
    (autoplayInterval s) (videoMuted s) (preloadedImages s) (preloadedVideos
    s) (preloadedVideoUrls s) x (preloadingPaused s).
Definition set_preloadingPaused (x : bool) (s : AppState) : AppState :=
  mkAppState (slides s) (currentIndex s) (subreddit s) (after s) (loading s)
    (firstLoad s) (isZoomed s) (panX s) (panY s) (isPanning s) (autoplay s)
    (autoplayInterval s) (videoMuted s) (preloadedImages s)
    (preloadedVideos s) (preloadedVideoUrls s) (preloadingInProgress s) x.

(** The state object that the store holds for an [AppState]. *)
Inductive Value : Type :=
| VSlides (l : list SlideRef)
| VNum (z : Z)
| VStr (s : string)
| VNullable (o : option string)
| VBool (b : bool)
| VInterval (o : option nat)
| VImages (s : gset (option string))
| VVideos (m : gmap Z CacheEntry.t)
| VUrls (m : gmap string string)
| VInProgress (s : gset string).

Definition toObj (s : AppState) : gmap string Value :=
  list_to_map
    [("slides", VSlides (slides s)); ("currentIndex", VNum (currentIndex s));
     ("subreddit", VStr (subreddit s)); ("after", VNullable (after s));
     ("loading", VBool (loading s)); ("firstLoad", VBool (firstLoad s));
     ("isZoomed", VBool (isZoomed s)); ("panX", VNum (panX s));
     ("panY", VNum (panY s)); ("isPanning", VBool (isPanning s));
     ("autoplay", VBool (autoplay s));
     ("autoplayInterval", VInterval (autoplayInterval s));
     ("videoMuted", VBool (videoMuted s));
     ("preloadedImages", VImages (preloadedImages s));
     ("preloadedVideos", VVideos (preloadedVideos s));
     ("preloadedVideoUrls", VUrls (preloadedVideoUrls s));
     ("preloadingInProgress", VInProgress (preloadingInProgress s));
     ("preloadingPaused", VBool (preloadingPaused s))].

(** The store whose state is an [AppState]. *)
Definition storeOf (s : AppState) (ls : list Store.Listener)
  : Store.t Value := Store.mk (toObj s) ls.

(** ** Network requests and the state of media.js *)

Record Request : Type := mkRequest {
  req_url : string;
  req_headers : list (string * string)
}.

Record Urls : Type := mkUrls {
  hd : option string;
  sd : option string
}.

(** The parsed body of a provider response, as far as the code looks
    into it: [data.token], [data.gif?.urls] and [data.urls]. *)
Record Body : Type := mkBody {
  token : option string;
  gif_urls : option Urls;
  urls : option Urls
}.

(** What a [fetch] promise settles to: it rejects, or it resolves to a
    response with its [ok] flag and its body ([None] when
    [response.json()] rejects). *)
Inductive Response : Type :=
| NetworkFailure
| HttpResponse (ok : bool) (json : option Body).

(** The module variables [externalVideoToken] and
    [externalVideoTokenExpiry] of media.js. *)
Record MediaState : Type := mkMediaState {
  externalVideoToken : option string;
  externalVideoTokenExpiry : Z
}.

(** Where a call of [fetchExternalVideoUrl] is suspended. *)
Inductive Stage : Type :=
| AwaitToken                 (* at [await fetch(authUrl)] in getExternalVideoToken *)
| AwaitCachedToken (tok : string)   (* at [await getExternalVideoToken()], token cached *)
| AwaitInfo.                 (* at [await fetch(apiUrl)] *)

(** The reaction registered on the promise of [fetchExternalVideoUrl]. *)
Inductive Resolver : Type :=
| ByPreloader                                   (* preloadExternalVideoUrls *)
| ByRenderer (data : SlideRef) (video : ElemId) (position : string).
                                                (* createSlideElement *)

(** Callbacks held by the event loop. *)
Inductive Task : Type :=
| TimeoutStartBufferMonitoring
| TimeoutPreloadUpcomingVideos (slides : list SlideRef) (currentIndex : Z)
| PlayThenPause (video : ElemId)
| Resolution (id : string) (stage : Stage) (resolver : Resolver)
| MorePosts (slides : list SlideRef)   (* loadMorePosts at [await fetchPosts] *)
| SubredditPosts.                     (* loadSubreddit at [await fetchPosts] *)

(** ** The world: store, heaps, DOM, module variables and event loop *)

Record World : Type := mkWorld {
  store : AppState;
  slideObjs : list Slide.t;
  videoElems : list Video.t;
  slideshow : option (list SlideEl);
  bufferMonitorInterval : bool;
  media : MediaState;
  pending : list Task;
  requests : list Request;
  now : Z
}.

Definition set_store (x : AppState) (s : World) : World :=
  mkWorld x (slideObjs s) (videoElems s) (slideshow s)
    (bufferMonitorInterval s) (media s) (pending s) (requests s) (now s).
Definition set_slideObjs (x : list Slide.t) (s : World) : World :=
  mkWorld (store s) x (videoElems s) (slideshow s) (bufferMonitorInterval s)
    (media s) (pending s) (requests s) (now s).
Definition set_videoElems (x : list Video.t) (s : World) : World :=
  mkWorld (store s) (slideObjs s) x (slideshow s) (bufferMonitorInterval s)
    (media s) (pending s) (requests s) (now s).
Definition set_slideshow (x : option (list SlideEl)) (s : World) : World :=
  mkWorld (store s) (slideObjs s) (videoElems s) x (bufferMonitorInterval s)
    (media s) (pending s) (requests s) (now s).
Definition set_bufferMonitorInterval (x : bool) (s : World) : World :=
  mkWorld (store s) (slideObjs s) (videoElems s) (slideshow s) x (media s)
    (pending s) (requests s) (now s).
Definition set_media (x : MediaState) (s : World) : World :=
  mkWorld (store s) (slideObjs s) (videoElems s) (slideshow s)
    (bufferMonitorInterval s) x (pending s) (requests s) (now s).
Definition set_pending (x : list Task) (s : World) : World :=
  mkWorld (store s) (slideObjs s) (videoElems s) (slideshow s)
    (bufferMonitorInterval s) (media s) x (requests s) (now s).
Definition set_requests (x : list Request) (s : World) : World :=
  mkWorld (store s) (slideObjs s) (videoElems s) (slideshow s)
    (bufferMonitorInterval s) (media s) (pending s) x (now s).
Definition set_now (x : Z) (s : World) : World :=
  mkWorld (store s) (slideObjs s) (videoElems s) (slideshow s)
    (bufferMonitorInterval s) (media s) (pending s) (requests s) x.

(** ** Store and heap access *)

(** [store.setState({ k1: v1, ... })] with a literal update object, given
    as the composition of the setters of its keys.  The one listener the
    application subscribes (app.js, [init]) saves preferences and does
    not write to the store. *)
Definition setState (updates : AppState -> AppState) (w : World) : World :=
  set_store (updates (store w)) w.

(** A method call on a [Map] or [Set] held by the store ([set], [delete],
    [add], [clear]): the key keeps its object, whose content changes. *)
Definition mutate (change : AppState -> AppState) (w : World) : World :=
  set_store (change (store w)) w.

Definition updVideo (f : Video.t -> Video.t) (e : ElemId) (w : World) : World :=
  set_videoElems (alter f e (videoElems w)) w.

Definition newVideo (v : Video.t) (w : World) : ElemId * World :=
  (length (videoElems w), set_videoElems (videoElems w ++ [v]) w).

Definition updSlide (f : Slide.t -> Slide.t) (r : SlideRef) (w : World) : World :=
  set_slideObjs (alter f r (slideObjs w)) w.

(** [slides[idx]]: [None] is [undefined]. *)
Definition slideAt (w : World) (slides : list SlideRef) (idx : Z)
  : option (SlideRef * Slide.t) :=
  if idx <? 0 then None
  else match slides !! Z.to_nat idx with
       | Some r => match slideObjs w !! r with
                   | Some d => Some (r, d)
                   | None => None
                   end
       | None => None
       end.

Definition len (slides : list SlideRef) : Z := Z.of_nat (length slides).

Definition schedule (t : Task) (w : World) : World :=
  set_pending (pending w ++ [t]) w.

(** ** ui.js *)

Fixpoint queryActiveVideo (children : list SlideEl) : option ElemId :=
  match children with
  | [] => None
  | s :: rest =>
      match slideMedia s with
      | MediaVideo e =>
          if String.eqb (slidePosition s) "active" then Some e
          else queryActiveVideo rest
      | MediaImg _ => queryActiveVideo rest
      end
  end.

(** [elements.slideshow?.querySelector('.slide.active video') || null],
    with the properties of the element found. *)
Definition getActiveVideo (w : World) : option (ElemId * Video.t) :=
  match slideshow w with
  | Some children =>
      match queryActiveVideo children with
      | Some e => match videoElems w !! e with
                  | Some v => Some (e, v)
                  | None => None
                  end
      | None => None
      end
  | None => None
  end.

Fixpoint bufferedAhead (ranges : list (Q * Q)) (t : Q) : Q :=
  match ranges with
  | [] => 0%Q
  | (start, end_) :: rest =>
      if Qle_bool start t && Qle_bool t end_ then (end_ - t)%Q
      else bufferedAhead rest t
  end.

Definition getBufferHealth (video : option Video.t) : Q :=
  match video with
  | None => 0%Q
  | Some v =>
      match Video.buffered v with
      | [] => 0%Q
      | ranges => bufferedAhead ranges (Video.currentTime v)
      end
  end.

Definition pauseIfPlaying (e : ElemId) (w : World) : World :=
  match videoElems w !! e with
  | Some v => if negb (Video.paused v) then updVideo Video.pause e w else w
  | None => w
  end.

(** The loop visits every entry once; an iteration only touches the
    element of its own entry, so the order of the visit (insertion order
    in JavaScript) does not show in the result. *)
Definition pauseAllPreloads (w : World) : World :=
  if preloadingPaused (store w) then w
  else
    let w1 := map_fold (fun (slideIndex : Z) cached acc =>
                          pauseIfPlaying (CacheEntry.element cached) acc)
                       w (preloadedVideos (store w)) in
    setState (set_preloadingPaused true) w1.

(** [video.play().then(() => video.pause()).catch(() => {})]. *)
Definition playThenPause (e : ElemId) (w : World) : World :=
  schedule (PlayThenPause e) (updVideo Video.play e w).

Definition resumePreloads (w : World) : World :=
  if negb (preloadingPaused (store w)) then w
  else
    let w1 := setState (set_preloadingPaused false) w in
    let currentIndex := currentIndex (store w1) in
    match preloadedVideos (store w1) !! (currentIndex + 1) with
    | Some nextVideoCache => playThenPause (CacheEntry.element nextVideoCache) w1
    | None => w1
    end.

(** The closure [checkBuffer] of [startBufferMonitoring]. *)
Definition checkBuffer (CONFIG : Config) (w : World) : World :=
  match getActiveVideo w with
  | None => w
  | Some (_, video) =>
      let bufferHealth := getBufferHealth (Some video) in
      let minBuffer := MIN_BUFFER_SECONDS CONFIG in
      let healthyBuffer := HEALTHY_BUFFER_SECONDS CONFIG in
      if Qltb bufferHealth minBuffer && negb (preloadingPaused (store w))
      then pauseAllPreloads w
      else if Qltb healthyBuffer bufferHealth && preloadingPaused (store w)
      then resumePreloads w
      else w
  end.

Definition stopBufferMonitoring (w : World) : World :=
  if bufferMonitorInterval w then set_bufferMonitorInterval false w else w.

Definition startBufferMonitoring (CONFIG : Config) (w : World) : World :=
  let w1 := stopBufferMonitoring w in
  let w2 := checkBuffer CONFIG w1 in
  set_bufferMonitorInterval true w2.

Definition offscreen : Video.Style :=
  Video.mkStyle "absolute" "-9999px" "1px" "1px".

Definition preloadVideoElement (CONFIG : Config) (slideData : SlideRef)
  (slideIndex : Z) (videoUrl : string) (w : World) : World :=
  let cache := preloadedVideos (store w) in
  if bool_decide (is_Some (cache !! slideIndex)) then w
  else if Z.of_nat (size cache) >=? MAX_CACHED_VIDEOS CONFIG then w
  else if preloadingPaused (store w) then w
  else
    let video :=
      Video.mk videoUrl "metadata" true true true "anonymous" false "" ""
               offscreen true Video.InBody 0%Q [] (Some slideIndex) in
    let '(e, w1) := newVideo video w in
    let w2 := mutate (set_preloadedVideos
                (<[slideIndex := CacheEntry.mk e videoUrl (now w1)]> cache)) w1 in
    let currentIndex := currentIndex (store w2) in
    if slideIndex =? currentIndex + 1 then playThenPause e w2 else w2.

(** The ['error'] listener that [preloadVideoElement] registers on the
    element it creates ([once]). *)
Definition onPreloadError (e : ElemId) (w : World) : World :=
  match videoElems w !! e with
  | Some v =>
      match Video.errorListener v with
      | Some slideIndex =>
          let w1 := mutate (set_preloadedVideos
                      (delete slideIndex (preloadedVideos (store w)))) w in
          updVideo (fun v => Video.set_errorListener None (Video.remove v)) e w1
      | None => w
      end
  | None => w
  end.

Definition getPreloadedVideo (slideIndex : Z) (w : World)
  : option ElemId * World :=
  let cache := preloadedVideos (store w) in
  match cache !! slideIndex with
  | Some cached =>
      let w1 := mutate (set_preloadedVideos (delete slideIndex cache)) w in
      let video := CacheEntry.element cached in
      (Some video, updVideo (Video.set_style (Video.mkStyle "" "" "" "")) video w1)
  | None => (None, w)
  end.

(** [cached.element.src = ''; cached.element.remove()]. *)
Definition destroy (v : Video.t) : Video.t := Video.remove (Video.set_src "" v).

(** One iteration of the loop of [cleanupOldPreloads]. *)
Definition cleanupBody (CONFIG : Config) (currentIndex : Z)
  (slideIndex : Z) (cached : CacheEntry.t) (acc : World) : World :=
  let threshold := CLEANUP_THRESHOLD CONFIG in
  if bool_decide (slideIndex < currentIndex - threshold) then
    let acc1 := updVideo destroy (CacheEntry.element cached) acc in
    mutate (set_preloadedVideos
      (delete slideIndex (preloadedVideos (store acc1)))) acc1
  else acc.

(** The loop deletes only the entry it is visiting, so visiting the
    entries present at the start is visiting the live map. *)
Definition cleanupOldPreloads (CONFIG : Config) (currentIndex : Z) (w : World)
  : World :=
  map_fold (cleanupBody CONFIG currentIndex) w (preloadedVideos (store w)).

(** ** media.js: resolution of external video ids *)

(** [_xvb()]: the decoded base URL of the provider API. *)
Definition xvb : string := "https://api.redgifs.com/v2".

Definition jsonHeaders : list (string * string) :=
  [("Accept", "application/json"); ("Content-Type", "application/json")].

(** [`${CONFIG.proxy.URL}?url=${encodeURIComponent(url)}`]. *)
Definition proxied (CONFIG : Config) (url : string) : string :=
  PROXY_URL CONFIG +:+ "?url=" +:+ encodeURIComponent CONFIG url.

(** The request that reaches [fetch]: through [fetchViaWorkerProxy] when
    the proxy is enabled, directly otherwise. *)
Definition fetchRequest (CONFIG : Config) (url : string)
  (headers : list (string * string)) : Request :=
  if PROXY_ENABLED CONFIG then mkRequest (proxied CONFIG url) headers
  else mkRequest url headers.

Definition issue (r : Request) (w : World) : World :=
  set_requests (requests w ++ [r]) w.

(** [await fetch...] followed by [await response.json()]: [None] when
    either throws ([fetchViaWorkerProxy] throws on a response that is not
    ok). *)
Definition readJson (CONFIG : Config) (r : Response) : option Body :=
  match r with
  | NetworkFailure => None
  | HttpResponse ok json => if PROXY_ENABLED CONFIG && negb ok then None else json
  end.

(** The cached token, when [externalVideoToken && Date.now() < expiry]. *)
Definition cachedToken (w : World) : option string :=
  match externalVideoToken (media w) with
  | Some tok =>
      if truthy tok && (now w <? externalVideoTokenExpiry (media w))
      then Some tok else None
  | None => None
  end.

(** [getExternalVideoToken] after its [await]s: the token or [null]. *)
Definition tokenFromResponse (CONFIG : Config) (r : Response) (w : World)
  : option string * World :=
  match readJson CONFIG r with
  | Some data =>
      if otruthy (token data) then
        (token data,
         set_media (mkMediaState (token data) (now w + 60 * 60 * 1000)) w)
      else (None, w)
  | None => (None, w)
  end.

Definition infoRequest (CONFIG : Config) (id tok : string) : Request :=
  fetchRequest CONFIG (xvb +:+ "/gifs/" +:+ toLowerCase CONFIG id)
    (jsonHeaders ++ [("Authorization", "Bearer " +:+ tok)]).

(** [fetchExternalVideoUrl] once the token is known. *)
Definition withToken (CONFIG : Config) (id : string) (tok : option string)
  (w : World) : (Stage + option string) * World :=
  match tok with
  | Some t =>
      if truthy t then (inl AwaitInfo, issue (infoRequest CONFIG id t) w)
      else (inr None, w)
  | None => (inr None, w)
  end.

(** [fetchExternalVideoUrl] after the response on the video: the URL or
    [null]. *)
Definition urlFromResponse (CONFIG : Config) (r : Response) : option string :=
  match readJson CONFIG r with
  | Some data =>
      let urls := match gif_urls data with
                  | Some u => u
                  | None => match urls data with
                            | Some u => u
                            | None => mkUrls None None
                            end
                  end in
      let videoUrl := or_else (or_else (hd urls) (sd urls)) None in
      match videoUrl with
      | Some u =>
          if truthy u && PROXY_ENABLED CONFIG then Some (proxied CONFIG u)
          else videoUrl
      | None => None
      end
  | None => None
  end.

(** The call [fetchExternalVideoUrl(id)] up to its first suspension: the
    token request leaves at once when no valid token is cached. *)
Definition fetchExternalVideoUrl (CONFIG : Config) (id : string) (w : World)
  : Stage * World :=
  match cachedToken w with
  | Some tok => (AwaitCachedToken tok, w)
  | None =>
      (AwaitToken,
       issue (fetchRequest CONFIG (xvb +:+ "/auth/temporary") jsonHeaders) w)
  end.

(** A suspended call resumes, on the response to its request or, when it
    waits on the cached token, on its own ([None]): [inl] when it
    suspends again, [inr] when its promise is fulfilled.  [None] when the
    call does not wait for this. *)
Definition resumeFetch (CONFIG : Config) (id : string) (stage : Stage)
  (r : option Response) (w : World) : option ((Stage + option string) * World) :=
  match stage, r with
  | AwaitCachedToken tok, None => Some (withToken CONFIG id (Some tok) w)
  | AwaitToken, Some r =>
      let '(tok, w1) := tokenFromResponse CONFIG r w in
      Some (withToken CONFIG id tok w1)
  | AwaitInfo, Some r => Some (inr (urlFromResponse CONFIG r), w)
  | _, _ => None
  end.

Definition getPreloadedVideoUrl (videoId : string) (w : World) : option string :=
  match preloadedVideoUrls (store w) !! videoId with
  | Some u => if truthy u then Some u else None
  | None => None
  end.

(** The reaction of [preloadExternalVideoUrls] on the promise. *)
Definition onPreloaderResolved (videoId : string) (url : option string)
  (w : World) : World :=
  let w1 := match url with
            | Some u =>
                if truthy u then
                  mutate (set_preloadedVideoUrls
                    (<[videoId := u]> (preloadedVideoUrls (store w)))) w
                else w
            | None => w
            end in
  mutate (set_preloadingInProgress
    (preloadingInProgress (store w1) ∖ {[videoId]})) w1.

Fixpoint preloadExternalVideoUrls_loop (CONFIG : Config)
  (slides : list SlideRef) (startIndex : Z) (n : nat) (i : Z) (w : World)
  : World :=
  match n with
  | O => w
  | S n' =>
      let idx := startIndex + i in
      if idx >=? len slides then w
      else
        match slideAt w slides idx with
        | None => w    (* [slides[idx]] is undefined: the loop is aborted *)
        | Some (_, slide) =>
            let continue := preloadExternalVideoUrls_loop CONFIG slides
                              startIndex n' (i + 1) in
            match Slide.externalVideoId slide with
            | Some videoId =>
                if negb (Slide.needsResolve slide) || negb (truthy videoId)
                then continue w
                else if bool_decide (is_Some (preloadedVideoUrls (store w) !! videoId))
                        || bool_decide (videoId ∈ preloadingInProgress (store w))
                then continue w
                else
                  let w1 := mutate (set_preloadingInProgress
                              ({[videoId]} ∪ preloadingInProgress (store w))) w in
                  let '(stage, w2) := fetchExternalVideoUrl CONFIG videoId w1 in
                  continue (schedule (Resolution videoId stage ByPreloader) w2)
            | None => continue w
            end
        end
  end.

Definition preloadExternalVideoUrls (CONFIG : Config) (slides : list SlideRef)
  (startIndex count : Z) (w : World) : World :=
  preloadExternalVideoUrls_loop CONFIG slides startIndex (Z.to_nat count) 0 w.

(** ** ui.js: preloading and rendering of slides *)

Fixpoint preloadUpcomingVideos_loop (CONFIG : Config) (slides : list SlideRef)
  (currentIndex : Z) (n : nat) (i : Z) (w : World) : World :=
  match n with
  | O => w
  | S n' =>
      let idx := currentIndex + i in
      if idx >=? len slides then w
      else
        match slideAt w slides idx with
        | None => w    (* [slides[idx]] is undefined: the loop is aborted *)
        | Some (r, slide) =>
            let continue := preloadUpcomingVideos_loop CONFIG slides
                              currentIndex n' (i + 1) in
            if negb (String.eqb (Slide.type slide) "video") then continue w
            else
              let external :=
                match Slide.externalVideoId slide with
                | Some videoId =>
                    if Slide.needsResolve slide && truthy videoId
                    then Some videoId else None
                | None => None
                end in
              let videoUrl :=            (* [None] when the slide is skipped *)
                match external with
                | Some videoId =>
                    let cachedUrl := preloadedVideoUrls (store w) !! videoId in
                    if otruthy cachedUrl then Some cachedUrl else None
                | None => Some (Slide.url slide)
                end in
              match videoUrl with
              | Some (Some u) =>
                  if truthy u
                  then continue (preloadVideoElement CONFIG r idx u w)
                  else continue w
              | _ => continue w
              end
        end
  end.

Definition preloadUpcomingVideos (CONFIG : Config) (slides : list SlideRef)
  (currentIndex : Z) (w : World) : World :=
  preloadUpcomingVideos_loop CONFIG slides currentIndex
    (Z.to_nat (VIDEO_PRELOAD_COUNT CONFIG)) 1 w.

Definition isActive (position : string) : bool := String.eqb position "active".

(** [video.src = data.url], where [null] is converted to a string. *)
Definition srcOf (url : option string) : string :=
  match url with
  | Some u => u
  | None => "null"
  end.

(** The two poster images, named by the text they show. *)
Definition loadingPoster : string := "Loading...".
Definition unavailablePoster : string := "Video unavailable".

(** The reaction of [createSlideElement] on the promise. *)
Definition onRendererResolved (id : string) (data : SlideRef) (video : ElemId)
  (position : string) (url : option string) (w : World) : World :=
  let w1 := mutate (set_preloadingInProgress
              (preloadingInProgress (store w) ∖ {[id]})) w in
  match url with
  | Some u =>
      if truthy u then
        let w2 := mutate (set_preloadedVideoUrls
                    (<[id := u]> (preloadedVideoUrls (store w1)))) w1 in
        let w3 := updVideo (Video.set_src u) video w2 in
        let w4 := updSlide (Slide.set_resolved u) data w3 in
        if isActive position then updVideo Video.play video w4 else w4
      else updVideo (Video.set_poster unavailablePoster) video w1
  | None => updVideo (Video.set_poster unavailablePoster) video w1
  end.

Definition createSlideElement (CONFIG : Config) (data : SlideRef)
  (position : string) (slideIndex : Z) (w : World) : option SlideEl * World :=
  match slideObjs w !! data with
  | None => (None, w)
  | Some d =>
      if String.eqb (Slide.type d) "video" then
        let '(preloadedVideo, w1) := getPreloadedVideo slideIndex w in
        let videoMuted := videoMuted (store w1) in
        match preloadedVideo with
        | Some e =>
            let w2 := updVideo (fun v =>
                        Video.set_parent Video.InSlide
                          (Video.set_muted videoMuted
                             (Video.set_ariaLabel (Slide.title d) v))) e w1 in
            let w3 := if isActive position
                      then updVideo (fun v => Video.play (Video.set_autoplay true v)) e w2
                      else w2 in
            (Some (mkSlideEl position (MediaVideo e)), w3)
        | None =>
            let video :=
              Video.mk "" "auto" videoMuted true true "anonymous"
                       (isActive position) "" (Slide.title d)
                       (Video.mkStyle "" "" "" "") true Video.Detached 0%Q []
                       None in
            let '(e, w2) := newVideo video w1 in
            let external :=
              match Slide.externalVideoId d with
              | Some id => if Slide.needsResolve d && truthy id then Some id else None
              | None => None
              end in
            let w3 :=
              match external with
              | Some id =>
                  match getPreloadedVideoUrl id w2 with
                  | Some preloadedUrl =>
                      updSlide (Slide.set_resolved preloadedUrl) data
                        (updVideo (Video.set_src preloadedUrl) e w2)
                  | None =>
                      let w' := mutate (set_preloadingInProgress
                                  ({[id]} ∪ preloadingInProgress (store w2))) w2 in
                      let w'' := updVideo (Video.set_poster loadingPoster) e w' in
                      let '(stage, w''') := fetchExternalVideoUrl CONFIG id w'' in
                      schedule (Resolution id stage (ByRenderer data e position)) w'''
                  end
              | None => updVideo (Video.set_src (srcOf (Slide.url d))) e w2
              end in
            let w4 := updVideo (Video.set_parent Video.InSlide) e w3 in
            let hasSrc := match videoElems w4 !! e with
                          | Some v => truthy (Video.src v)
                          | None => false
                          end in
            let w5 := if isActive position && hasSrc
                      then updVideo Video.play e w4 else w4 in
            (Some (mkSlideEl position (MediaVideo e)), w5)
        end
      else (Some (mkSlideEl position (MediaImg (Slide.url d))), w)
  end.

Fixpoint renderOffsets (CONFIG : Config) (slides : list SlideRef)
  (currentIndex : Z) (offsets : list (Z * string)) (w : World) : World :=
  match offsets with
  | [] => w
  | (offset, position) :: rest =>
      let idx := currentIndex + offset in
      if (idx <? 0) || (idx >=? len slides)
      then renderOffsets CONFIG slides currentIndex rest w
      else
        match slides !! Z.to_nat idx with
        | None => w
        | Some data =>
            let '(slide, w1) := createSlideElement CONFIG data position idx w in
            let w2 := match slide, slideshow w1 with
                      | Some s, Some children =>
                          set_slideshow (Some (children ++ [s])) w1
                      | _, _ => w1
                      end in
            renderOffsets CONFIG slides currentIndex rest w2
        end
  end.

Definition updateSlides (CONFIG : Config) (w : World) : World :=
  match slideshow w with
  | None => w
  | Some _ =>
      let slides := slides (store w) in
      let currentIndex := currentIndex (store w) in
      let w1 := set_slideshow (Some []) w in
      renderOffsets CONFIG slides currentIndex
        [(-1, "prev"); (0, "active"); (1, "next")] w1
  end.

(** ** state.js helpers, controls.js and app.js *)

Definition shouldPreloadPosts (CONFIG : Config) (w : World) : bool :=
  let slides := slides (store w) in
  let index := currentIndex (store w) in
  (len slides - index <? PRELOAD_THRESHOLD CONFIG)
  && bool_decide (after (store w) <> None)
  && negb (loading (store w)).

Definition resetForNewLoad (w : World) : World :=
  let w1 := setState (fun s => set_loading true (set_after None
              (set_currentIndex 0 (set_slides [] s)))) w in
  mutate (set_preloadedImages ∅) w1.

Definition resetZoom (w : World) : World :=
  setState (fun s => set_isPanning false (set_panY 0 (set_panX 0
              (set_isZoomed false s)))) w.

Definition stopAutoplay (w : World) : World :=
  setState (fun s => set_autoplayInterval None (set_autoplay false s)) w.

Definition loadMorePosts (w : World) : World :=
  let state := store w in
  let w1 := setState (set_loading true) w in
  schedule (MorePosts (slides state)) w1.

Fixpoint preloadImages_loop (CONFIG : Config) (slides : list SlideRef)
  (currentIndex : Z) (n : nat) (i : Z) (w : World) : World :=
  match n with
  | O => w
  | S n' =>
      let idx := currentIndex + i in
      if idx >=? len slides then w
      else
        match slideAt w slides idx with
        | None => w    (* [slides[idx]] is undefined: the loop is aborted *)
        | Some (_, data) =>
            let w1 :=
              if String.eqb (Slide.type data) "image"
                 && negb (bool_decide (Slide.url data ∈ preloadedImages (store w)))
              then mutate (set_preloadedImages
                     ({[Slide.url data]} ∪ preloadedImages (store w))) w
              else w in
            preloadImages_loop CONFIG slides currentIndex n' (i + 1) w1
        end
  end.

Definition preloadUpcomingMedia (CONFIG : Config) (w : World) : World :=
  let slides := slides (store w) in
  let currentIndex := currentIndex (store w) in
  let w1 := preloadImages_loop CONFIG slides currentIndex
              (Z.to_nat (PRELOAD_COUNT CONFIG)) 1 w in
  let w2 := preloadExternalVideoUrls CONFIG slides (currentIndex + 1)
              (URL_PRELOAD_COUNT CONFIG) w1 in
  schedule (TimeoutPreloadUpcomingVideos slides currentIndex) w2.

Definition navigate (CONFIG : Config) (direction : Z) (w : World) : World :=
  let currentIndex := currentIndex (store w) in
  let slides := slides (store w) in
  let newIdx := currentIndex + direction in
  if (newIdx <? 0) || (newIdx >=? len slides) then w
  else
    let w1 := resetZoom w in
    let w2 := stopBufferMonitoring w1 in
    let w3 := match getActiveVideo w2 with
              | Some (video, _) => updVideo Video.pause video w2
              | None => w2
              end in
    let w4 := setState (fun s => set_preloadingPaused false
                (set_currentIndex newIdx s)) w3 in
    let w5 := updateSlides CONFIG w4 in
    let w6 := match slideAt w5 slides newIdx with
              | Some (_, newSlide) =>
                  if String.eqb (Slide.type newSlide) "video"
                  then schedule TimeoutStartBufferMonitoring w5 else w5
              | None => w5
              end in
    let w7 := preloadUpcomingMedia CONFIG w6 in
    let w8 := cleanupOldPreloads CONFIG newIdx w7 in
    if shouldPreloadPosts CONFIG w8 then loadMorePosts w8 else w8.

Definition triggerInitialPreload (CONFIG : Config) (w : World) : World :=
  let slides := slides (store w) in
  let currentIndex := currentIndex (store w) in
  if len slides =? 0 then w
  else
    let w1 := match slideAt w slides currentIndex with
              | Some (_, firstSlide) =>
                  if String.eqb (Slide.type firstSlide) "video"
                  then schedule TimeoutStartBufferMonitoring w else w
              | None => w
              end in
    let w2 := preloadExternalVideoUrls CONFIG slides currentIndex
                (URL_PRELOAD_COUNT CONFIG) w1 in
    schedule (TimeoutPreloadUpcomingVideos slides currentIndex) w2.

(** [loadSubreddit] up to [await fetchPosts(...)]. *)
Definition loadSubreddit (subreddit : string) (w : World) : World :=
  let w1 := stopAutoplay w in
  let w2 := resetZoom w1 in
  let w3 := setState (fun s => set_loading true (set_after None
              (set_currentIndex 0 (set_slides [] (set_subreddit subreddit s))))) w2 in
  let w4 := mutate (set_preloadedImages ∅) w3 in
  schedule SubredditPosts w4.

(** The slide objects that [extractMediaFromPosts] builds are new. *)
Definition allocSlides (new : list Slide.t) (w : World) : list SlideRef * World :=
  (seq (length (slideObjs w)) (length new), set_slideObjs (slideObjs w ++ new) w).

(** [loadSubreddit] after [fetchPosts] settles; [None] when it rejects. *)
Definition onSubredditPosts (CONFIG : Config)
  (r : option (list Slide.t * option string)) (w : World) : World :=
  match r with
  | Some (extracted, after') =>
      let '(slides, w1) := allocSlides extracted w in
      let w2 := setState (fun s => set_loading false (set_after after'
                  (set_slides slides s))) w1 in
      if len slides =? 0 then w2
      else
        let w3 := updateSlides CONFIG w2 in
        if firstLoad (store w3) then setState (set_firstLoad false) w3 else w3
  | None => setState (set_loading false) w
  end.

(** [loadMorePosts] after [fetchPosts] settles. *)
Definition onMorePosts (captured : list SlideRef)
  (r : option (list Slide.t * option string)) (w : World) : World :=
  match r with
  | Some (extracted, after') =>
      let '(newSlides, w1) := allocSlides extracted w in
      setState (fun s => set_loading false (set_after after'
        (set_slides (captured ++ newSlides) s))) w1
  | None => setState (set_loading false) w
  end.

(** ** The event loop

    What the environment can do: the user navigates or loads a feed, a
    pending callback runs with the outcome the browser or the network
    gives it, the monitor's interval fires, a media element reports an
    error or makes progress, time passes. *)

Inductive Outcome : Type :=
| Elapsed                                        (* a timer *)
| Resumed                                        (* an [await] on a settled promise *)
| Played (fulfilled : bool)                      (* a [play()] promise *)
| Fetched (r : Response)                         (* a [fetch] promise *)
| Posts (r : option (list Slide.t * option string)).   (* [fetchPosts] *)

Inductive Event : Type :=
| Navigate (direction : Z)
| LoadSubreddit (subreddit : string)
| Run (i : nat) (o : Outcome)
| IntervalFires
| MediaError (e : ElemId)
| MediaProgress (e : ElemId) (currentTime : Q) (buffered : list (Q * Q))
| ClockIs (t : Z).

Definition onResolved (id : string) (resolver : Resolver)
  (url : option string) (w : World) : World :=
  match resolver with
  | ByPreloader => onPreloaderResolved id url w
  | ByRenderer data video position =>
      onRendererResolved id data video position url w
  end.

Definition resumeResolution (CONFIG : Config) (id : string) (stage : Stage)
  (resolver : Resolver) (r : option Response) (w : World) : option World :=
  match resumeFetch CONFIG id stage r w with
  | Some (inl stage', w1) => Some (schedule (Resolution id stage' resolver) w1)
  | Some (inr url, w1) => Some (onResolved id resolver url w1)
  | None => None
  end.

(** A task that left the queue runs; a task offered an outcome of the
    wrong kind stays in the queue. *)
Definition runTask (CONFIG : Config) (t : Task) (o : Outcome) (w : World)
  : option World :=
  match t, o with
  | TimeoutStartBufferMonitoring, Elapsed => Some (startBufferMonitoring CONFIG w)
  | TimeoutPreloadUpcomingVideos slides currentIndex, Elapsed =>
      Some (preloadUpcomingVideos CONFIG slides currentIndex w)
  | PlayThenPause video, Played fulfilled =>
      Some (if fulfilled then updVideo Video.pause video w else w)
  | Resolution id stage resolver, Fetched r =>
      resumeResolution CONFIG id stage resolver (Some r) w
  | Resolution id stage resolver, Resumed =>
      resumeResolution CONFIG id stage resolver None w
  | MorePosts captured, Posts r => Some (onMorePosts captured r w)
  | SubredditPosts, Posts r => Some (onSubredditPosts CONFIG r w)
  | _, _ => None
  end.

Definition step (CONFIG : Config) (w : World) (ev : Event) : World :=
  match ev with
  | Navigate direction => navigate CONFIG direction w
  | LoadSubreddit subreddit => loadSubreddit subreddit w
  | Run i o =>
      match pending w !! i with
      | Some t =>
          match runTask CONFIG t o (set_pending (delete i (pending w)) w) with
          | Some w' => w'
          | None => w
          end
      | None => w
      end
  | IntervalFires => if bufferMonitorInterval w then checkBuffer CONFIG w else w
  | MediaError e => onPreloadError e w
  | MediaProgress e currentTime buffered =>
      updVideo (Video.set_progress currentTime buffered) e w
  | ClockIs t => set_now t w
  end.

Definition run (CONFIG : Config) (w : World) (evs : list Event) : World :=
  fold_left (step CONFIG) evs w.

(** Direct calls on the element cache, next to the events. *)
Inductive CacheOp : Type :=
| OpPreloadVideoElement (slideData : SlideRef) (slideIndex : Z) (videoUrl : string)
| OpGetPreloadedVideo (slideIndex : Z)
| OpCleanupOldPreloads (currentIndex : Z)
| OpPreloadUpcomingVideos (slides : list SlideRef) (currentIndex : Z)
| OpEvent (ev : Event).

Definition applyOp (CONFIG : Config) (w : World) (op : CacheOp) : World :=
  match op with
  | OpPreloadVideoElement slideData slideIndex videoUrl =>
      preloadVideoElement CONFIG slideData slideIndex videoUrl w
  | OpGetPreloadedVideo slideIndex => snd (getPreloadedVideo slideIndex w)
  | OpCleanupOldPreloads currentIndex => cleanupOldPreloads CONFIG currentIndex w
  | OpPreloadUpcomingVideos slides currentIndex =>
      preloadUpcomingVideos CONFIG slides currentIndex w
  | OpEvent ev => step CONFIG w ev
  end.

(** The world before any feed is loaded. *)
Definition initialWorld : World :=
  mkWorld
    (mkAppState [] 0 "" None false true false 0 0 false false None true
                ∅ ∅ ∅ ∅ false)
    [] [] (Some []) false (mkMediaState None 0) [] [] 0.

(** ** state.js helpers and controls.js: position, autoplay, zoom, keys *)

Definition hasSlides (w : World) : bool := len (slides (store w)) >? 0.

Definition getCurrentSlide (w : World) : option (SlideRef * Slide.t) :=
  slideAt w (slides (store w)) (currentIndex (store w)).

Definition isAtStart (w : World) : bool := currentIndex (store w) =? 0.

Definition isAtEnd (w : World) : bool :=
  currentIndex (store w) >=? len (slides (store w)) - 1.

(** [startAutoplay]; [intervalId] is what [setInterval] returns. *)
Definition startAutoplay (intervalId : nat) (w : World) : World :=
  if negb (hasSlides w) then w
  else setState (fun s => set_autoplayInterval (Some intervalId)
                            (set_autoplay true s)) w.

(** The callback that [startAutoplay] gives to [setInterval]. *)
Definition autoplayTick (CONFIG : Config) (w : World) : World :=
  if negb (isAtEnd w) then navigate CONFIG 1 w else stopAutoplay w.

Definition toggleAutoplay (intervalId : nat) (w : World) : World :=
  if autoplay (store w) then stopAutoplay w else startAutoplay intervalId w.

Fixpoint queryActiveImage (children : list SlideEl) : option (option string) :=
  match children with
  | [] => None
  | s :: rest =>
      match slideMedia s with
      | MediaImg src =>
          if String.eqb (slidePosition s) "active" then Some src
          else queryActiveImage rest
      | MediaVideo _ => queryActiveImage rest
      end
  end.

(** [elements.slideshow?.querySelector('.slide.active img') || null]: the
    image found, by its [src]. *)
Definition getActiveImage (w : World) : option (option string) :=
  match slideshow w with
  | Some children => queryActiveImage children
  | None => None
  end.

Definition toggleZoom (w : World) : World :=
  match getActiveImage w with
  | None => w
  | Some _ =>
      setState (fun s => set_panY 0 (set_panX 0
                  (set_isZoomed (negb (isZoomed s)) s))) w
  end.

(** The key lists of [CONFIG.shortcuts], from the copy of the
    configuration that comes with utils.js (a copy without the
    [preloading] section). *)
Definition NAVIGATE_PREV : list string := ["ArrowLeft"; "ArrowUp"].
Definition NAVIGATE_NEXT : list string := ["ArrowRight"; "ArrowDown"; " "].
Definition TOGGLE_FULLSCREEN : list string := ["f"; "F"].
Definition TOGGLE_ZOOM : list string := ["z"; "Z"].
Definition TOGGLE_AUTOPLAY : list string := ["p"; "P"].
Definition SHOW_UI : list string := ["Escape"].

(** [handleKeydown(e)], with [e.target.tagName] and [e.key].
    [toggleFullscreen] acts on the document alone, and [showUI] on the
    bars and on the key [uiVisible], which the typed state does not
    carry: they leave the world as it is. *)
Definition handleKeydown (CONFIG : Config) (intervalId : nat)
  (tagName key : string) (w : World) : World :=
  if String.eqb tagName "INPUT" || String.eqb tagName "SELECT" then w
  else
    let isZoomed := isZoomed (store w) in
    if bool_decide (key ∈ NAVIGATE_PREV) then
      if negb isZoomed then navigate CONFIG (-1) w else w
    else if bool_decide (key ∈ NAVIGATE_NEXT) then
      if negb isZoomed then navigate CONFIG 1 w else w
    else if bool_decide (key ∈ TOGGLE_FULLSCREEN) then w
    else if bool_decide (key ∈ TOGGLE_ZOOM) then toggleZoom w
    else if bool_decide (key ∈ TOGGLE_AUTOPLAY) then toggleAutoplay intervalId w
    else if bool_decide (key ∈ SHOW_UI) then
      if isZoomed then resetZoom w else w
    else w.

(** ** api.js: retries and the fallback from JSONP *)

(** The transports of a request. *)
Inductive Transport : Type := Jsonp | Proxy.

Section Api.
Context {D E : Type}.

(** The loop of [fetchWithRetry(url, retries)].  [jsonp k] is what the
    call of [jsonp(url)] made by attempt [k] settles to: [inl] its data,
    [inr] the error it rejects with.  The result comes with the delays
    slept, in order; [inr None] is [throw undefined]. *)
Fixpoint fetchWithRetry_loop (RETRY_BASE_DELAY retries : Z)
  (jsonp : Z -> D + E) (fuel : nat) (attempt : Z) (lastError : option E)
  : (D + option E) * list Z :=
  match fuel with
  | O => (inr lastError, [])
  | S fuel' =>
      if attempt <? retries then
        match jsonp attempt with
        | inl data => (inl data, [])
        | inr error =>
            let slept := if attempt <? retries - 1
                         then [RETRY_BASE_DELAY * 2 ^ attempt] else [] in
            let '(result, delays) :=
              fetchWithRetry_loop RETRY_BASE_DELAY retries jsonp fuel'
                (attempt + 1) (Some error) in
            (result, slept ++ delays)
        end
      else (inr lastError, [])
  end.

(** The loop runs [retries] times at most. *)
Definition fetchWithRetry (RETRY_BASE_DELAY retries : Z) (jsonp : Z -> D + E)
  : (D + option E) * list Z :=
  fetchWithRetry_loop RETRY_BASE_DELAY retries jsonp (Z.to_nat retries) 0 None.

(** [jsonp(url)] with the module variable [jsonpWorks]: what the call
    settles to, the flag after it and the transports it tried.  [direct]
    and [viaProxy] are what [jsonpDirect(url)] and [fetchViaProxy(url)]
    settle to when they are called. *)
Definition jsonp (jsonpWorks : bool) (direct viaProxy : D + E)
  : (D + E) * bool * list Transport :=
  if negb jsonpWorks then (viaProxy, jsonpWorks, [Proxy])
  else
    match direct with
    | inl data => (inl data, jsonpWorks, [Jsonp])
    | inr _ => (viaProxy, false, [Jsonp; Proxy])
    end.

(** A sequence of requests, each settled before the next is made, with
    the two outcomes of each. *)
Fixpoint jsonpAll (jsonpWorks : bool) (calls : list ((D + E) * (D + E)))
  : list ((D + E) * list Transport) * bool :=
  match calls with
  | [] => ([], jsonpWorks)
  | (direct, viaProxy) :: rest =>
      let '(result, works', tried) := jsonp jsonpWorks direct viaProxy in
      let '(results, works'') := jsonpAll works' rest in
      ((result, tried) :: results, works'')
  end.

End Api.

(** ** worker/reddit-proxy.js: the proxy that [fetchViaWorkerProxy] calls *)

Module Worker.

(** A [Headers] object: values by name, the names in lower case as
    [Headers] keeps them. *)
Abbreviation Headers := (gmap string string).

Record Request : Type := mkRequest {
  method : string;
  target : option string;      (* [new URL(request.url).searchParams.get('url')] *)
  headers : Headers
}.

Inductive Payload : Type :=
| NoBody
| ErrorBody (error : string) (message : option string)   (* [JSON.stringify] *)
| UpstreamBody (content : string).

Record Response : Type := mkResponse {
  status : Z;
  responseHeaders : Headers;
  body : Payload
}.

(** What the upstream [fetch] settles to: [inr] the message of the error
    it rejects with. *)
Record Upstream : Type := mkUpstream {
  upstreamStatus : Z;
  upstreamHeaders : Headers;
  upstreamBody : string
}.

Definition xva : string := "api.redgifs.com".
Definition xvm : string := "media.redgifs.com".
Definition xvr : string := "https://www.redgifs.com/".
Definition xvo : string := "https://www.redgifs.com".

Definition corsHeaders : list (string * string) :=
  [("access-control-allow-origin", "*");
   ("access-control-allow-methods", "GET, OPTIONS");
   ("access-control-allow-headers", "Content-Type, Authorization")].

(** [{ ...corsHeaders, 'Content-Type': 'application/json' }]. *)
Definition jsonError (code : Z) (error : string) (message : option string)
  : Response :=
  mkResponse code
    (<["content-type" := "application/json"]> (list_to_map corsHeaders))
    (ErrorBody error message).

Definition allowed : list string :=
  ["old.reddit.com"; "www.reddit.com"; xva; xvm].

Definition userAgent : string :=
  "Mozilla/5.0 (Windows NT 10.0; Win64; x64) AppleWebKit/537.36 (KHTML, like Gecko) Chrome/120.0.0.0 Safari/537.36".

(** The loop over [passHeaders]. *)
Definition passThrough (from : Headers) (names : list string) (to : Headers)
  : Headers :=
  foldl (fun acc h => match from !! h with
                      | Some v => <[h := v]> acc
                      | None => acc
                      end) to names.

(** [handleRequest] up to the upstream [fetch]: the response it returns
    without one, or the target and the headers of the [fetch].
    [hostname u] is [new URL(u).hostname], [None] when the constructor
    throws. *)
Definition route (hostname : string -> option string) (request : Request)
  : Response + (string * Headers) :=
  if String.eqb (method request) "OPTIONS"
  then inl (mkResponse 200 (list_to_map corsHeaders) NoBody)
  else
    match target request with
    | None => inl (jsonError 400 "Missing url parameter" None)
    | Some targetUrl =>
        if negb (truthy targetUrl)
        then inl (jsonError 400 "Missing url parameter" None)
        else
          match hostname targetUrl with
          | None => inl (jsonError 400 "Invalid URL" None)
          | Some targetHost =>
              if negb (bool_decide (targetHost ∈ allowed))
              then inl (jsonError 403 "Domain not allowed" None)
              else
                let h0 : Headers := <["user-agent" := userAgent]> ∅ in
                let h1 := if String.eqb targetHost xvm
                          then <["origin" := xvo]> (<["referer" := xvr]>
                                 (<["accept" := "*/*"]> h0))
                          else <["accept" := "application/json"]> h0 in
                inr (targetUrl,
                     passThrough (headers request)
                       ["authorization"; "content-type"] h1)
          end
    end.

(** [handleRequest] after the upstream [fetch]. *)
Definition relay (upstream : Upstream + string) : Response :=
  match upstream with
  | inl response =>
      mkResponse (upstreamStatus response)
        (foldl (fun acc kv => <[kv.1 := kv.2]> acc)
               (upstreamHeaders response) corsHeaders)
        (UpstreamBody (upstreamBody response))
  | inr message => jsonError 502 "Fetch failed" (Some message)
  end.

(** [handleRequest(request)]; [fetch] gives what the upstream request
    settles to. *)
Definition handleRequest (hostname : string -> option string)
  (fetch : string -> Headers -> Upstream + string) (request : Request)
  : Response :=
  match route hostname request with
  | inl response => response
  | inr (targetUrl, h) => relay (fetch targetUrl h)
  end.

End Worker.

(** * Vocabulary of the properties *)

(** The world differs from [w] in the element cache and the video
    elements only. *)
Definition sameButCache (w w' : World) : Prop :=
  set_videoElems (videoElems w)
    (mutate (set_preloadedVideos (preloadedVideos (store w))) w') = w.

(** [quiet w0 w]: from [w0] to [w] the element cache lost entries at most,
    and the slide sequence and the position are the same. *)
Definition quiet (w0 w : World) : Prop :=
  preloadedVideos (store w) ⊆ preloadedVideos (store w0)
  /\ slides (store w) = slides (store w0)
  /\ currentIndex (store w) = currentIndex (store w0).

(** The position is an index of the slide sequence, or there is no slide. *)
Definition validPosition (w : World) : Prop :=
  slides (store w) = [] \/
  (0 <= currentIndex (store w) < len (slides (store w))).

(** The slide sequence and the position are the same. *)
Definition sameFeed (w0 w : World) : Prop :=
  slides (store w) = slides (store w0)
  /\ currentIndex (store w) = currentIndex (store w0).

(** The event is not the arrival of a page of posts. *)
Definition notPosts (ev : Event) : Prop :=
  match ev with
  | Run _ (Posts _) => False
  | _ => True
  end.

Definition navigateAll (CONFIG : Config) (w : World) (directions : list Z)
  : World :=
  fold_left (fun w d => navigate CONFIG d w) directions w.

(** The cache holds no more entries than the configuration allows. *)
Definition withinCapacity (CONFIG : Config) (w : World) : Prop :=
  Z.of_nat (size (preloadedVideos (store w))) <= MAX_CACHED_VIDEOS CONFIG.

(** The calls of [fetchExternalVideoUrl(id)] that have not settled. *)
Fixpoint resolutionsOf (id : string) (ts : list Task) : nat :=
  match ts with
  | [] => O
  | Resolution id' _ _ :: rest =>
      if String.eqb id id' then S (resolutionsOf id rest)
      else resolutionsOf id rest
  | _ :: rest => resolutionsOf id rest
  end.

(** The requests for the video information of [id] sent so far. *)
Definition infoRequestsOf (CONFIG : Config) (id : string) (w : World) : nat :=
  length (filter (fun r => req_url r =
                    req_url (infoRequest CONFIG id ""))
                 (requests w)).

(** What an entry of the cache is for: a video slide of the sequence
    with the URL the element loads, its own or the resolved one. *)
Definition entryFor (w : World) (slides0 : list SlideRef) (k : Z)
  (c : CacheEntry.t) : Prop :=
  exists r d,
    slideAt w slides0 k = Some (r, d)
    /\ Slide.type d = "video"
    /\ truthy (CacheEntry.url c) = true
    /\ (Slide.url d = Some (CacheEntry.url c)
        \/ exists id, Slide.externalVideoId d = Some id
             /\ preloadedVideoUrls (store w) !! id = Some (CacheEntry.url c)).

(** [starting w0 w]: from [w0] to [w] the resolved URLs are the same, no
    pending resolution has gone, and every id marked in flight since has
    a resolution that was started since. *)
Definition starting (w0 w : World) : Prop :=
  preloadedVideoUrls (store w) = preloadedVideoUrls (store w0)
  /\ (forall id, (resolutionsOf id (pending w0) <= resolutionsOf id (pending w))%nat)
  /\ (forall id, id ∈ preloadingInProgress (store w) ->
        id ∈ preloadingInProgress (store w0)
        \/ (resolutionsOf id (pending w0) < resolutionsOf id (pending w))%nat).

(** Every resolved URL of the cache is a non-empty string. *)
Definition urlsResolved (w : World) : Prop :=
  forall id u, preloadedVideoUrls (store w) !! id = Some u -> truthy u = true.

(** Every id marked in flight has a resolution that has not settled. *)
Definition marksPending (w : World) : Prop :=
  forall id, id ∈ preloadingInProgress (store w) ->
    (0 < resolutionsOf id (pending w))%nat.

(** The calls of [loadMorePosts] that wait for their page. *)
Fixpoint morePostsOf (ts : list Task) : nat :=
  match ts with
  | [] => O
  | MorePosts _ :: rest => S (morePostsOf rest)
  | _ :: rest => morePostsOf rest
  end.

(** [onlyPreloads w0 w]: from [w0] to [w] the store changed in the three
    preload collections at most ([preloadedVideos], [preloadedImages],
    [preloadingInProgress]), the monitor, the token and the clock are the
    same, and no request for a page was queued or answered. *)
Definition onlyPreloads (w0 w : World) : Prop :=
  set_preloadedVideos (preloadedVideos (store w0))
    (set_preloadedImages (preloadedImages (store w0))
       (set_preloadingInProgress (preloadingInProgress (store w0)) (store w)))
  = store w0
  /\ bufferMonitorInterval w = bufferMonitorInterval w0
  /\ media w = media w0
  /\ now w = now w0
  /\ morePostsOf (pending w) = morePostsOf (pending w0).

(** Whether a move asks for the next page. *)
Definition asksForPage (CONFIG : Config) (direction : Z) (w : World) : bool :=
  let newIdx := currentIndex (store w) + direction in
  negb ((newIdx <? 0) || (newIdx >=? len (slides (store w))))
  && (len (slides (store w)) - newIdx <? PRELOAD_THRESHOLD CONFIG)
  && bool_decide (after (store w) <> None)
  && negb (loading (store w)).

(** The delays slept by the attempts [from], ..., [from + n - 1]. *)
Definition backoff (base from n : Z) : list Z :=
  (fun k => base * 2 ^ k) <$> seqZ from n.


(** The slides of a page of posts; none when the request failed. *)
Definition pageOf (r : option (list Slide.t * option string)) : list Slide.t :=
  match r with
  | Some (extracted, _) => extracted
  | None => []
  end.

(** * Scenarios *)

Definition exampleConfig : Config :=
  mkConfig 3 4%Q 8%Q 2 3 3 3 5 false "https://proxy.example/"
           (fun s => s) (fun s => s).

Definition imageSlide (u : string) : Slide.t :=
  Slide.mk u "image" (Some u) false None.

Definition nativeVideo (u : string) : Slide.t :=
  Slide.mk u "video" (Some u) false None.

Definition externalSlide (id : string) : Slide.t :=
  Slide.mk id "video" None true (Some id).

Definition tokenResponse : Response :=
  HttpResponse true (Some (mkBody (Some "t0") None None)).

Definition infoResponse : Response :=
  HttpResponse true
    (Some (mkBody None
             (Some (mkUrls (Some "https://media.example/abc.mp4") None))
             None)).

(** ** A quick double move *)

Definition exampleFeed : list Slide.t :=
  [imageSlide "a.jpg"; imageSlide "b.jpg"; externalSlide "abc";
   imageSlide "c.jpg"].

(** A feed is loaded and the user moves to the slide before the external
    video. *)
Definition feedShown : World :=
  run exampleConfig initialWorld
    [LoadSubreddit "gifs"; Run 0 (Posts (Some (exampleFeed, None)));
     Navigate 1].

(** The user moves on before the first resolution settles; then the two
    token requests are answered. *)
Definition movedOn : World := step exampleConfig feedShown (Navigate 1).

Definition bothAsking : World :=
  run exampleConfig movedOn
    [Run 0 (Fetched tokenResponse); Run 1 (Fetched tokenResponse)].

(** ** A warm session

    A feed of videos is loaded and the user moves to its second slide;
    the id "abc" of the fifth is resolved; the timer of the preloader
    fires and fills the cache with the elements for the positions 2, 3
    and 4; the monitor starts on an active video with nothing buffered,
    and pauses preloading; then nine seconds get buffered. *)

Definition videoFeed : list Slide.t :=
  [nativeVideo "v0.mp4"; nativeVideo "v1.mp4"; nativeVideo "v2.mp4";
   nativeVideo "v3.mp4"; externalSlide "abc"; nativeVideo "v5.mp4"].

Definition warmWorld : World :=
  run exampleConfig initialWorld
    [LoadSubreddit "gifs"; Run 0 (Posts (Some (videoFeed, None)));
     Navigate 1;
     Run 1 (Fetched tokenResponse); Run 2 (Fetched infoResponse);
     Run 1 Elapsed; Run 1 (Played true); Run 0 Elapsed;
     MediaProgress 3 1%Q [(0%Q, 10%Q)]; ClockIs 10].

(** The active video of the warm session. *)
Definition warmActiveVideo : Video.t :=
  Video.mk "v1.mp4" "auto" true true true "anonymous" true "" "v1.mp4"
           (Video.mkStyle "" "" "" "") false Video.InSlide 1%Q
           [(0%Q, 10%Q)] None.

(** ** A feed of videos on its second slide

    The feed of the warm session, before any timer has fired: nothing is
    cached yet. *)
Definition videoFeedShown : World :=
  run exampleConfig initialWorld
    [LoadSubreddit "gifs"; Run 0 (Posts (Some (videoFeed, None)));
     Navigate 1].

(** ** An unreliable network

    Two attempts time out, the third answers. *)
Definition thirdTime (attempt : Z) : string + string :=
  if attempt <? 2 then inr "Request timeout" else inl "posts".

(** JSONP works for the first request and fails for the second. *)
Definition threeRequests : list ((string + string) * (string + string)) :=
  [(inl "a", inl "x"); (inr "Failed to load", inl "b"); (inl "c", inl "d")].

(** ** A request for a host that is not allowed *)
Definition hostOf (u : string) : option string :=
  if String.eqb u "https://evil.example/x" then Some "evil.example"
  else if String.eqb u "https://old.reddit.com/r/pics/hot.json"
  then Some "old.reddit.com" else None.

Definition evilRequest : Worker.Request :=
  Worker.mkRequest "GET" (Some "https://evil.example/x") ∅.

Definition redditRequest : Worker.Request :=
  Worker.mkRequest "GET" (Some "https://old.reddit.com/r/pics/hot.json")
    (<["cookie" := "session=1"]> ∅).

(** ** The id is resolved, nothing is cached yet

    The feed of the warm session on its second slide, with the id "abc"
    resolved, before the timer of the preloader has fired. *)
Definition urlResolved : World :=
  run exampleConfig initialWorld
    [LoadSubreddit "gifs"; Run 0 (Posts (Some (videoFeed, None)));
     Navigate 1;
     Run 1 (Fetched tokenResponse); Run 2 (Fetched infoResponse)].

(** ** Another feed after the warm session *)
Definition picsFeed : list Slide.t :=
  [nativeVideo "p0.mp4"; nativeVideo "p1.mp4"; nativeVideo "p2.mp4";
   nativeVideo "p3.mp4"].

(** The user loads another feed, and its posts arrive. *)
Definition picsLoaded : World :=
  run exampleConfig warmWorld
    [LoadSubreddit "pics"; Run 0 (Posts (Some (picsFeed, None)))].

(** The user moves to the second slide of the new feed. *)
Definition picsMoved : World := step exampleConfig picsLoaded (Navigate 1).

(** ** A page that arrives late *)
Definition feedA : list Slide.t :=
  [imageSlide "a0.jpg"; imageSlide "a1.jpg"; imageSlide "a2.jpg"].

Definition pageA : list Slide.t := [imageSlide "a3.jpg"; imageSlide "a4.jpg"].

Definition feedB : list Slide.t :=
  [imageSlide "b0.jpg"; imageSlide "b1.jpg"; imageSlide "b2.jpg";
   imageSlide "b3.jpg"; imageSlide "b4.jpg"; imageSlide "b5.jpg";
   imageSlide "b6.jpg"; imageSlide "b7.jpg"].

(** A feed of three slides is loaded, and the move to its second slide
    asks for the next page; before the page arrives the user loads
    another feed, of eight slides, and moves to its last slide. *)
Definition feedSwitched : World :=
  run exampleConfig initialWorld
    ([LoadSubreddit "a"; Run 0 (Posts (Some (feedA, Some "t3")));
      Navigate 1; Run 0 Elapsed;
      LoadSubreddit "b"; Run 1 (Posts (Some (feedB, None)))]
     ++ concat (replicate 7 [Navigate 1; Run 1 Elapsed])).

(** The page of the first feed arrives. *)
Definition lateArrival : World :=
  step exampleConfig feedSwitched (Run 0 (Posts (Some (pageA, None)))).

(** * Properties *)

(** ** Reading through the setters *)

Ltac unfold_world :=
  unfold playThenPause, setState, mutate, updVideo, updSlide, schedule, issue, newVideo,
    set_store, set_videoElems, set_slideObjs, set_pending, set_requests,
    set_slideshow, set_bufferMonitorInterval, set_media, set_now in *.

Ltac simpl_world := unfold_world; cbn [store slideObjs videoElems slideshow
  bufferMonitorInterval media pending requests now
  slides currentIndex subreddit after loading firstLoad isZoomed panX panY
  isPanning autoplay autoplayInterval videoMuted preloadedImages
  preloadedVideos preloadedVideoUrls preloadingInProgress preloadingPaused
  set_slides set_currentIndex set_subreddit set_after set_loading
  set_firstLoad set_isZoomed set_panX set_panY set_isPanning set_autoplay
  set_autoplayInterval set_videoMuted set_preloadedImages set_preloadedVideos
  set_preloadedVideoUrls set_preloadingInProgress set_preloadingPaused
  fst snd] in *.

Lemma pauseAllPreloads_paused w :
  preloadingPaused (store (pauseAllPreloads w)) = true.
Proof.
  unfold pauseAllPreloads.
  destruct (preloadingPaused (store w)) eqn:E; [exact E|reflexivity].
Qed.

Lemma resumePreloads_paused w :
  preloadingPaused (store (resumePreloads w)) = false.
Proof.
  unfold resumePreloads.
  destruct (preloadingPaused (store w)) eqn:E; simpl; [|exact E].
  simpl_world.
  destruct (preloadedVideos (store w) !! (currentIndex (store w) + 1));
    reflexivity.
Qed.

Lemma Qltb_lt a b : Qltb a b = true <-> (a < b)%Q.
Proof.
  unfold Qltb. rewrite negb_true_iff. split.
  - intros H. apply Qnot_le_lt. intros Hle.
    apply Qle_bool_iff in Hle. congruence.
  - intros H. destruct (Qle_bool b a) eqn:E; [|reflexivity].
    apply Qle_bool_iff in E. exfalso. exact (Qlt_not_le _ _ H E).
Qed.

Lemma Qltb_ge a b : Qltb a b = false <-> (b <= a)%Q.
Proof.
  unfold Qltb. rewrite negb_false_iff. apply Qle_bool_iff.
Qed.

(** ** The store *)

(** C10.  [store.setState(updates)] gives every key of [updates] its new
    value and leaves every other key of the state as it was. *)
Theorem setState_frame {V : Type} (s : Store.t V) (updates : gmap string V)
  (key : string) :
  Store.get key (fst (Store.setState updates s)) =
  match updates !! key with
  | Some v => Some v
  | None => Store.get key s
  end.
Proof.
  unfold Store.get, Store.setState, Store.spread. simpl.
  rewrite lookup_union.
  destruct (updates !! key), (Store.state s !! key); reflexivity.
Qed.

(** The literal update objects of the code, and the setters that stand
    for them in the typed state: [setState] of the store on the object of
    a state gives the object of the updated state. *)
Ltac store_refines :=
  intros; apply map_eq; intros k;
  unfold Store.setState, Store.spread, storeOf; cbn [fst Store.state];
  rewrite lookup_union; unfold toObj;
  cbn [list_to_map foldr uncurry fst snd
       slides currentIndex subreddit after loading firstLoad isZoomed panX
       panY isPanning autoplay autoplayInterval videoMuted preloadedImages
       preloadedVideos preloadedVideoUrls preloadingInProgress
       preloadingPaused
       set_slides set_currentIndex set_subreddit set_after set_loading
       set_firstLoad set_isZoomed set_panX set_panY set_isPanning
       set_autoplay set_autoplayInterval set_preloadingPaused];
  rewrite !lookup_insert; repeat case_decide; subst;
  try reflexivity; try discriminate.

Lemma setState_paused_refines s ls b :
  Store.state (fst (Store.setState
    (list_to_map [("preloadingPaused", VBool b)]) (storeOf s ls)))
  = toObj (set_preloadingPaused b s).
Proof. store_refines. Qed.

Lemma setState_navigate_refines s ls newIdx :
  Store.state (fst (Store.setState
    (list_to_map [("currentIndex", VNum newIdx);
                  ("preloadingPaused", VBool false)]) (storeOf s ls)))
  = toObj (set_preloadingPaused false (set_currentIndex newIdx s)).
Proof. store_refines. Qed.

Lemma setState_resetZoom_refines s ls :
  Store.state (fst (Store.setState
    (list_to_map [("isZoomed", VBool false); ("panX", VNum 0);
                  ("panY", VNum 0); ("isPanning", VBool false)])
    (storeOf s ls)))
  = toObj (set_isPanning false (set_panY 0 (set_panX 0 (set_isZoomed false s)))).
Proof. store_refines. Qed.

Lemma setState_stopAutoplay_refines s ls :
  Store.state (fst (Store.setState
    (list_to_map [("autoplay", VBool false);
                  ("autoplayInterval", VInterval None)]) (storeOf s ls)))
  = toObj (set_autoplayInterval None (set_autoplay false s)).
Proof. store_refines. Qed.

Lemma setState_loadSubreddit_refines s ls name :
  Store.state (fst (Store.setState
    (list_to_map [("subreddit", VStr name); ("slides", VSlides []);
                  ("currentIndex", VNum 0); ("after", VNullable None);
                  ("loading", VBool true)]) (storeOf s ls)))
  = toObj (set_loading true (set_after None (set_currentIndex 0
            (set_slides [] (set_subreddit name s))))).
Proof. store_refines. Qed.

Lemma setState_posts_refines s ls new after' :
  Store.state (fst (Store.setState
    (list_to_map [("slides", VSlides new); ("after", VNullable after');
                  ("loading", VBool false)]) (storeOf s ls)))
  = toObj (set_loading false (set_after after' (set_slides new s))).
Proof. store_refines. Qed.

(** ** Admission to the element cache *)

(** The two outcomes of a call of [preloadVideoElement]. *)
Lemma preloadVideoElement_cases (CONFIG : Config) (slideData : SlideRef)
  (slideIndex : Z) (videoUrl : string) (w : World) :
  let cache := preloadedVideos (store w) in
  let w' := preloadVideoElement CONFIG slideData slideIndex videoUrl w in
  if bool_decide (is_Some (cache !! slideIndex))
     || (MAX_CACHED_VIDEOS CONFIG <=? Z.of_nat (size cache))
     || preloadingPaused (store w)
  then w' = w
  else cache !! slideIndex = None
       /\ preloadedVideos (store w') =
            <[slideIndex := CacheEntry.mk (length (videoElems w)) videoUrl (now w)]> cache
       /\ size (preloadedVideos (store w')) = S (size cache)
       /\ length (videoElems w') = S (length (videoElems w)).
Proof.
  intros cache w'. subst w'. unfold preloadVideoElement. fold cache.
  rewrite Z.geb_leb.
  case_bool_decide as Hsome; simpl; [reflexivity|].
  destruct (MAX_CACHED_VIDEOS CONFIG <=? Z.of_nat (size cache)); simpl;
    [reflexivity|].
  destruct (preloadingPaused (store w)); simpl; [reflexivity|].
  assert (Hnone : cache !! slideIndex = None).
  { destruct (cache !! slideIndex) eqn:E; [|reflexivity].
    exfalso. apply Hsome. eauto. }
  simpl_world.
  destruct (slideIndex =? currentIndex (store w) + 1); simpl_world;
    (split; [exact Hnone|]); (split; [reflexivity|]);
    (split; [apply map_size_insert_None; exact Hnone|]);
    rewrite ?length_alter, length_app; simpl; lia.
Qed.

(** C2.  [preloadVideoElement] changes nothing when the position is
    already cached, when the cache is full or when preloading is paused;
    otherwise it creates one element and adds one entry, at
    [slideIndex]. *)
Theorem preloadVideoElement_admission (CONFIG : Config) (slideData : SlideRef)
  (slideIndex : Z) (videoUrl : string) (w : World) :
  let cache := preloadedVideos (store w) in
  let w' := preloadVideoElement CONFIG slideData slideIndex videoUrl w in
  if bool_decide (is_Some (cache !! slideIndex))
     || (MAX_CACHED_VIDEOS CONFIG <=? Z.of_nat (size cache))
     || preloadingPaused (store w)
  then w' = w
  else cache !! slideIndex = None
       /\ preloadedVideos (store w') =
            <[slideIndex := CacheEntry.mk (length (videoElems w)) videoUrl (now w)]> cache
       /\ size (preloadedVideos (store w')) = S (size cache)
       /\ length (videoElems w') = S (length (videoElems w)).
Proof. exact (preloadVideoElement_cases CONFIG slideData slideIndex videoUrl w). Qed.

(** ** The buffer monitor *)

(** The flag after one run of [checkBuffer] on an active video. *)
Lemma checkBuffer_flag (CONFIG : Config) (w : World) (e : ElemId)
  (video : Video.t) :
  getActiveVideo w = Some (e, video) ->
  preloadingPaused (store (checkBuffer CONFIG w)) =
  if preloadingPaused (store w)
  then negb (Qltb (HEALTHY_BUFFER_SECONDS CONFIG) (getBufferHealth (Some video)))
  else Qltb (getBufferHealth (Some video)) (MIN_BUFFER_SECONDS CONFIG).
Proof.
  intros Hactive. unfold checkBuffer. rewrite Hactive.
  destruct (preloadingPaused (store w)) eqn:Hflag; simpl.
  - rewrite andb_false_r, andb_true_r.
    destruct (Qltb _ _); simpl.
    + apply resumePreloads_paused.
    + exact Hflag.
  - rewrite andb_true_r, andb_false_r.
    destruct (Qltb _ _); simpl.
    + apply pauseAllPreloads_paused.
    + exact Hflag.
Qed.

(** C3.  Once preloading is paused, a run of [checkBuffer] clears the
    flag exactly when the buffered-ahead duration is strictly above
    [HEALTHY_BUFFER_SECONDS]; with the duration between the two marks the
    flag keeps its value, whichever it is. *)
Theorem checkBuffer_hysteresis (CONFIG : Config) (w : World) (e : ElemId)
  (video : Video.t) :
  getActiveVideo w = Some (e, video) ->
  let bufferHealth := getBufferHealth (Some video) in
  let w' := checkBuffer CONFIG w in
  (preloadingPaused (store w) = true ->
     (preloadingPaused (store w') = false
      <-> (HEALTHY_BUFFER_SECONDS CONFIG < bufferHealth)%Q))
  /\ ((MIN_BUFFER_SECONDS CONFIG <= bufferHealth)%Q ->
      (bufferHealth <= HEALTHY_BUFFER_SECONDS CONFIG)%Q ->
      preloadingPaused (store w') = preloadingPaused (store w)).
Proof.
  intros Hactive bufferHealth w'. subst w'.
  rewrite (checkBuffer_flag CONFIG w e video Hactive). fold bufferHealth.
  split.
  - intros ->. rewrite negb_false_iff. apply Qltb_lt.
  - intros Hlow Hhigh.
    apply Qltb_ge in Hlow. apply Qltb_ge in Hhigh.
    rewrite Hlow, Hhigh. destruct (preloadingPaused (store w)); reflexivity.
Qed.

(** ** Eviction from the element cache *)

Lemma updVideo_lookup f e w e' :
  videoElems (updVideo f e w) !! e' =
  if decide (e = e') then f <$> videoElems w !! e' else videoElems w !! e'.
Proof.
  unfold updVideo. simpl_world. destruct (decide (e = e')) as [->|Hne].
  - apply list_lookup_alter_eq.
  - apply list_lookup_alter_ne. exact Hne.
Qed.

Lemma cleanupOldPreloads_foldr CONFIG currentIndex w :
  cleanupOldPreloads CONFIG currentIndex w =
  foldr (uncurry (cleanupBody CONFIG currentIndex)) w
        (map_to_list (preloadedVideos (store w))).
Proof. unfold cleanupOldPreloads. apply map_fold_foldr. Qed.

Lemma sameButCache_refl w : sameButCache w w.
Proof. unfold sameButCache. destruct w as [[] ? ? ? ? ? ? ? ?]. reflexivity. Qed.

Lemma cleanup_list CONFIG currentIndex w (l : list (Z * CacheEntry.t)) :
  let victim := fun k : Z => k < currentIndex - CLEANUP_THRESHOLD CONFIG in
  let r := foldr (uncurry (cleanupBody CONFIG currentIndex)) w l in
  sameButCache w r
  /\ (forall k, preloadedVideos (store r) !! k =
        if bool_decide (victim k /\ k ∈ l.*1) then None
        else preloadedVideos (store w) !! k)
  /\ (forall e,
        Exists (fun kv => victim kv.1 /\ CacheEntry.element kv.2 = e) l ->
        videoElems r !! e = destroy <$> videoElems w !! e)
  /\ (forall e,
        ~ Exists (fun kv => victim kv.1 /\ CacheEntry.element kv.2 = e) l ->
        videoElems r !! e = videoElems w !! e).
Proof.
  intros victim. induction l as [|[k c] l IH]; simpl.
  - split; [apply sameButCache_refl|]. split; [|split].
    + intros k. case_bool_decide as H; [|reflexivity].
      destruct H as [_ H]. inversion H.
    + intros e H. inversion H.
    + reflexivity.
  - destruct IH as (Hsame & Hcache & Hdestroyed & Hkept).
    set (r := foldr (uncurry (cleanupBody CONFIG currentIndex)) w l) in *.
    unfold cleanupBody at 1 2 3 4. fold victim.
    case_bool_decide as Hv.
    + split; [|split; [|split]].
      * unfold sameButCache in *. rewrite <- Hsame at 3. reflexivity.
      * intros k'. simpl_world. destruct (decide (k = k')) as [->|Hne].
        -- rewrite lookup_delete_eq. rewrite bool_decide_true; [reflexivity|].
           split; [exact Hv|]. simpl. apply elem_of_cons. left. reflexivity.
        -- rewrite lookup_delete_ne by exact Hne. rewrite Hcache.
           apply (f_equal (fun b : bool => if b then None
                    else preloadedVideos (store w) !! k')).
           apply bool_decide_ext. simpl. split.
           ++ intros [? ?]. split; [assumption|].
              apply elem_of_cons. right. assumption.
           ++ intros [? Hin]. split; [assumption|].
              apply elem_of_cons in Hin as [Heq|Hin]; [|exact Hin].
              exfalso. apply Hne. symmetry. exact Heq.
      * intros e He. simpl_world.
        change (alter destroy (CacheEntry.element c) (videoElems r) !! e)
          with (videoElems (updVideo destroy (CacheEntry.element c) r) !! e).
        rewrite updVideo_lookup.
        destruct (decide (CacheEntry.element c = e)) as [Heq|Hne].
        -- destruct (decide (Exists (fun kv : Z * CacheEntry.t =>
                kv.1 < currentIndex - CLEANUP_THRESHOLD CONFIG
                /\ CacheEntry.element kv.2 = e) l)) as [Hin|Hnin].
           ++ rewrite (Hdestroyed e Hin).
              destruct (videoElems w !! e); reflexivity.
           ++ rewrite (Hkept e Hnin). reflexivity.
        -- apply Hdestroyed. apply Exists_cons in He as [[_ He]|He];
             [contradiction|exact He].
      * intros e He. simpl_world.
        change (alter destroy (CacheEntry.element c) (videoElems r) !! e)
          with (videoElems (updVideo destroy (CacheEntry.element c) r) !! e).
        rewrite updVideo_lookup.
        destruct (decide (CacheEntry.element c = e)) as [Heq|Hne].
        -- exfalso. apply He. apply Exists_cons_hd. split; assumption.
        -- apply Hkept. intros H. apply He. apply Exists_cons_tl. exact H.
    + split; [exact Hsame|]. split; [|split].
      * intros k'. rewrite Hcache.
        apply (f_equal (fun b : bool => if b then None
                 else preloadedVideos (store w) !! k')).
        apply bool_decide_ext. simpl. split.
        -- intros [? ?]. split; [assumption|].
           apply elem_of_cons. right. assumption.
        -- intros [Hk' Hin]. split; [assumption|].
           apply elem_of_cons in Hin as [->|Hin]; [contradiction|exact Hin].
      * intros e He. apply Hdestroyed.
        apply Exists_cons in He as [[Hk _]|He]; [contradiction|exact He].
      * intros e He. apply Hkept. intros H. apply He.
        apply Exists_cons_tl. exact H.
Qed.

Lemma sameButCache_eq w r r' :
  sameButCache w r -> sameButCache w r' ->
  preloadedVideos (store r) = preloadedVideos (store r') ->
  videoElems r = videoElems r' ->
  r = r'.
Proof.
  unfold sameButCache. intros H H' Hc Hv. rewrite <- H' in H. clear H'.
  destruct r as [[] ? ? ? ? ? ? ? ?], r' as [[] ? ? ? ? ? ? ? ?].
  simpl_world. simpl in *. injection H as -> -> -> -> -> -> -> -> -> -> -> -> ->
    -> -> -> -> -> -> -> -> -> -> ->.
  subst. reflexivity.
Qed.

(** The result of the loop does not depend on the order in which the
    entries are visited. *)
Lemma cleanupOldPreloads_any_order CONFIG cur w (l : list (Z * CacheEntry.t)) :
  l ≡ₚ map_to_list (preloadedVideos (store w)) ->
  foldr (uncurry (cleanupBody CONFIG cur)) w l = cleanupOldPreloads CONFIG cur w.
Proof.
  intros Hperm. rewrite cleanupOldPreloads_foldr.
  destruct (cleanup_list CONFIG cur w l) as (Hs & Hc & Hd & Hk).
  destruct (cleanup_list CONFIG cur w (map_to_list (preloadedVideos (store w))))
    as (Hs' & Hc' & Hd' & Hk').
  assert (Hex : forall e,
    Exists (fun kv : Z * CacheEntry.t =>
              kv.1 < cur - CLEANUP_THRESHOLD CONFIG
              /\ CacheEntry.element kv.2 = e) l
    <-> Exists (fun kv : Z * CacheEntry.t =>
              kv.1 < cur - CLEANUP_THRESHOLD CONFIG
              /\ CacheEntry.element kv.2 = e)
           (map_to_list (preloadedVideos (store w)))).
  { intros e. rewrite !Exists_exists.
    split; intros (kv & Hin & HP); exists kv; (split; [|exact HP]).
    - rewrite <- Hperm. exact Hin.
    - rewrite Hperm. exact Hin. }
  apply (sameButCache_eq w); try assumption.
  - apply map_eq. intros k. rewrite Hc, Hc'.
    apply (f_equal (fun b : bool => if b then None
             else preloadedVideos (store w) !! k)).
    apply bool_decide_ext. rewrite Hperm. reflexivity.
  - apply list_eq. intros e.
    destruct (decide (Exists (fun kv : Z * CacheEntry.t =>
                kv.1 < cur - CLEANUP_THRESHOLD CONFIG
                /\ CacheEntry.element kv.2 = e) l)) as [H|H].
    + rewrite (Hd e H). symmetry. apply Hd'. apply Hex. exact H.
    + rewrite (Hk e H). symmetry. apply Hk'. intros H'. apply H, Hex, H'.
Qed.

(** The cache after [cleanupOldPreloads]. *)
Lemma cleanupOldPreloads_lookup CONFIG cur w k :
  preloadedVideos (store (cleanupOldPreloads CONFIG cur w)) !! k =
  if bool_decide (k < cur - CLEANUP_THRESHOLD CONFIG) then None
  else preloadedVideos (store w) !! k.
Proof.
  rewrite cleanupOldPreloads_foldr.
  destruct (cleanup_list CONFIG cur w (map_to_list (preloadedVideos (store w))))
    as (_ & Hcache & _).
  rewrite Hcache.
  case_bool_decide as H1; case_bool_decide as H2; try reflexivity.
  - exfalso. apply H2. apply H1.
  - destruct (preloadedVideos (store w) !! k) as [c|] eqn:E; [|reflexivity].
    exfalso. apply H1. split; [exact H2|].
    apply list_elem_of_fmap. exists (k, c). split; [reflexivity|].
    apply elem_of_map_to_list. exact E.
Qed.

Lemma cleanupOldPreloads_filter CONFIG cur w :
  preloadedVideos (store (cleanupOldPreloads CONFIG cur w)) =
  filter (fun kv => ~ (kv.1 < cur - CLEANUP_THRESHOLD CONFIG))
         (preloadedVideos (store w)).
Proof.
  apply map_eq. intros k. rewrite cleanupOldPreloads_lookup, map_lookup_filter.
  case_bool_decide as Hk; destruct (preloadedVideos (store w) !! k) as [c|];
    simpl; try reflexivity.
  - rewrite option_guard_False; [reflexivity|]. simpl. intros H. apply H, Hk.
  - rewrite option_guard_True; [reflexivity|]. exact Hk.
Qed.

(** C4.  [cleanupOldPreloads(currentIndex)] removes exactly the entries
    at positions below [currentIndex - CLEANUP_THRESHOLD]; the element of
    every removed entry is destroyed, that is, its [src] is the empty
    string and it is detached from the document, its other properties
    being kept; no other element changes; and, the threshold being a
    distance, every entry at or ahead of [currentIndex] is kept. *)
Theorem cleanupOldPreloads_exact (CONFIG : Config) (currentIndex : Z)
  (w : World) :
  let threshold := CLEANUP_THRESHOLD CONFIG in
  let cache := preloadedVideos (store w) in
  let w' := cleanupOldPreloads CONFIG currentIndex w in
  preloadedVideos (store w') =
    filter (fun kv => ~ (kv.1 < currentIndex - threshold)) cache
  /\ (forall p c v, cache !! p = Some c -> p < currentIndex - threshold ->
        videoElems w !! CacheEntry.element c = Some v ->
        preloadedVideos (store w') !! p = None
        /\ exists v',
             videoElems w' !! CacheEntry.element c = Some v'
             /\ Video.src v' = ""
             /\ Video.parent v' = Video.Detached
             /\ v' = Video.set_parent Video.Detached (Video.set_src "" v))
  /\ (forall e,
        (forall p c, cache !! p = Some c -> p < currentIndex - threshold ->
                     CacheEntry.element c <> e) ->
        videoElems w' !! e = videoElems w !! e)
  /\ (0 <= threshold -> forall p, currentIndex <= p ->
        preloadedVideos (store w') !! p = cache !! p).
Proof.
  intros threshold cache w'. subst w' threshold cache.
  split; [apply cleanupOldPreloads_filter|].
  destruct (cleanup_list CONFIG currentIndex w
              (map_to_list (preloadedVideos (store w))))
    as (_ & _ & Hdestroyed & Hkept).
  rewrite <- cleanupOldPreloads_foldr in Hdestroyed, Hkept.
  split; [|split].
  - intros p c v Hp Hbehind Hv. split.
    + rewrite cleanupOldPreloads_lookup.
      rewrite bool_decide_true by exact Hbehind. reflexivity.
    + exists (Video.set_parent Video.Detached (Video.set_src "" v)).
      split; [|repeat split].
      rewrite (Hdestroyed (CacheEntry.element c)), Hv; [reflexivity|].
      apply Exists_exists. exists (p, c). split.
      * apply elem_of_map_to_list. exact Hp.
      * split; [exact Hbehind|reflexivity].
  - intros e He. apply Hkept. intros H.
    apply Exists_exists in H as ([p c] & Hin & Hv & Heq).
    apply elem_of_map_to_list in Hin. exact (He p c Hin Hv Heq).
  - intros Hthr p Hp. rewrite cleanupOldPreloads_lookup.
    rewrite bool_decide_false; [reflexivity|]. lia.
Qed.

(** ** Pausing and resuming the preloads *)

Lemma pause_paused v : Video.paused v = true -> Video.pause v = v.
Proof. destruct v. simpl. intros ->. reflexivity. Qed.

Lemma pauseIfPlaying_lookup e w e' :
  videoElems (pauseIfPlaying e w) !! e' =
  if decide (e = e') then Video.pause <$> videoElems w !! e'
  else videoElems w !! e'.
Proof.
  unfold pauseIfPlaying. destruct (videoElems w !! e) as [v|] eqn:E.
  - destruct (Video.paused v) eqn:Hp; simpl.
    + destruct (decide (e = e')) as [<-|]; [|reflexivity].
      rewrite E. simpl. rewrite pause_paused by exact Hp. reflexivity.
    + apply updVideo_lookup.
  - destruct (decide (e = e')) as [<-|]; [|reflexivity].
    rewrite E. reflexivity.
Qed.

Lemma pauseIfPlaying_rest e w :
  set_videoElems (videoElems w) (pauseIfPlaying e w) = w.
Proof.
  unfold pauseIfPlaying. destruct (videoElems w !! e) as [v|].
  - destruct (negb (Video.paused v)); destruct w; reflexivity.
  - destruct w; reflexivity.
Qed.

Lemma pause_list w (l : list (Z * CacheEntry.t)) :
  let r := foldr (uncurry (fun (slideIndex : Z) cached acc =>
                     pauseIfPlaying (CacheEntry.element cached) acc)) w l in
  set_videoElems (videoElems w) r = w
  /\ (forall e, e ∈ (fun kv => CacheEntry.element kv.2) <$> l ->
        videoElems r !! e = Video.pause <$> videoElems w !! e)
  /\ (forall e, e ∉ (fun kv => CacheEntry.element kv.2) <$> l ->
        videoElems r !! e = videoElems w !! e).
Proof.
  induction l as [|[k c] l IH]; simpl.
  - split; [destruct w; reflexivity|]. split.
    + intros e H. inversion H.
    + reflexivity.
  - destruct IH as (Hrest & Hin & Hout).
    set (r := foldr _ w l) in *.
    split; [|split].
    + transitivity (set_videoElems (videoElems w)
                      (set_videoElems (videoElems r)
                         (pauseIfPlaying (CacheEntry.element c) r)));
        [reflexivity|].
      rewrite pauseIfPlaying_rest. exact Hrest.
    + intros e He. rewrite pauseIfPlaying_lookup.
      destruct (decide (CacheEntry.element c = e)) as [Heq|Hne].
      * destruct (decide (e ∈ (fun kv : Z * CacheEntry.t =>
                                 CacheEntry.element kv.2) <$> l)) as [H|H].
        -- rewrite (Hin e H). destruct (videoElems w !! e); reflexivity.
        -- rewrite (Hout e H). reflexivity.
      * apply Hin. apply elem_of_cons in He as [He|He]; [|exact He].
        exfalso. apply Hne. symmetry. exact He.
    + intros e He. rewrite pauseIfPlaying_lookup.
      destruct (decide (CacheEntry.element c = e)) as [Heq|Hne].
      * exfalso. apply He. apply elem_of_cons. left. symmetry. exact Heq.
      * apply Hout. intros H. apply He. apply elem_of_cons. right. exact H.
Qed.

Lemma pauseAllPreloads_any_order w (l : list (Z * CacheEntry.t)) :
  preloadingPaused (store w) = false ->
  l ≡ₚ map_to_list (preloadedVideos (store w)) ->
  setState (set_preloadingPaused true)
    (foldr (uncurry (fun (slideIndex : Z) cached acc =>
                       pauseIfPlaying (CacheEntry.element cached) acc)) w l)
  = pauseAllPreloads w.
Proof.
  intros Hflag Hperm. unfold pauseAllPreloads. rewrite Hflag, map_fold_foldr.
  f_equal.
  destruct (pause_list w l) as (Hr & Hin & Hout).
  destruct (pause_list w (map_to_list (preloadedVideos (store w))))
    as (Hr' & Hin' & Hout').
  set (r := foldr _ w l) in *.
  set (r' := foldr _ w (map_to_list _)) in *.
  assert (Hv : videoElems r = videoElems r').
  { apply list_eq. intros e.
    destruct (decide (e ∈ (fun kv : Z * CacheEntry.t =>
                             CacheEntry.element kv.2) <$> l)) as [H|H].
    - rewrite (Hin e H). symmetry. apply Hin'. rewrite <- Hperm. exact H.
    - rewrite (Hout e H). symmetry. apply Hout'. rewrite <- Hperm. exact H. }
  rewrite <- Hr' in Hr. clearbody r r'.
  destruct r, r'. simpl in *. unfold set_videoElems in Hr. simpl in Hr.
  injection Hr as -> -> -> -> -> -> -> ->. subst. reflexivity.
Qed.

(** The two transitions of the monitor are the two calls. *)
Lemma checkBuffer_transitions (CONFIG : Config) (w : World) (e : ElemId)
  (video : Video.t) :
  getActiveVideo w = Some (e, video) ->
  checkBuffer CONFIG w =
  if preloadingPaused (store w)
  then if Qltb (HEALTHY_BUFFER_SECONDS CONFIG) (getBufferHealth (Some video))
       then resumePreloads w else w
  else if Qltb (getBufferHealth (Some video)) (MIN_BUFFER_SECONDS CONFIG)
       then pauseAllPreloads w else w.
Proof.
  intros Hactive. unfold checkBuffer. rewrite Hactive.
  destruct (preloadingPaused (store w)); simpl;
    rewrite ?andb_false_r, ?andb_true_r; reflexivity.
Qed.

(** C8.  Pausing the preloads, from the running state, pauses every
    element of the cache and touches no other element; resuming them,
    from the paused state, starts only the element cached for
    [currentIndex + 1], if there is one, and registers its pause for the
    time the start succeeds. *)
Theorem pause_all_resume_next (CONFIG : Config) (w : World) :
  let cache := preloadedVideos (store w) in
  (preloadingPaused (store w) = false ->
   let w' := pauseAllPreloads w in
   preloadingPaused (store w') = true
   /\ preloadedVideos (store w') = cache
   /\ pending w' = pending w
   /\ (forall p c, cache !! p = Some c ->
         videoElems w' !! CacheEntry.element c =
         Video.pause <$> videoElems w !! CacheEntry.element c)
   /\ (forall e, (forall p c, cache !! p = Some c -> CacheEntry.element c <> e) ->
         videoElems w' !! e = videoElems w !! e))
  /\ (preloadingPaused (store w) = true ->
      let w' := resumePreloads w in
      preloadingPaused (store w') = false
      /\ preloadedVideos (store w') = cache
      /\ match cache !! (currentIndex (store w) + 1) with
         | Some next =>
             videoElems w' = alter Video.play (CacheEntry.element next) (videoElems w)
             /\ pending w' = pending w ++ [PlayThenPause (CacheEntry.element next)]
         | None => videoElems w' = videoElems w /\ pending w' = pending w
         end)
  /\ (forall e w0,
        runTask CONFIG (PlayThenPause e) (Played true) w0 =
          Some (updVideo Video.pause e w0)
        /\ runTask CONFIG (PlayThenPause e) (Played false) w0 = Some w0).
Proof.
  intros cache. split; [|split].
  - intros Hflag w'. subst w'. unfold pauseAllPreloads. rewrite Hflag.
    rewrite map_fold_foldr. fold cache.
    destruct (pause_list w (map_to_list cache)) as (Hrest & Hin & Hout).
    set (r := foldr _ w (map_to_list cache)) in *.
    assert (Hstore : store r = store w)
      by exact (f_equal store Hrest).
    assert (Hpending : pending r = pending w)
      by exact (f_equal pending Hrest).
    simpl_world. rewrite Hstore.
    split; [reflexivity|]. split; [reflexivity|]. split; [exact Hpending|].
    split.
    + intros p c Hp. apply Hin. apply list_elem_of_fmap.
      exists (p, c). split; [reflexivity|]. apply elem_of_map_to_list. exact Hp.
    + intros e He. apply Hout. intros H.
      apply list_elem_of_fmap in H as ([p c] & Heq & Hin').
      apply elem_of_map_to_list in Hin'. exact (He p c Hin' (eq_sym Heq)).
  - intros Hflag w'. subst w'. unfold resumePreloads. rewrite Hflag. simpl.
    simpl_world. fold cache.
    destruct (cache !! (currentIndex (store w) + 1)) as [next|]; simpl_world;
      repeat split; reflexivity.
  - intros e w0. split; reflexivity.
Qed.

(** ** What the synchronous code leaves alone *)

Lemma quiet_refl w : quiet w w.
Proof. repeat split; reflexivity. Qed.

Lemma quiet_trans w0 w1 w2 : quiet w0 w1 -> quiet w1 w2 -> quiet w0 w2.
Proof.
  intros (Hc1 & Hs1 & Hi1) (Hc2 & Hs2 & Hi2). repeat split.
  - etransitivity; eassumption.
  - congruence.
  - congruence.
Qed.

Lemma quiet_next w0 w w' :
  preloadedVideos (store w') ⊆ preloadedVideos (store w) ->
  slides (store w') = slides (store w) ->
  currentIndex (store w') = currentIndex (store w) ->
  quiet w0 w -> quiet w0 w'.
Proof.
  intros Hc Hs Hi H. apply (quiet_trans w0 w w'); [exact H|].
  repeat split; assumption.
Qed.

Ltac quiet_simple :=
  intros; eapply quiet_next; [| | |eassumption]; simpl_world;
  try reflexivity; try apply delete_subseteq.

Lemma quiet_updVideo w0 f e w : quiet w0 w -> quiet w0 (updVideo f e w).
Proof. quiet_simple. Qed.

Lemma quiet_updSlide w0 f r w : quiet w0 w -> quiet w0 (updSlide f r w).
Proof. quiet_simple. Qed.

Lemma quiet_schedule w0 t w : quiet w0 w -> quiet w0 (schedule t w).
Proof. quiet_simple. Qed.

Lemma quiet_issue w0 r w : quiet w0 w -> quiet w0 (issue r w).
Proof. quiet_simple. Qed.

Lemma quiet_set_slideshow w0 x w : quiet w0 w -> quiet w0 (set_slideshow x w).
Proof. quiet_simple. Qed.

Lemma quiet_set_monitor w0 x w :
  quiet w0 w -> quiet w0 (set_bufferMonitorInterval x w).
Proof. quiet_simple. Qed.

Lemma quiet_set_media w0 x w : quiet w0 w -> quiet w0 (set_media x w).
Proof. quiet_simple. Qed.

Lemma quiet_set_now w0 x w : quiet w0 w -> quiet w0 (set_now x w).
Proof. quiet_simple. Qed.

Lemma quiet_set_videoElems w0 x w : quiet w0 w -> quiet w0 (set_videoElems x w).
Proof. quiet_simple. Qed.

Lemma quiet_set_pending w0 x w : quiet w0 w -> quiet w0 (set_pending x w).
Proof. quiet_simple. Qed.

Lemma quiet_set_paused w0 b w :
  quiet w0 w -> quiet w0 (setState (set_preloadingPaused b) w).
Proof. quiet_simple. Qed.

Lemma quiet_set_inProgress w0 x w :
  quiet w0 w -> quiet w0 (mutate (set_preloadingInProgress x) w).
Proof. quiet_simple. Qed.

Lemma quiet_set_urls w0 x w :
  quiet w0 w -> quiet w0 (mutate (set_preloadedVideoUrls x) w).
Proof. quiet_simple. Qed.

Lemma quiet_set_images w0 x w :
  quiet w0 w -> quiet w0 (mutate (set_preloadedImages x) w).
Proof. quiet_simple. Qed.

Lemma quiet_set_loading w0 x w :
  quiet w0 w -> quiet w0 (setState (set_loading x) w).
Proof. quiet_simple. Qed.

Lemma quiet_set_firstLoad w0 x w :
  quiet w0 w -> quiet w0 (setState (set_firstLoad x) w).
Proof. quiet_simple. Qed.

Lemma quiet_delete w0 k w :
  quiet w0 w ->
  quiet w0 (mutate (set_preloadedVideos (delete k (preloadedVideos (store w)))) w).
Proof. quiet_simple. Qed.

Lemma quiet_resetZoom w0 w : quiet w0 w -> quiet w0 (resetZoom w).
Proof. unfold resetZoom. quiet_simple. Qed.

Lemma quiet_stopAutoplay w0 w : quiet w0 w -> quiet w0 (stopAutoplay w).
Proof. unfold stopAutoplay. quiet_simple. Qed.

Lemma quiet_stopBufferMonitoring w0 w :
  quiet w0 w -> quiet w0 (stopBufferMonitoring w).
Proof.
  unfold stopBufferMonitoring. destruct (bufferMonitorInterval w);
    [apply quiet_set_monitor|trivial].
Qed.

Lemma quiet_loadMorePosts w0 w : quiet w0 w -> quiet w0 (loadMorePosts w).
Proof. unfold loadMorePosts. quiet_simple. Qed.

Create HintDb quiet.
#[local] Hint Resolve quiet_refl quiet_updVideo quiet_updSlide quiet_schedule
  quiet_issue quiet_set_slideshow quiet_set_monitor quiet_set_media
  quiet_set_now quiet_set_videoElems quiet_set_pending quiet_set_paused
  quiet_set_inProgress
  quiet_set_urls quiet_set_images quiet_set_loading quiet_set_firstLoad
  quiet_delete quiet_resetZoom quiet_stopAutoplay quiet_stopBufferMonitoring
  quiet_loadMorePosts : quiet.

Lemma quiet_pauseAllPreloads w0 w : quiet w0 w -> quiet w0 (pauseAllPreloads w).
Proof.
  intros H. unfold pauseAllPreloads.
  destruct (preloadingPaused (store w)); [exact H|].
  apply quiet_set_paused. rewrite map_fold_foldr.
  destruct (pause_list w (map_to_list (preloadedVideos (store w))))
    as (Hrest & _ & _).
  set (r := foldr _ w _) in *.
  pose proof (f_equal store Hrest) as Hstore. simpl in Hstore.
  eapply quiet_next; [| | |exact H]; rewrite Hstore; reflexivity.
Qed.

Lemma quiet_resumePreloads w0 w : quiet w0 w -> quiet w0 (resumePreloads w).
Proof.
  intros H. unfold resumePreloads.
  destruct (negb (preloadingPaused (store w))); [exact H|].
  destruct (preloadedVideos _ !! _); unfold playThenPause; auto with quiet.
Qed.

Lemma quiet_checkBuffer CONFIG w0 w :
  quiet w0 w -> quiet w0 (checkBuffer CONFIG w).
Proof.
  intros H. unfold checkBuffer. destruct (getActiveVideo w) as [[e v]|];
    [|exact H].
  destruct (_ && _); [apply quiet_pauseAllPreloads; exact H|].
  destruct (_ && _); [apply quiet_resumePreloads; exact H|exact H].
Qed.

Lemma quiet_startBufferMonitoring CONFIG w0 w :
  quiet w0 w -> quiet w0 (startBufferMonitoring CONFIG w).
Proof.
  intros H. unfold startBufferMonitoring.
  apply quiet_set_monitor, quiet_checkBuffer, quiet_stopBufferMonitoring, H.
Qed.

Lemma quiet_onPreloadError w0 e w : quiet w0 w -> quiet w0 (onPreloadError e w).
Proof.
  intros H. unfold onPreloadError. destruct (videoElems w !! e) as [v|]; [|exact H].
  destruct (Video.errorListener v); auto with quiet.
Qed.

Lemma quiet_getPreloadedVideo w0 k w :
  quiet w0 w -> quiet w0 (snd (getPreloadedVideo k w)).
Proof.
  intros H. unfold getPreloadedVideo.
  destruct (preloadedVideos (store w) !! k); simpl; auto with quiet.
Qed.

Lemma quiet_cleanupOldPreloads CONFIG cur w0 w :
  quiet w0 w -> quiet w0 (cleanupOldPreloads CONFIG cur w).
Proof.
  intros H.
  pose proof (cleanup_list CONFIG cur w
                (map_to_list (preloadedVideos (store w)))) as (Hsame & _).
  rewrite <- cleanupOldPreloads_foldr in Hsame.
  unfold sameButCache in Hsame.
  eapply quiet_next; [| | |exact H].
  - rewrite cleanupOldPreloads_filter. apply map_filter_subseteq.
  - exact (f_equal (fun x => slides (store x)) Hsame).
  - exact (f_equal (fun x => currentIndex (store x)) Hsame).
Qed.

Lemma quiet_fetchExternalVideoUrl CONFIG w0 id w :
  quiet w0 w -> quiet w0 (snd (fetchExternalVideoUrl CONFIG id w)).
Proof.
  intros H. unfold fetchExternalVideoUrl.
  destruct (cachedToken w); simpl; auto with quiet.
Qed.

#[local] Hint Resolve quiet_pauseAllPreloads quiet_resumePreloads
  quiet_checkBuffer quiet_startBufferMonitoring quiet_onPreloadError
  quiet_getPreloadedVideo quiet_cleanupOldPreloads
  quiet_fetchExternalVideoUrl : quiet.

Lemma quiet_createSlideElement CONFIG w0 data position slideIndex w :
  quiet w0 w ->
  quiet w0 (snd (createSlideElement CONFIG data position slideIndex w)).
Proof.
  intros H. unfold createSlideElement.
  destruct (slideObjs w !! data) as [d|]; [|exact H].
  destruct (String.eqb (Slide.type d) "video"); [|exact H].
  pose proof (quiet_getPreloadedVideo w0 slideIndex w H) as H1.
  destruct (getPreloadedVideo slideIndex w) as [[e|] w1]; simpl in H1.
  - destruct (isActive position); simpl; auto with quiet.
  - unfold newVideo. cbv zeta.
    set (e := length (videoElems w1)).
    set (w2 := set_videoElems _ w1).
    assert (H2 : quiet w0 w2) by (subst w2; auto with quiet).
    clearbody w2.
    match goal with
    | |- context [match ?x with Some id => _ | None => updVideo _ e w2 end] =>
        set (external := x)
    end.
    set (w3 := match external with Some _ => _ | None => _ end).
    assert (H3 : quiet w0 w3).
    { subst w3. destruct external as [id|]; [|auto with quiet].
      destruct (getPreloadedVideoUrl id w2); [auto with quiet|].
      set (w'' := updVideo _ e _).
      assert (H'' : quiet w0 w'') by (subst w''; auto with quiet).
      pose proof (quiet_fetchExternalVideoUrl CONFIG w0 id w'' H'') as Hf.
      destruct (fetchExternalVideoUrl CONFIG id w'') as [stage w''']; simpl in Hf.
      auto with quiet. }
    clearbody w3. simpl.
    destruct (isActive position && _); simpl; auto with quiet.
Qed.

Lemma quiet_renderOffsets CONFIG slides0 cur offsets w0 w :
  quiet w0 w -> quiet w0 (renderOffsets CONFIG slides0 cur offsets w).
Proof.
  revert w. induction offsets as [|[offset position] rest IH]; intros w H;
    simpl; [exact H|].
  destruct ((cur + offset <? 0) || (cur + offset >=? len slides0));
    [apply IH; exact H|].
  destruct (slides0 !! Z.to_nat (cur + offset)) as [data|]; [|exact H].
  pose proof (quiet_createSlideElement CONFIG w0 data position
                (cur + offset) w H) as H1.
  destruct (createSlideElement CONFIG data position (cur + offset) w)
    as [slide w1]; simpl in H1.
  apply IH. destruct slide, (slideshow w1); auto with quiet.
Qed.

Lemma quiet_updateSlides CONFIG w0 w :
  quiet w0 w -> quiet w0 (updateSlides CONFIG w).
Proof.
  intros H. unfold updateSlides. destruct (slideshow w); [|exact H].
  apply quiet_renderOffsets. auto with quiet.
Qed.

Lemma quiet_preloadImages_loop CONFIG slides0 cur n i w0 w :
  quiet w0 w -> quiet w0 (preloadImages_loop CONFIG slides0 cur n i w).
Proof.
  revert i w. induction n as [|n IH]; intros i w H; simpl; [exact H|].
  destruct (cur + i >=? len slides0); [exact H|].
  destruct (slideAt w slides0 (cur + i)) as [[r data]|]; [|exact H].
  apply IH. destruct (_ && _); auto with quiet.
Qed.

Lemma quiet_preloadExternalVideoUrls_loop CONFIG slides0 start n i w0 w :
  quiet w0 w ->
  quiet w0 (preloadExternalVideoUrls_loop CONFIG slides0 start n i w).
Proof.
  revert i w. induction n as [|n IH]; intros i w H; simpl; [exact H|].
  destruct (start + i >=? len slides0); [exact H|].
  destruct (slideAt w slides0 (start + i)) as [[r slide]|]; [|exact H].
  destruct (Slide.externalVideoId slide) as [videoId|]; [|apply IH; exact H].
  destruct (_ || _); [apply IH; exact H|].
  destruct (_ || _); [apply IH; exact H|].
  set (w1 := mutate _ w).
  assert (H1 : quiet w0 w1) by (subst w1; auto with quiet).
  pose proof (quiet_fetchExternalVideoUrl CONFIG w0 videoId w1 H1) as Hf.
  destruct (fetchExternalVideoUrl CONFIG videoId w1) as [stage w2]; simpl in Hf.
  apply IH. auto with quiet.
Qed.

Lemma quiet_preloadExternalVideoUrls CONFIG slides0 start count w0 w :
  quiet w0 w ->
  quiet w0 (preloadExternalVideoUrls CONFIG slides0 start count w).
Proof. apply quiet_preloadExternalVideoUrls_loop. Qed.

Lemma quiet_preloadUpcomingMedia CONFIG w0 w :
  quiet w0 w -> quiet w0 (preloadUpcomingMedia CONFIG w).
Proof.
  intros H. unfold preloadUpcomingMedia.
  apply quiet_schedule, quiet_preloadExternalVideoUrls,
    quiet_preloadImages_loop, H.
Qed.

#[local] Hint Resolve quiet_createSlideElement quiet_renderOffsets
  quiet_updateSlides quiet_preloadImages_loop
  quiet_preloadExternalVideoUrls quiet_preloadUpcomingMedia : quiet.

Lemma quiet_resumeFetch CONFIG w0 id stage r w result w1 :
  resumeFetch CONFIG id stage r w = Some (result, w1) ->
  quiet w0 w -> quiet w0 w1.
Proof.
  intros Hres H. unfold resumeFetch, withToken, tokenFromResponse in Hres.
  destruct stage as [|tok|], r as [r|]; try discriminate.
  - destruct (readJson CONFIG r) as [data|]; simpl in Hres.
    + destruct (otruthy (token data)); simpl in Hres.
      * destruct (token data) as [t|]; simpl in Hres.
        -- destruct (truthy t); injection Hres as _ <-; auto with quiet.
        -- injection Hres as _ <-; auto with quiet.
      * injection Hres as _ <-. exact H.
    + injection Hres as _ <-. exact H.
  - destruct (truthy tok); injection Hres as _ <-; auto with quiet.
  - injection Hres as _ <-. exact H.
Qed.

Lemma quiet_onResolved w0 id resolver url w :
  quiet w0 w -> quiet w0 (onResolved id resolver url w).
Proof.
  intros H. destruct resolver as [|data video position]; simpl.
  - unfold onPreloaderResolved. apply quiet_set_inProgress.
    destruct url as [u|]; [|exact H]. destruct (truthy u); auto with quiet.
  - unfold onRendererResolved. destruct url as [u|]; [|auto with quiet].
    destruct (truthy u); [|auto with quiet].
    destruct (isActive position); auto 10 with quiet.
Qed.

Lemma resumeResolution_quiet CONFIG id stage resolver r w w' :
  resumeResolution CONFIG id stage resolver r w = Some w' -> quiet w w'.
Proof.
  intros Hrun. unfold resumeResolution in Hrun.
  destruct (resumeFetch CONFIG id stage r w) as [[[stage'|url] w1]|] eqn:E;
    try discriminate; injection Hrun as <-;
    pose proof (quiet_resumeFetch CONFIG w id stage r w _ w1 E (quiet_refl w))
      as Hq.
  - auto with quiet.
  - apply quiet_onResolved. exact Hq.
Qed.

(** ** Navigation *)

(** The part of [navigate] after the bounds check. *)
Lemma navigate_moves (CONFIG : Config) (direction : Z) (w : World) :
  let newIdx := currentIndex (store w) + direction in
  (newIdx <? 0) || (newIdx >=? len (slides (store w))) = false ->
  let w' := navigate CONFIG direction w in
  preloadedVideos (store w') ⊆ preloadedVideos (store w)
  /\ slides (store w') = slides (store w)
  /\ currentIndex (store w') = newIdx.
Proof.
  intros newIdx Hin w'. subst w'. unfold navigate. fold newIdx. rewrite Hin.
  set (w3 := match getActiveVideo _ with Some _ => _ | None => _ end).
  assert (H3 : quiet w w3).
  { subst w3. destruct (getActiveVideo _) as [[video v]|]; auto with quiet. }
  set (w4 := setState _ w3).
  assert (H4 : preloadedVideos (store w4) ⊆ preloadedVideos (store w)
               /\ slides (store w4) = slides (store w)
               /\ currentIndex (store w4) = newIdx).
  { destruct H3 as (Hc & Hs & _). subst w4. simpl_world. auto. }
  clearbody w4. clear H3 w3.
  set (w6 := match slideAt _ _ _ with Some _ => _ | None => _ end).
  assert (H6 : quiet w4 w6).
  { subst w6. destruct (slideAt _ _ _) as [[r newSlide]|]; [|auto with quiet].
    destruct (String.eqb _ _); auto with quiet. }
  set (w8 := cleanupOldPreloads CONFIG newIdx (preloadUpcomingMedia CONFIG w6)).
  assert (H8 : quiet w4 w8) by (subst w8; auto with quiet).
  assert (H9 : quiet w4 (if shouldPreloadPosts CONFIG w8
                         then loadMorePosts w8 else w8)).
  { destruct (shouldPreloadPosts CONFIG w8); auto with quiet. }
  destruct H9 as (Hc & Hs & Hi). destruct H4 as (Hc4 & Hs4 & Hi4).
  split; [etransitivity; eassumption|]. split; congruence.
Qed.

Lemma navigate_shrinks CONFIG direction w :
  preloadedVideos (store (navigate CONFIG direction w))
    ⊆ preloadedVideos (store w).
Proof.
  destruct ((currentIndex (store w) + direction <? 0)
            || (currentIndex (store w) + direction >=? len (slides (store w))))
    eqn:E.
  - unfold navigate. rewrite E. reflexivity.
  - apply (navigate_moves CONFIG direction w E).
Qed.

(** The position and the slides after [navigate]. *)
Lemma navigate_one CONFIG d w :
  currentIndex (store (navigate CONFIG d w)) =
    (if (currentIndex (store w) + d <? 0)
        || (currentIndex (store w) + d >=? len (slides (store w)))
     then currentIndex (store w) else currentIndex (store w) + d)
  /\ slides (store (navigate CONFIG d w)) = slides (store w).
Proof.
  destruct ((currentIndex (store w) + d <? 0)
            || (currentIndex (store w) + d >=? len (slides (store w))))
    eqn:E.
  - unfold navigate. rewrite E. split; reflexivity.
  - destruct (navigate_moves CONFIG d w E) as (_ & Hs & Hi).
    split; assumption.
Qed.

Lemma navigate_validPosition CONFIG d w :
  validPosition w -> validPosition (navigate CONFIG d w).
Proof.
  intros Hvalid. destruct (navigate_one CONFIG d w) as [Hi Hs].
  unfold validPosition in *. rewrite Hs, Hi.
  destruct Hvalid as [Hempty|Hrange]; [left; exact Hempty|right].
  destruct ((currentIndex (store w) + d <? 0)
            || (currentIndex (store w) + d >=? len (slides (store w))))
    eqn:E; [exact Hrange|].
  apply orb_false_iff in E as [E1 E2].
  apply Z.ltb_ge in E1. rewrite Z.geb_leb in E2. apply Z.leb_gt in E2. lia.
Qed.

(** The calls that fill the cache keep the slides and the position. *)
Lemma preloadVideoElement_feed CONFIG slideData slideIndex videoUrl w0 w :
  sameFeed w0 w ->
  sameFeed w0 (preloadVideoElement CONFIG slideData slideIndex videoUrl w).
Proof.
  intros H. unfold preloadVideoElement.
  destruct (bool_decide _); [exact H|].
  destruct (_ >=? _); [exact H|].
  destruct (preloadingPaused (store w)); [exact H|].
  unfold newVideo. cbv zeta.
  destruct (slideIndex =? _); exact H.
Qed.

Lemma preloadUpcomingVideos_loop_feed CONFIG slides0 cur n i w0 w :
  sameFeed w0 w ->
  sameFeed w0 (preloadUpcomingVideos_loop CONFIG slides0 cur n i w).
Proof.
  revert i w. induction n as [|n IH]; intros i w H; simpl; [exact H|].
  destruct (cur + i >=? len slides0); [exact H|].
  destruct (slideAt w slides0 (cur + i)) as [[r slide]|]; [|exact H].
  destruct (negb _); [apply IH; exact H|].
  repeat case_match; apply IH; try apply preloadVideoElement_feed; exact H.
Qed.

Lemma preloadUpcomingVideos_feed CONFIG slides0 cur w :
  sameFeed w (preloadUpcomingVideos CONFIG slides0 cur w).
Proof. apply preloadUpcomingVideos_loop_feed. split; reflexivity. Qed.

Lemma validPosition_same w w' :
  slides (store w') = slides (store w) ->
  currentIndex (store w') = currentIndex (store w) ->
  validPosition w -> validPosition w'.
Proof. unfold validPosition. intros -> ->. trivial. Qed.

Lemma validPosition_quiet w w' :
  quiet w w' -> validPosition w -> validPosition w'.
Proof. intros (_ & Hs & Hi). apply validPosition_same; assumption. Qed.

(** Every event but the arrival of a page of posts, which rewrites the
    slide sequence, keeps the position on the slides. *)
Lemma step_validPosition CONFIG w ev :
  notPosts ev -> validPosition w -> validPosition (step CONFIG w ev).
Proof.
  intros Hev H. destruct ev as [direction|name|i o| |e|e ct b|t]; simpl.
  - apply navigate_validPosition. exact H.
  - left. reflexivity.
  - destruct (pending w !! i) as [task|]; [|exact H].
    destruct (runTask CONFIG task o _) as [w'|] eqn:E; [|exact H].
    destruct task as [|slides0 cur|video|id stage resolver|captured|],
             o as [| |fulfilled|r|r];
      simpl in E, Hev; try discriminate; try contradiction.
    + injection E as <-. eapply validPosition_quiet; [|exact H].
      auto with quiet.
    + injection E as <-.
      destruct (preloadUpcomingVideos_feed CONFIG slides0 cur
                  (set_pending (delete i (pending w)) w)) as [Hs Hi].
      eapply validPosition_same; [exact Hs|exact Hi|exact H].
    + injection E as <-. eapply validPosition_quiet; [|exact H].
      destruct fulfilled; auto with quiet.
    + apply (resumeResolution_quiet CONFIG id stage resolver None) in E.
      eapply validPosition_quiet; [exact E|exact H].
    + apply (resumeResolution_quiet CONFIG id stage resolver (Some r)) in E.
      eapply validPosition_quiet; [exact E|exact H].
  - destruct (bufferMonitorInterval w); [|exact H].
    eapply validPosition_quiet; [|exact H]. auto with quiet.
  - eapply validPosition_quiet; [|exact H]. auto with quiet.
  - exact H.
  - exact H.
Qed.


Lemma run_validPosition CONFIG w evs :
  Forall notPosts evs -> validPosition w -> validPosition (run CONFIG w evs).
Proof.
  unfold run. revert w. induction evs as [|ev evs IH]; intros w Hevs H;
    simpl; [exact H|].
  inversion Hevs as [|? ? Hev Hrest]; subst.
  apply IH; [exact Hrest|]. apply step_validPosition; assumption.
Qed.

(** X28.  [navigate(direction)] leaves the position where it is when
    [currentIndex + direction] is below 0 or not below [slides.length],
    and moves it to [currentIndex + direction] otherwise; it keeps the
    slide sequence; so a position that is an index of the sequence stays
    one through any sequence of navigations, and through any sequence of
    events between two arrivals of posts. *)
Theorem navigate_position (CONFIG : Config) (direction : Z) (w : World) :
  let newIdx := currentIndex (store w) + direction in
  let w' := navigate CONFIG direction w in
  currentIndex (store w') =
    (if (newIdx <? 0) || (newIdx >=? len (slides (store w)))
     then currentIndex (store w) else newIdx)
  /\ slides (store w') = slides (store w)
  /\ (forall directions,
        validPosition w -> validPosition (navigateAll CONFIG w directions))
  /\ (forall evs,
        Forall notPosts evs ->
        validPosition w -> validPosition (run CONFIG w evs)).
Proof.
  intros newIdx w'. subst w' newIdx.
  destruct (navigate_one CONFIG direction w) as [Hi Hs].
  split; [exact Hi|]. split; [exact Hs|]. split.
  - intros directions. clear Hi Hs. revert w.
    induction directions as [|d ds IH]; intros w Hvalid; simpl; [exact Hvalid|].
    apply IH, navigate_validPosition, Hvalid.
  - intros evs. apply run_validPosition.
Qed.

(** C9.  A page of posts that arrives after the user has loaded another
    feed puts the slides of the old feed back, and leaves the position
    where it was: here at 7, with 5 slides.  The position was valid
    before the arrival and is not after it; there is no current slide,
    and [navigate] does nothing in either direction. *)
Theorem stale_page_breaks_position :
  validPosition feedSwitched
  /\ currentIndex (store feedSwitched) = 7
  /\ len (slides (store feedSwitched)) = 8
  /\ pending feedSwitched !! 0%nat = Some (MorePosts [0; 1; 2]%nat)
  /\ currentIndex (store lateArrival) = 7
  /\ len (slides (store lateArrival)) = 5
  /\ ~ validPosition lateArrival
  /\ getCurrentSlide lateArrival = None
  /\ navigate exampleConfig (-1) lateArrival = lateArrival
  /\ navigate exampleConfig 1 lateArrival = lateArrival.
Proof.
  split; [right; vm_compute; split; [discriminate|reflexivity]|].
  do 5 (split; [vm_compute; reflexivity|]).
  split.
  - intros [H|[_ H]]; vm_compute in H; discriminate H.
  - do 2 (split; [vm_compute; reflexivity|]).
    vm_compute; reflexivity.
Qed.

(** ** The capacity of the element cache *)

Lemma withinCapacity_shrinks CONFIG w w' :
  preloadedVideos (store w') ⊆ preloadedVideos (store w) ->
  withinCapacity CONFIG w -> withinCapacity CONFIG w'.
Proof.
  unfold withinCapacity. intros Hsub H.
  apply map_subseteq_size in Hsub. lia.
Qed.

Lemma withinCapacity_quiet CONFIG w w' :
  quiet w w' -> withinCapacity CONFIG w -> withinCapacity CONFIG w'.
Proof. intros (H & _ & _). apply withinCapacity_shrinks. exact H. Qed.

Lemma withinCapacity_preloadVideoElement CONFIG slideData slideIndex videoUrl w :
  withinCapacity CONFIG w ->
  withinCapacity CONFIG (preloadVideoElement CONFIG slideData slideIndex videoUrl w).
Proof.
  unfold withinCapacity. intros H.
  pose proof (preloadVideoElement_cases CONFIG slideData slideIndex
                videoUrl w) as Hadm.
  cbv zeta in Hadm.
  destruct (MAX_CACHED_VIDEOS CONFIG <=? Z.of_nat (size (preloadedVideos (store w))))
    eqn:Hfull.
  - rewrite orb_true_r in Hadm. simpl in Hadm. rewrite Hadm. exact H.
  - apply Z.leb_gt in Hfull.
    destruct (bool_decide _ || false || preloadingPaused (store w)).
    + rewrite Hadm. exact H.
    + destruct Hadm as (_ & _ & Hsize & _). rewrite Hsize. lia.
Qed.

Lemma withinCapacity_preloadUpcomingVideos_loop CONFIG slides0 cur n i w :
  withinCapacity CONFIG w ->
  withinCapacity CONFIG (preloadUpcomingVideos_loop CONFIG slides0 cur n i w).
Proof.
  revert i w. induction n as [|n IH]; intros i w H; simpl; [exact H|].
  destruct (cur + i >=? len slides0); [exact H|].
  destruct (slideAt w slides0 (cur + i)) as [[r slide]|]; [|exact H].
  destruct (negb _); [apply IH; exact H|].
  repeat case_match; apply IH;
    try apply withinCapacity_preloadVideoElement; exact H.
Qed.

Lemma withinCapacity_preloadUpcomingVideos CONFIG slides0 cur w :
  withinCapacity CONFIG w ->
  withinCapacity CONFIG (preloadUpcomingVideos CONFIG slides0 cur w).
Proof. apply withinCapacity_preloadUpcomingVideos_loop. Qed.

Lemma shrinks_loadSubreddit subreddit w :
  preloadedVideos (store (loadSubreddit subreddit w)) = preloadedVideos (store w).
Proof. reflexivity. Qed.

Lemma shrinks_onSubredditPosts CONFIG r w :
  preloadedVideos (store (onSubredditPosts CONFIG r w))
    ⊆ preloadedVideos (store w).
Proof.
  unfold onSubredditPosts. destruct r as [[extracted after']|]; [|reflexivity].
  unfold allocSlides. cbv zeta.
  set (w2 := setState _ _).
  assert (Hw2 : preloadedVideos (store w2) = preloadedVideos (store w))
    by reflexivity.
  clearbody w2. destruct (len _ =? 0); [rewrite Hw2; reflexivity|].
  pose proof (quiet_updateSlides CONFIG w2 w2 (quiet_refl w2)) as H3.
  assert (H4 : quiet w2 (if firstLoad (store (updateSlides CONFIG w2))
                         then setState (set_firstLoad false) (updateSlides CONFIG w2)
                         else updateSlides CONFIG w2)).
  { destruct (firstLoad _); auto with quiet. }
  destruct H4 as (Hc & _ & _). rewrite <- Hw2. exact Hc.
Qed.

Lemma shrinks_onMorePosts captured r w :
  preloadedVideos (store (onMorePosts captured r w)) = preloadedVideos (store w).
Proof. destruct r as [[extracted after']|]; reflexivity. Qed.

Lemma withinCapacity_resumeResolution CONFIG id stage resolver r w w' :
  resumeResolution CONFIG id stage resolver r w = Some w' ->
  withinCapacity CONFIG w -> withinCapacity CONFIG w'.
Proof.
  intros Hrun. apply withinCapacity_quiet.
  exact (resumeResolution_quiet CONFIG id stage resolver r w w' Hrun).
Qed.

Lemma withinCapacity_runTask CONFIG t o w w' :
  runTask CONFIG t o w = Some w' ->
  withinCapacity CONFIG w -> withinCapacity CONFIG w'.
Proof.
  intros Hrun H.
  destruct t as [|slides0 cur|video|id stage resolver|captured|],
           o as [| |fulfilled|r|r];
    simpl in Hrun; try discriminate.
  - injection Hrun as <-.
    eapply withinCapacity_quiet; [|exact H]. auto with quiet.
  - injection Hrun as <-.
    apply withinCapacity_preloadUpcomingVideos. exact H.
  - injection Hrun as <-.
    eapply withinCapacity_quiet; [|exact H].
    destruct fulfilled; auto with quiet.
  - eapply (withinCapacity_resumeResolution CONFIG id stage resolver None);
      eassumption.
  - eapply (withinCapacity_resumeResolution CONFIG id stage resolver (Some r));
      eassumption.
  - injection Hrun as <-.
    eapply withinCapacity_shrinks; [|exact H].
    rewrite shrinks_onMorePosts. reflexivity.
  - injection Hrun as <-.
    eapply withinCapacity_shrinks; [|exact H]. apply shrinks_onSubredditPosts.
Qed.

Lemma withinCapacity_step CONFIG w ev :
  withinCapacity CONFIG w -> withinCapacity CONFIG (step CONFIG w ev).
Proof.
  intros H. destruct ev as [direction|subreddit|i o| |e|e ct b|t]; simpl.
  - eapply withinCapacity_shrinks; [apply navigate_shrinks|exact H].
  - exact H.
  - destruct (pending w !! i) as [task|]; [|exact H].
    destruct (runTask CONFIG task o _) as [w'|] eqn:E; [|exact H].
    eapply withinCapacity_runTask; [exact E|]. exact H.
  - destruct (bufferMonitorInterval w); [|exact H].
    eapply withinCapacity_quiet; [|exact H]. auto with quiet.
  - eapply withinCapacity_quiet; [|exact H]. auto with quiet.
  - exact H.
  - exact H.
Qed.

(** C1.  Whatever is called on the element cache, directly or through
    navigation and the other events, and in whatever order, the cache
    never holds more than [MAX_CACHED_VIDEOS] entries. *)
Theorem cache_capacity (CONFIG : Config) (w : World) (ops : list CacheOp) :
  Z.of_nat (size (preloadedVideos (store w))) <= MAX_CACHED_VIDEOS CONFIG ->
  Z.of_nat (size (preloadedVideos (store (fold_left (applyOp CONFIG) ops w))))
    <= MAX_CACHED_VIDEOS CONFIG.
Proof.
  change (withinCapacity CONFIG w ->
          withinCapacity CONFIG (fold_left (applyOp CONFIG) ops w)).
  revert w. induction ops as [|op ops IH]; intros w H; simpl; [exact H|].
  apply IH.
  destruct op as [slideData slideIndex videoUrl|slideIndex|cur|slides0 cur|ev];
    simpl.
  - apply withinCapacity_preloadVideoElement. exact H.
  - eapply withinCapacity_quiet; [|exact H]. auto with quiet.
  - eapply withinCapacity_quiet; [|exact H]. auto with quiet.
  - apply withinCapacity_preloadUpcomingVideos. exact H.
  - apply withinCapacity_step. exact H.
Qed.

(** ** Resolution of external video ids *)

Lemma resolutionsOf_app id ts ts' :
  resolutionsOf id (ts ++ ts') = (resolutionsOf id ts + resolutionsOf id ts')%nat.
Proof.
  induction ts as [|t ts IH]; simpl; [reflexivity|].
  destruct t; try exact IH.
  destruct (String.eqb id id0); simpl; rewrite IH; reflexivity.
Qed.

Lemma fetchExternalVideoUrl_keeps CONFIG id w :
  store (snd (fetchExternalVideoUrl CONFIG id w)) = store w
  /\ pending (snd (fetchExternalVideoUrl CONFIG id w)) = pending w.
Proof.
  unfold fetchExternalVideoUrl. destruct (cachedToken w); split; reflexivity.
Qed.

(** The orchestrator starts at most one resolution for an id, none for
    an id that is resolved or in flight, and marks what it starts. *)
Lemma preloadExternalVideoUrls_loop_starts CONFIG slides0 start n i w id :
  let r := preloadExternalVideoUrls_loop CONFIG slides0 start n i w in
  let guarded := bool_decide (is_Some (preloadedVideoUrls (store w) !! id)
                              \/ id ∈ preloadingInProgress (store w)) in
  preloadedVideoUrls (store r) = preloadedVideoUrls (store w)
  /\ preloadingInProgress (store w) ⊆ preloadingInProgress (store r)
  /\ (resolutionsOf id (pending w) <= resolutionsOf id (pending r))%nat
  /\ (resolutionsOf id (pending r) <=
      resolutionsOf id (pending w) + (if guarded then 0 else 1))%nat
  /\ (resolutionsOf id (pending w) < resolutionsOf id (pending r)
      -> id ∈ preloadingInProgress (store r))%nat.
Proof.
  revert i w. induction n as [|n IH]; intros i w; simpl.
  { repeat split; try reflexivity; try lia. }
  destruct (start + i >=? len slides0);
    [repeat split; try reflexivity; lia|].
  destruct (slideAt w slides0 (start + i)) as [[ref slide]|];
    [|repeat split; try reflexivity; lia].
  destruct (Slide.externalVideoId slide) as [videoId|]; [|apply IH].
  destruct (negb (Slide.needsResolve slide) || negb (truthy videoId));
    [apply IH|].
  case_bool_decide as Hres; simpl; [apply IH|].
  case_bool_decide as Hfl; simpl; [apply IH|].
  set (w1 := mutate _ w).
  destruct (fetchExternalVideoUrl_keeps CONFIG videoId w1) as [Hst Hpe].
  destruct (fetchExternalVideoUrl CONFIG videoId w1) as [stage w2].
  simpl in Hst, Hpe.
  set (w3 := schedule _ w2).
  assert (Hurls : preloadedVideoUrls (store w3) = preloadedVideoUrls (store w))
    by (subst w3; simpl_world; rewrite Hst; reflexivity).
  assert (Hfly : preloadingInProgress (store w3)
                 = {[videoId]} ∪ preloadingInProgress (store w))
    by (subst w3; simpl_world; rewrite Hst; reflexivity).
  assert (Hpend : resolutionsOf id (pending w3) =
                  (resolutionsOf id (pending w)
                   + (if String.eqb id videoId then 1 else 0))%nat).
  { subst w3. simpl_world. rewrite Hpe, resolutionsOf_app. simpl.
    destruct (String.eqb id videoId); reflexivity. }
  specialize (IH (i + 1) w3). cbv zeta in IH.
  rewrite Hurls, Hfly, Hpend in IH.
  destruct IH as (IHu & IHf & IHlo & IHhi & IHin).
  clear Hurls Hfly Hpend Hst Hpe.
  split; [exact IHu|]. split; [set_solver|].
  destruct (String.eqb_spec id videoId) as [->|Hne].
  - rewrite bool_decide_true in IHhi by set_solver.
    rewrite bool_decide_false by tauto.
    split; [lia|]. split; [lia|]. intros _. set_solver.
  - split; [lia|]. split.
    + etransitivity; [exact IHhi|].
      rewrite Nat.add_0_r.
      apply Nat.add_le_mono_l.
      case_bool_decide as Hg3; case_bool_decide as Hg; try lia.
      exfalso. apply Hg3. destruct Hg as [Hg|Hg]; [left; exact Hg|].
      right. apply elem_of_union. right. exact Hg.
    + intros H. apply IHin. lia.
Qed.

Lemma preloadExternalVideoUrls_guarded CONFIG slides0 start count w id :
  is_Some (preloadedVideoUrls (store w) !! id)
  \/ id ∈ preloadingInProgress (store w) ->
  resolutionsOf id (pending (preloadExternalVideoUrls CONFIG slides0 start count w))
  = resolutionsOf id (pending w).
Proof.
  intros Hguard. unfold preloadExternalVideoUrls.
  destruct (preloadExternalVideoUrls_loop_starts CONFIG slides0 start
              (Z.to_nat count) 0 w id) as (_ & _ & Hlo & Hhi & _).
  rewrite bool_decide_true in Hhi by exact Hguard. lia.
Qed.

Lemma createSlideElement_resolved CONFIG data d position slideIndex w id u :
  slideObjs w !! data = Some d ->
  Slide.externalVideoId d = Some id ->
  preloadedVideoUrls (store w) !! id = Some u -> truthy u = true ->
  let w' := snd (createSlideElement CONFIG data position slideIndex w) in
  requests w' = requests w /\ pending w' = pending w.
Proof.
  intros Hd Hid Hu Htruthy w'. subst w'. unfold createSlideElement.
  rewrite Hd. destruct (String.eqb (Slide.type d) "video");
    [|split; reflexivity].
  unfold getPreloadedVideo.
  destruct (preloadedVideos (store w) !! slideIndex) as [cached|].
  - destruct (isActive position); split; reflexivity.
  - rewrite Hid. unfold newVideo. cbv zeta.
    destruct (Slide.needsResolve d && truthy id).
    + unfold getPreloadedVideoUrl. simpl_world. rewrite Hu, Htruthy.
      destruct (isActive position && _); split; reflexivity.
    + destruct (isActive position && _); split; reflexivity.
Qed.

(** The renderer marks nothing and stores no URL for an id that is
    resolved. *)
Lemma createSlideElement_marks CONFIG data d position slideIndex w id u :
  slideObjs w !! data = Some d ->
  Slide.externalVideoId d = Some id ->
  preloadedVideoUrls (store w) !! id = Some u -> truthy u = true ->
  let w' := snd (createSlideElement CONFIG data position slideIndex w) in
  preloadingInProgress (store w') = preloadingInProgress (store w)
  /\ preloadedVideoUrls (store w') = preloadedVideoUrls (store w).
Proof.
  intros Hd Hid Hu Htruthy w'. subst w'. unfold createSlideElement.
  rewrite Hd. destruct (String.eqb (Slide.type d) "video");
    [|split; reflexivity].
  unfold getPreloadedVideo.
  destruct (preloadedVideos (store w) !! slideIndex) as [cached|].
  - destruct (isActive position); split; reflexivity.
  - rewrite Hid. unfold newVideo. cbv zeta.
    destruct (Slide.needsResolve d && truthy id).
    + unfold getPreloadedVideoUrl. simpl_world. rewrite Hu, Htruthy.
      destruct (isActive position && _); split; reflexivity.
    + destruct (isActive position && _); split; reflexivity.
Qed.

(** The element that the renderer builds for a slide whose id is
    resolved has the cached URL as its [src]. *)
Lemma createSlideElement_cached_url CONFIG data d position slideIndex w id u :
  slideObjs w !! data = Some d ->
  Slide.type d = "video" ->
  Slide.needsResolve d = true ->
  Slide.externalVideoId d = Some id ->
  truthy id = true ->
  preloadedVideos (store w) !! slideIndex = None ->
  preloadedVideoUrls (store w) !! id = Some u -> truthy u = true ->
  let r := createSlideElement CONFIG data position slideIndex w in
  let e := length (videoElems w) in
  fst r = Some (mkSlideEl position (MediaVideo e))
  /\ (exists v,
        videoElems (snd r) !! e = Some v
        /\ Video.src v = u
        /\ Video.poster v = ""
        /\ Video.parent v = Video.InSlide
        /\ Video.paused v = negb (isActive position))
  /\ (exists d',
        slideObjs (snd r) !! data = Some d'
        /\ Slide.url d' = Some u
        /\ Slide.needsResolve d' = false).
Proof.
  intros Hd Htype Hneeds Hid Htruthy Hcache Hu Hut r e. subst r e.
  unfold createSlideElement, getPreloadedVideo.
  rewrite Hd, Htype, Hcache, Hid, Hneeds, Htruthy.
  cbn [String.eqb Ascii.eqb Bool.eqb andb]. unfold newVideo. cbv zeta.
  unfold getPreloadedVideoUrl.
  cbn [set_videoElems store]. rewrite Hu, Hut.
  cbn [updVideo updSlide set_videoElems set_slideObjs videoElems slideObjs].
  rewrite !list_lookup_alter_eq, lookup_app_r by lia.
  rewrite Nat.sub_diag. cbn [lookup list_lookup fmap option_fmap option_map].
  cbn [Video.set_parent Video.set_src Video.src]. rewrite Hut, andb_true_r.
  assert (Hslide : exists d',
            alter (Slide.set_resolved u) data (slideObjs w) !! data = Some d'
            /\ Slide.url d' = Some u /\ Slide.needsResolve d' = false).
  { exists (Slide.set_resolved u d).
    rewrite list_lookup_alter_eq, Hd. repeat split. }
  destruct (isActive position); cbn [fst snd negb].
  - split; [reflexivity|]. split;
      [|cbn [updVideo updSlide set_videoElems set_slideObjs videoElems slideObjs];
        exact Hslide].
    cbn [updVideo updSlide set_videoElems set_slideObjs videoElems slideObjs].
    rewrite !list_lookup_alter_eq, lookup_app_r by lia.
    rewrite Nat.sub_diag. cbn [lookup list_lookup fmap option_fmap option_map].
    eexists. split; [reflexivity|]. repeat split.
  - split; [reflexivity|]. split;
      [|cbn [updVideo updSlide set_videoElems set_slideObjs videoElems slideObjs];
        exact Hslide].
    cbn [updVideo updSlide set_videoElems set_slideObjs videoElems slideObjs].
    rewrite !list_lookup_alter_eq, lookup_app_r by lia.
    rewrite Nat.sub_diag. cbn [lookup list_lookup fmap option_fmap option_map].
    eexists. split; [reflexivity|]. repeat split.
Qed.

(** C6.  An id that is resolved is served from the cache: the lookup
    [getPreloadedVideoUrl] returns its URL at once; the renderer sends no
    request, starts no resolution and marks nothing for it, and the
    element it builds for a slide that needs resolution has the cached
    URL as its [src], the slide recording the URL and needing no
    resolution any more; the orchestrator starts no resolution for it. *)
Theorem resolved_id_served_from_cache (CONFIG : Config) (id u : string)
  (w : World) :
  preloadedVideoUrls (store w) !! id = Some u -> truthy u = true ->
  getPreloadedVideoUrl id w = Some u
  /\ (forall data d position slideIndex,
        slideObjs w !! data = Some d -> Slide.externalVideoId d = Some id ->
        let r := createSlideElement CONFIG data position slideIndex w in
        (requests (snd r) = requests w
         /\ pending (snd r) = pending w
         /\ preloadingInProgress (store (snd r)) = preloadingInProgress (store w)
         /\ preloadedVideoUrls (store (snd r)) = preloadedVideoUrls (store w))
        /\ (Slide.type d = "video" -> Slide.needsResolve d = true ->
            truthy id = true ->
            preloadedVideos (store w) !! slideIndex = None ->
            let e := length (videoElems w) in
            fst r = Some (mkSlideEl position (MediaVideo e))
            /\ (exists v,
                  videoElems (snd r) !! e = Some v
                  /\ Video.src v = u
                  /\ Video.poster v = ""
                  /\ Video.parent v = Video.InSlide
                  /\ Video.paused v = negb (isActive position))
            /\ (exists d',
                  slideObjs (snd r) !! data = Some d'
                  /\ Slide.url d' = Some u
                  /\ Slide.needsResolve d' = false)))
  /\ (forall slides0 start count,
        let w' := preloadExternalVideoUrls CONFIG slides0 start count w in
        resolutionsOf id (pending w') = resolutionsOf id (pending w)).
Proof.
  intros Hu Htruthy. split; [|split].
  - unfold getPreloadedVideoUrl. rewrite Hu, Htruthy. reflexivity.
  - intros data d position slideIndex Hd Hid. cbv zeta. split.
    + destruct (createSlideElement_resolved CONFIG data d position slideIndex
                  w id u Hd Hid Hu Htruthy) as [Hreq Hpend].
      destruct (createSlideElement_marks CONFIG data d position slideIndex
                  w id u Hd Hid Hu Htruthy) as [Hmarks Hurls].
      auto.
    + intros Htype Hneeds Hidt Hcache.
      exact (createSlideElement_cached_url CONFIG data d position slideIndex
               w id u Hd Htype Hneeds Hid Hidt Hcache Hu Htruthy).
  - intros slides0 start count. apply preloadExternalVideoUrls_guarded.
    left. rewrite Hu. eauto.
Qed.

(** Against C6 as stated: with "abc" resolved and a valid token cached,
    [fetchExternalVideoUrl("abc")] does not look at the cache; it sends
    the request for the video information and returns what the network
    gives. *)
Lemma fetchExternalVideoUrl_ignores_cache :
  getPreloadedVideoUrl "abc" warmWorld = Some "https://media.example/abc.mp4"
  /\ ~ (let '(stage, w1) :=
          fetchExternalVideoUrl exampleConfig "abc" warmWorld in
        match resumeFetch exampleConfig "abc" stage None w1 with
        | Some (result, w2) =>
            requests w2 = requests warmWorld
            /\ result = inr (Some "https://media.example/abc.mp4")
        | None => False
        end).
Proof.
  split; [vm_compute; reflexivity|]. vm_compute. intros [H _]. discriminate H.
Qed.

(** ** Loading a new feed *)

(** What a load does reset: the image preload set and the feed keys of
    the store; the resolved URLs are not touched.  [resetForNewLoad]
    does the same. *)
Lemma loadSubreddit_resets (name : string) (w : World) :
  let w' := loadSubreddit name w in
  let w'' := resetForNewLoad w in
  (preloadedImages (store w') = ∅
   /\ slides (store w') = []
   /\ currentIndex (store w') = 0
   /\ after (store w') = None
   /\ loading (store w') = true
   /\ subreddit (store w') = name
   /\ preloadedVideoUrls (store w') = preloadedVideoUrls (store w))
  /\ (preloadedImages (store w'') = ∅
      /\ slides (store w'') = []
      /\ currentIndex (store w'') = 0
      /\ after (store w'') = None
      /\ loading (store w'') = true
      /\ preloadedVideoUrls (store w'') = preloadedVideoUrls (store w)).
Proof. repeat split. Qed.

(** C7.  Loading another feed after the warm session clears the image
    preload set only: the three cached elements of the old feed, the
    resolved URL and the pause flag are as they were, when the load
    starts, when its posts have arrived, and after [resetForNewLoad].
    The cache, full of elements of the old feed, admits no element of
    the new one; and the move to the second slide of the new feed shows,
    as its next slide, the element cached for position 2 of the old
    feed, playing "v2.mp4" where the slide is "p2.mp4". *)
Theorem loadSubreddit_keeps_video_caches :
  let claimed := fun w : World =>
    size (preloadedVideoUrls (store w)) = 0%nat
    /\ size (preloadedVideos (store w)) = 0%nat
    /\ size (preloadedImages (store w)) = 0%nat
    /\ preloadingPaused (store w) = false in
  ~ claimed (loadSubreddit "pics" warmWorld)
  /\ ~ claimed picsLoaded
  /\ ~ claimed (resetForNewLoad warmWorld)
  /\ preloadedImages (store (loadSubreddit "pics" warmWorld)) = ∅
  /\ preloadedVideos (store (loadSubreddit "pics" warmWorld))
     = preloadedVideos (store warmWorld)
  /\ size (preloadedVideos (store warmWorld)) = 3%nat
  /\ preloadingPaused (store (loadSubreddit "pics" warmWorld)) = true
  /\ preloadedVideos (store picsLoaded) = preloadedVideos (store warmWorld)
  /\ preloadingPaused (store picsLoaded) = true
  /\ preloadUpcomingVideos exampleConfig (slides (store picsLoaded)) 0
       (setState (set_preloadingPaused false) picsLoaded)
     = setState (set_preloadingPaused false) picsLoaded
  /\ preloadedVideos (store warmWorld) !! 2 = Some (CacheEntry.mk 5 "v2.mp4" 0)
  /\ (Slide.url <$> (snd <$> slideAt picsMoved (slides (store picsMoved)) 2))
     = Some (Some "p2.mp4")
  /\ slideshow picsMoved
     = Some [mkSlideEl "prev" (MediaVideo 10); mkSlideEl "active" (MediaVideo 11);
             mkSlideEl "next" (MediaVideo 5)]
  /\ (Video.src <$> videoElems picsMoved !! 5%nat) = Some "v2.mp4".
Proof.
  cbv zeta.
  split; [intros (_ & H & _); vm_compute in H; discriminate H|].
  split; [intros (_ & H & _); vm_compute in H; discriminate H|].
  split; [intros (_ & H & _); vm_compute in H; discriminate H|].
  do 10 (split; [vm_compute; reflexivity|]).
  vm_compute; reflexivity.
Qed.

(** ** Two resolutions of one id at a time *)

(** The renderer starts a resolution for every external video it has to
    show without a resolved URL, in flight or not, and marks the id. *)
Lemma createSlideElement_starts CONFIG data d position slideIndex w id :
  slideObjs w !! data = Some d ->
  Slide.type d = "video" ->
  Slide.needsResolve d = true ->
  Slide.externalVideoId d = Some id ->
  truthy id = true ->
  preloadedVideos (store w) !! slideIndex = None ->
  getPreloadedVideoUrl id w = None ->
  let w' := snd (createSlideElement CONFIG data position slideIndex w) in
  resolutionsOf id (pending w') = S (resolutionsOf id (pending w))
  /\ id ∈ preloadingInProgress (store w').
Proof.
  intros Hd Htype Hneeds Hid Htruthy Hcache Hurl w'. subst w'.
  unfold createSlideElement, getPreloadedVideo.
  rewrite Hd, Htype, Hcache, Hid, Hneeds, Htruthy. simpl.
  unfold newVideo. cbv zeta.
  unfold getPreloadedVideoUrl in *. simpl_world.
  destruct (preloadedVideoUrls (store w) !! id) as [u|].
  - destruct (truthy u); [discriminate|].
    unfold fetchExternalVideoUrl, cachedToken. simpl_world.
    destruct (externalVideoToken (media w)) as [tok|];
      [destruct (truthy tok && _)|];
      simpl_world; destruct (isActive position && _); simpl_world;
      rewrite resolutionsOf_app; simpl; rewrite String.eqb_refl;
      (split; [lia|set_solver]).
  - unfold fetchExternalVideoUrl, cachedToken. simpl_world.
    destruct (externalVideoToken (media w)) as [tok|];
      [destruct (truthy tok && _)|];
      simpl_world; destruct (isActive position && _); simpl_world;
      rewrite resolutionsOf_app; simpl; rewrite String.eqb_refl;
      (split; [lia|set_solver]).
Qed.

(** C5.  The renderer starts a resolution for an id that is in flight:
    the user moves to the slide before an external video, whose
    resolution starts, and moves on before it settles; a second
    resolution of the same id starts, and both send the request for the
    video. *)
Theorem renderer_starts_second_resolution :
  "abc" ∈ preloadingInProgress (store feedShown)
  /\ resolutionsOf "abc" (pending feedShown) = 1%nat
  /\ resolutionsOf "abc" (pending movedOn) = 2%nat
  /\ "abc" ∈ preloadingInProgress (store bothAsking)
  /\ resolutionsOf "abc" (pending bothAsking) = 2%nat
  /\ infoRequestsOf exampleConfig "abc" bothAsking = 2%nat.
Proof.
  repeat split; try (vm_compute; reflexivity);
    apply bool_decide_eq_true_1; vm_compute; reflexivity.
Qed.

(** ** The properties at work on the scenarios *)

(** The capacity holds along a run from the warm session. *)
Lemma cache_capacity_witness :
  Z.of_nat (size (preloadedVideos (store warmWorld)))
    <= MAX_CACHED_VIDEOS exampleConfig
  /\ Z.of_nat (size (preloadedVideos (store
        (fold_left (applyOp exampleConfig)
           [OpEvent (Navigate 1); OpPreloadVideoElement 5%nat 5 "v5.mp4";
            OpGetPreloadedVideo 3; OpEvent (Run 0 Elapsed);
            OpCleanupOldPreloads 9]
           warmWorld))))
      <= MAX_CACHED_VIDEOS exampleConfig.
Proof.
  split; [vm_compute; discriminate|].
  apply (cache_capacity exampleConfig warmWorld). vm_compute. discriminate.
Defined.

(** Nine seconds buffered, eight needed: the monitor resumes. *)
Lemma checkBuffer_hysteresis_witness :
  getActiveVideo warmWorld = Some (3%nat, warmActiveVideo)
  /\ preloadingPaused (store warmWorld) = true
  /\ preloadingPaused (store (checkBuffer exampleConfig warmWorld)) = false.
Proof.
  assert (Hactive : getActiveVideo warmWorld = Some (3%nat, warmActiveVideo))
    by (vm_compute; reflexivity).
  split; [exact Hactive|]. split; [vm_compute; reflexivity|].
  destruct (checkBuffer_hysteresis exampleConfig warmWorld 3%nat
              warmActiveVideo Hactive) as [Hup _].
  apply Hup; vm_compute; reflexivity.
Defined.

(** At position 5 with threshold 2, the entry at 2 goes and its element
    is emptied and detached; at position 4 the entry at 4 stays. *)
Lemma cleanupOldPreloads_exact_witness :
  preloadedVideos (store warmWorld) !! 2 = Some (CacheEntry.mk 5 "v2.mp4" 0)
  /\ Video.src <$> videoElems warmWorld !! 5%nat = Some "v2.mp4"
  /\ preloadedVideos (store (cleanupOldPreloads exampleConfig 5 warmWorld)) !! 2
     = None
  /\ (exists v',
        videoElems (cleanupOldPreloads exampleConfig 5 warmWorld) !! 5%nat
        = Some v'
        /\ Video.src v' = "" /\ Video.parent v' = Video.Detached)
  /\ 0 <= CLEANUP_THRESHOLD exampleConfig
  /\ preloadedVideos (store (cleanupOldPreloads exampleConfig 4 warmWorld)) !! 4
     = preloadedVideos (store warmWorld) !! 4.
Proof.
  assert (Hentry : preloadedVideos (store warmWorld) !! 2
                   = Some (CacheEntry.mk 5 "v2.mp4" 0))
    by (vm_compute; reflexivity).
  split; [exact Hentry|]. split; [vm_compute; reflexivity|].
  destruct (cleanupOldPreloads_exact exampleConfig 5 warmWorld)
    as (_ & Hbehind & _ & _).
  destruct (videoElems warmWorld !! 5%nat) as [v|] eqn:Hv;
    [|vm_compute in Hv; discriminate Hv].
  destruct (Hbehind 2 _ v Hentry ltac:(vm_compute; reflexivity) Hv)
    as (Hgone & v' & Hv' & Hsrc & Hparent & _).
  split; [exact Hgone|]. split; [exists v'; auto|].
  split; [vm_compute; discriminate|].
  destruct (cleanupOldPreloads_exact exampleConfig 4 warmWorld)
    as (_ & _ & _ & Hahead).
  apply Hahead; [vm_compute; discriminate|lia].
Defined.

(** Resuming the warm session starts the element cached for position 2;
    pausing a running copy of it pauses the cached elements. *)
Lemma pause_all_resume_next_witness :
  preloadingPaused (store warmWorld) = true
  /\ pending (resumePreloads warmWorld) = pending warmWorld ++ [PlayThenPause 5%nat]
  /\ preloadingPaused
       (store (setState (set_preloadingPaused false) warmWorld)) = false
  /\ preloadingPaused
       (store (pauseAllPreloads
                 (setState (set_preloadingPaused false) warmWorld))) = true.
Proof.
  assert (Hflag : preloadingPaused (store warmWorld) = true)
    by (vm_compute; reflexivity).
  split; [exact Hflag|]. split.
  - destruct (pause_all_resume_next exampleConfig warmWorld)
      as (_ & Hresume & _).
    destruct (Hresume Hflag) as (_ & _ & Hnext).
    replace (preloadedVideos (store warmWorld)
             !! (currentIndex (store warmWorld) + 1))
      with (Some (CacheEntry.mk 5%nat "v2.mp4" 0)) in Hnext
      by (vm_compute; reflexivity).
    exact (proj2 Hnext).
  - split; [reflexivity|].
    destruct (pause_all_resume_next exampleConfig
                (setState (set_preloadingPaused false) warmWorld))
      as (Hpause & _).
    exact (proj1 (Hpause eq_refl)).
Defined.

(** Four moves from position 1 of six slides stay on the slides. *)
Lemma navigate_position_witness :
  validPosition warmWorld
  /\ validPosition (navigateAll exampleConfig warmWorld [1; 1; 1; -1]).
Proof.
  assert (Hvalid : validPosition warmWorld).
  { right. vm_compute. split; [discriminate|reflexivity]. }
  split; [exact Hvalid|].
  destruct (navigate_position exampleConfig 1 warmWorld) as (_ & _ & Hall & _).
  apply Hall. exact Hvalid.
Defined.

(** The id "abc" is served from the cache: the element built for its
    slide gets the cached URL. *)
Lemma resolved_id_served_from_cache_witness :
  preloadedVideoUrls (store urlResolved) !! "abc"
    = Some "https://media.example/abc.mp4"
  /\ slideObjs urlResolved !! 4%nat = Some (externalSlide "abc")
  /\ getPreloadedVideoUrl "abc" urlResolved
     = Some "https://media.example/abc.mp4"
  /\ exists v,
       videoElems (snd (createSlideElement exampleConfig 4%nat "next" 4
                          urlResolved)) !! 5%nat = Some v
       /\ Video.src v = "https://media.example/abc.mp4".
Proof.
  assert (Hurl : preloadedVideoUrls (store urlResolved) !! "abc"
                 = Some "https://media.example/abc.mp4")
    by (vm_compute; reflexivity).
  assert (Hd : slideObjs urlResolved !! 4%nat = Some (externalSlide "abc"))
    by (vm_compute; reflexivity).
  assert (Hlen : length (videoElems urlResolved) = 5%nat)
    by (vm_compute; reflexivity).
  split; [exact Hurl|]. split; [exact Hd|].
  destruct (resolved_id_served_from_cache exampleConfig "abc"
              "https://media.example/abc.mp4" urlResolved Hurl eq_refl)
    as (Hget & Hrender & _).
  split; [exact Hget|].
  destruct (Hrender 4%nat (externalSlide "abc") "next" 4 Hd eq_refl)
    as (_ & Huses).
  destruct Huses as (_ & (v & Hv & Hsrc & _) & _);
    [reflexivity|reflexivity|reflexivity|vm_compute; reflexivity|].
  rewrite Hlen in Hv. exists v. split; assumption.
Defined.

(** * Further properties *)

(** Reading a world through the operations that built it, without
    unfolding them where nothing is read. *)
Ltac read_world := cbn [playThenPause setState mutate updVideo updSlide schedule
  issue newVideo set_store set_videoElems set_slideObjs set_pending
  set_requests set_slideshow set_bufferMonitorInterval set_media set_now
  store slideObjs videoElems slideshow
  bufferMonitorInterval media pending requests now
  slides currentIndex subreddit after loading firstLoad isZoomed panX panY
  isPanning autoplay autoplayInterval videoMuted preloadedImages
  preloadedVideos preloadedVideoUrls preloadingInProgress preloadingPaused
  set_slides set_currentIndex set_subreddit set_after set_loading
  set_firstLoad set_isZoomed set_panX set_panY set_isPanning set_autoplay
  set_autoplayInterval set_videoMuted set_preloadedImages set_preloadedVideos
  set_preloadedVideoUrls set_preloadingInProgress set_preloadingPaused
  fst snd] in *.

Lemma lookup_alter_last {A} (f : A -> A) (x : A) (l : list A) :
  alter f (length l) (l ++ [x]) !! length l = Some (f x).
Proof.
  rewrite list_lookup_alter_eq, lookup_app_r by lia.
  rewrite Nat.sub_diag. reflexivity.
Qed.

Lemma lookup_last {A} (x : A) (l : list A) : (l ++ [x]) !! length l = Some x.
Proof. rewrite lookup_app_r by lia. rewrite Nat.sub_diag. reflexivity. Qed.

Lemma lookup_before_last {A} (x : A) (l : list A) (i : nat) :
  i <> length l -> (l ++ [x]) !! i = l !! i.
Proof.
  intros Hne. destruct (decide (i < length l)%nat) as [Hlt|Hge].
  - apply lookup_app_l. exact Hlt.
  - rewrite lookup_app_r by lia. rewrite (lookup_ge_None_2 l) by lia.
    destruct (i - length l)%nat eqn:E; [lia|reflexivity].
Qed.

(** ** The buffer ahead of the playback position *)

Lemma bufferedAhead_first ranges t i s e :
  ranges !! i = Some (s, e) ->
  (s <= t)%Q -> (t <= e)%Q ->
  (forall j s' e', (j < i)%nat -> ranges !! j = Some (s', e') ->
     ~ ((s' <= t)%Q /\ (t <= e')%Q)) ->
  bufferedAhead ranges t = (e - t)%Q.
Proof.
  revert i. induction ranges as [|[s0 e0] rest IH]; intros i Hi Hs He Hfirst;
    [discriminate|].
  simpl. destruct i as [|i]; simpl in Hi.
  - injection Hi as -> ->.
    rewrite (proj2 (Qle_bool_iff s t) Hs), (proj2 (Qle_bool_iff t e) He).
    reflexivity.
  - destruct (Qle_bool s0 t && Qle_bool t e0) eqn:E.
    + apply andb_true_iff in E as [E1 E2].
      apply Qle_bool_iff in E1, E2.
      exfalso. apply (Hfirst O s0 e0); [lia|reflexivity|split; assumption].
    + apply (IH i Hi Hs He). intros j s' e' Hj Hl.
      apply (Hfirst (S j) s' e'); [lia|exact Hl].
Qed.

Lemma bufferedAhead_outside ranges t :
  (forall s e, (s, e) ∈ ranges -> ~ ((s <= t)%Q /\ (t <= e)%Q)) ->
  bufferedAhead ranges t = 0%Q.
Proof.
  induction ranges as [|[s e] rest IH]; intros Hout; simpl; [reflexivity|].
  destruct (Qle_bool s t && Qle_bool t e) eqn:E.
  - apply andb_true_iff in E as [E1 E2]. apply Qle_bool_iff in E1, E2.
    exfalso. apply (Hout s e); [apply elem_of_cons; left; reflexivity|].
    split; assumption.
  - apply IH. intros s' e' Hin. apply Hout. apply elem_of_cons. right. exact Hin.
Qed.

Lemma bufferedAhead_nonneg ranges t : (0 <= bufferedAhead ranges t)%Q.
Proof.
  induction ranges as [|[s e] rest IH]; simpl; [apply Qle_refl|].
  destruct (Qle_bool s t && Qle_bool t e) eqn:E; [|exact IH].
  apply andb_true_iff in E as [_ E]. apply Qle_bool_iff in E.
  unfold Qminus. rewrite <- Qle_minus_iff. exact E.
Qed.

Lemma getBufferHealth_ahead v :
  getBufferHealth (Some v) = bufferedAhead (Video.buffered v) (Video.currentTime v).
Proof. unfold getBufferHealth. destruct (Video.buffered v); reflexivity. Qed.

(** X1.  [getBufferHealth] is never negative; it is the distance from the
    playback position to the end of the first buffered range that
    contains the position, and 0 when no range contains it, which
    includes no video and no ranges. *)
Theorem getBufferHealth_range (video : option Video.t) :
  (0 <= getBufferHealth video)%Q
  /\ (forall v i s e,
        video = Some v ->
        Video.buffered v !! i = Some (s, e) ->
        (s <= Video.currentTime v)%Q -> (Video.currentTime v <= e)%Q ->
        (forall j s' e', (j < i)%nat -> Video.buffered v !! j = Some (s', e') ->
           ~ ((s' <= Video.currentTime v)%Q /\ (Video.currentTime v <= e')%Q)) ->
        getBufferHealth video = (e - Video.currentTime v)%Q)
  /\ ((forall v s e,
         video = Some v -> (s, e) ∈ Video.buffered v ->
         ~ ((s <= Video.currentTime v)%Q /\ (Video.currentTime v <= e)%Q)) ->
      getBufferHealth video = 0%Q).
Proof.
  split; [|split].
  - destruct video as [v|]; [|apply Qle_refl].
    rewrite getBufferHealth_ahead. apply bufferedAhead_nonneg.
  - intros v i s e -> Hi Hs He Hfirst. rewrite getBufferHealth_ahead.
    exact (bufferedAhead_first _ _ i s e Hi Hs He Hfirst).
  - intros Hout. destruct video as [v|]; [|reflexivity].
    rewrite getBufferHealth_ahead. apply bufferedAhead_outside.
    intros s e. exact (Hout v s e eq_refl).
Qed.

(** ** Round trips through the element cache *)

Lemma preloadVideoElement_admitted CONFIG slideData slideIndex videoUrl w :
  preloadedVideos (store w) !! slideIndex = None ->
  Z.of_nat (size (preloadedVideos (store w))) < MAX_CACHED_VIDEOS CONFIG ->
  preloadingPaused (store w) = false ->
  let e := length (videoElems w) in
  let video := Video.mk videoUrl "metadata" true true true "anonymous" false
                 "" "" offscreen true Video.InBody 0%Q [] (Some slideIndex) in
  let w2 := mutate (set_preloadedVideos
              (<[slideIndex := CacheEntry.mk e videoUrl (now w)]>
                 (preloadedVideos (store w))))
              (set_videoElems (videoElems w ++ [video]) w) in
  preloadVideoElement CONFIG slideData slideIndex videoUrl w =
    if slideIndex =? currentIndex (store w) + 1 then playThenPause e w2 else w2.
Proof.
  intros Hnone Hsize Hpaused. unfold preloadVideoElement.
  rewrite bool_decide_false by (rewrite Hnone; intros [? ?]; discriminate).
  replace (_ >=? _) with false by (symmetry; rewrite Z.geb_leb; apply Z.leb_gt; lia).
  rewrite Hpaused. reflexivity.
Qed.

(** X2.  An element admitted to the cache for a position is handed out by
    [getPreloadedVideo] for that position, once: it is the element that
    was created, with the URL it was given, still in the document and
    with its off-screen style removed; the cache is then what it was
    before the admission, and a second call finds nothing and changes
    nothing. *)
Theorem preload_then_take (CONFIG : Config) (slideData : SlideRef)
  (slideIndex : Z) (videoUrl : string) (w : World) :
  preloadedVideos (store w) !! slideIndex = None ->
  Z.of_nat (size (preloadedVideos (store w))) < MAX_CACHED_VIDEOS CONFIG ->
  preloadingPaused (store w) = false ->
  let w1 := preloadVideoElement CONFIG slideData slideIndex videoUrl w in
  let taken := getPreloadedVideo slideIndex w1 in
  let e := length (videoElems w) in
  fst taken = Some e
  /\ preloadedVideos (store (snd taken)) = preloadedVideos (store w)
  /\ Video.src <$> videoElems (snd taken) !! e = Some videoUrl
  /\ Video.style <$> videoElems (snd taken) !! e = Some (Video.mkStyle "" "" "" "")
  /\ Video.parent <$> videoElems (snd taken) !! e = Some Video.InBody
  /\ getPreloadedVideo slideIndex (snd taken) = (None, snd taken).
Proof.
  intros Hnone Hsize Hpaused w1 taken e. subst taken w1.
  rewrite (preloadVideoElement_admitted _ _ _ _ _ Hnone Hsize Hpaused).
  cbv zeta. fold e.
  destruct (slideIndex =? currentIndex (store w) + 1);
    unfold getPreloadedVideo; read_world; rewrite lookup_insert_eq;
    read_world; cbn [CacheEntry.element];
    rewrite delete_insert_id by exact Hnone; rewrite Hnone;
    unfold e; rewrite !list_lookup_alter_eq, lookup_last;
    repeat split; reflexivity.
Qed.

(** X3.  When the element admitted for a position reports an error, its
    listener takes the entry out of the cache, which is then what it was
    before the admission, and removes the element from the document; the
    other elements are untouched, and the listener, registered once, does
    nothing a second time. *)
Theorem preload_error_undone (CONFIG : Config) (slideData : SlideRef)
  (slideIndex : Z) (videoUrl : string) (w : World) :
  preloadedVideos (store w) !! slideIndex = None ->
  Z.of_nat (size (preloadedVideos (store w))) < MAX_CACHED_VIDEOS CONFIG ->
  preloadingPaused (store w) = false ->
  let e := length (videoElems w) in
  let w1 := preloadVideoElement CONFIG slideData slideIndex videoUrl w in
  let w2 := onPreloadError e w1 in
  preloadedVideos (store w2) = preloadedVideos (store w)
  /\ Video.parent <$> videoElems w2 !! e = Some Video.Detached
  /\ (forall e', e' <> e -> videoElems w2 !! e' = videoElems w !! e')
  /\ onPreloadError e w2 = w2.
Proof.
  intros Hnone Hsize Hpaused e w1 w2. subst w2 w1.
  rewrite (preloadVideoElement_admitted _ _ _ _ _ Hnone Hsize Hpaused).
  cbv zeta. fold e.
  destruct (slideIndex =? currentIndex (store w) + 1);
    unfold onPreloadError; read_world; unfold e;
    rewrite ?list_lookup_alter_eq, !lookup_last;
    cbn [fmap option_fmap option_map Video.errorListener Video.play
         Video.set_paused];
    read_world; rewrite delete_insert_id by exact Hnone;
    rewrite !list_lookup_alter_eq, !lookup_last;
    cbn [fmap option_fmap option_map Video.errorListener Video.play
         Video.set_paused Video.set_errorListener Video.remove
         Video.set_parent Video.parent];
    (split; [reflexivity|]); (split; [reflexivity|]);
    (split; [|reflexivity]);
    intros e' Hne;
    rewrite ?list_lookup_alter_ne by congruence;
    apply lookup_before_last; exact Hne.
Qed.

(** ** Preloading the upcoming videos *)

Lemma preloadVideoElement_blocked CONFIG slideData slideIndex videoUrl w :
  preloadingPaused (store w) = true
  \/ MAX_CACHED_VIDEOS CONFIG <= Z.of_nat (size (preloadedVideos (store w))) ->
  preloadVideoElement CONFIG slideData slideIndex videoUrl w = w.
Proof.
  intros Hblocked. unfold preloadVideoElement.
  case_bool_decide; [reflexivity|].
  destruct (Z.of_nat _ >=? _) eqn:Hfull; [reflexivity|].
  destruct (preloadingPaused (store w)); [reflexivity|].
  destruct Hblocked as [?|Hle]; [discriminate|].
  rewrite Z.geb_leb in Hfull. apply Z.leb_gt in Hfull. lia.
Qed.

Lemma preloadVideoElement_heap CONFIG slideData slideIndex videoUrl w :
  let w' := preloadVideoElement CONFIG slideData slideIndex videoUrl w in
  slideObjs w' = slideObjs w
  /\ preloadedVideoUrls (store w') = preloadedVideoUrls (store w)
  /\ (length (videoElems w) <= length (videoElems w'))%nat.
Proof.
  unfold preloadVideoElement. case_bool_decide; [auto|].
  destruct (Z.of_nat _ >=? _); [auto|].
  destruct (preloadingPaused (store w)); [auto|].
  cbv zeta. cbn [newVideo].
  destruct (slideIndex =? _); read_world;
    rewrite ?length_alter, length_app; cbn [length]; repeat split; lia.
Qed.

Lemma slideAt_heap w w' slides0 idx :
  slideObjs w' = slideObjs w -> slideAt w' slides0 idx = slideAt w slides0 idx.
Proof. intros H. unfold slideAt. rewrite H. reflexivity. Qed.

(** X4.  While preloading is paused, or while the cache is full,
    [preloadUpcomingVideos] changes nothing. *)
Theorem preloadUpcomingVideos_blocked (CONFIG : Config)
  (slides0 : list SlideRef) (cur : Z) (w : World) :
  preloadingPaused (store w) = true
  \/ MAX_CACHED_VIDEOS CONFIG <= Z.of_nat (size (preloadedVideos (store w))) ->
  preloadUpcomingVideos CONFIG slides0 cur w = w.
Proof.
  intros Hblocked. unfold preloadUpcomingVideos.
  generalize (Z.to_nat (VIDEO_PRELOAD_COUNT CONFIG)) 1.
  intros n. induction n as [|n IH]; intros i; simpl; [reflexivity|].
  destruct (cur + i >=? len slides0); [reflexivity|].
  destruct (slideAt w slides0 (cur + i)) as [[r slide]|]; [|reflexivity].
  destruct (negb (String.eqb (Slide.type slide) "video")); [apply IH|].
  repeat case_match; try apply IH;
    rewrite preloadVideoElement_blocked by exact Hblocked; apply IH.
Qed.

Lemma preloadUpcomingVideos_loop_adds CONFIG slides0 cur n i w :
  let w' := preloadUpcomingVideos_loop CONFIG slides0 cur n i w in
  slideObjs w' = slideObjs w
  /\ preloadedVideoUrls (store w') = preloadedVideoUrls (store w)
  /\ (forall k c, preloadedVideos (store w) !! k = Some c ->
        preloadedVideos (store w') !! k = Some c)
  /\ (forall k c, preloadedVideos (store w') !! k = Some c ->
        preloadedVideos (store w) !! k = None ->
        cur + i <= k < cur + i + Z.of_nat n /\ k < len slides0
        /\ entryFor w slides0 k c).
Proof.
  revert i w. induction n as [|n IH]; intros i w; cbn [preloadUpcomingVideos_loop].
  { cbv zeta. repeat split; try reflexivity; try (intros; congruence); auto. }
  assert (Hid : slideObjs w = slideObjs w
    /\ preloadedVideoUrls (store w) = preloadedVideoUrls (store w)
    /\ (forall k c, preloadedVideos (store w) !! k = Some c ->
          preloadedVideos (store w) !! k = Some c)
    /\ (forall k c, preloadedVideos (store w) !! k = Some c ->
          preloadedVideos (store w) !! k = None ->
          cur + i <= k < cur + i + Z.of_nat (S n) /\ k < len slides0
          /\ entryFor w slides0 k c)).
  { repeat split; try reflexivity; auto; congruence. }
  assert (Hskip : let w' := preloadUpcomingVideos_loop CONFIG slides0 cur n (i + 1) w in
    slideObjs w' = slideObjs w
    /\ preloadedVideoUrls (store w') = preloadedVideoUrls (store w)
    /\ (forall k c, preloadedVideos (store w) !! k = Some c ->
          preloadedVideos (store w') !! k = Some c)
    /\ (forall k c, preloadedVideos (store w') !! k = Some c ->
          preloadedVideos (store w) !! k = None ->
          cur + i <= k < cur + i + Z.of_nat (S n) /\ k < len slides0
          /\ entryFor w slides0 k c)).
  { destruct (IH (i + 1) w) as (H1 & H2 & H3 & H4).
    repeat split; auto; destruct (H4 k c) as (? & ? & ?); auto; lia. }
  cbv zeta in *.
  destruct (cur + i >=? len slides0) eqn:Hend; [exact Hid|].
  destruct (slideAt w slides0 (cur + i)) as [[r slide]|] eqn:Hslide; [|exact Hid].
  destruct (negb (String.eqb (Slide.type slide) "video")) eqn:Htype; [exact Hskip|].
  apply negb_false_iff, String.eqb_eq in Htype.
  set (external := match Slide.externalVideoId slide with
                   | Some videoId => if Slide.needsResolve slide && truthy videoId
                                     then Some videoId else None
                   | None => None end).
  assert (Hadd : forall u, truthy u = true ->
    (Slide.url slide = Some u
     \/ exists id, Slide.externalVideoId slide = Some id
          /\ preloadedVideoUrls (store w) !! id = Some u) ->
    let w' := preloadUpcomingVideos_loop CONFIG slides0 cur n (i + 1)
                (preloadVideoElement CONFIG r (cur + i) u w) in
    slideObjs w' = slideObjs w
    /\ preloadedVideoUrls (store w') = preloadedVideoUrls (store w)
    /\ (forall k c, preloadedVideos (store w) !! k = Some c ->
          preloadedVideos (store w') !! k = Some c)
    /\ (forall k c, preloadedVideos (store w') !! k = Some c ->
          preloadedVideos (store w) !! k = None ->
          cur + i <= k < cur + i + Z.of_nat (S n) /\ k < len slides0
          /\ entryFor w slides0 k c)).
  { intros u Hu Hfrom. cbv zeta.
    destruct (preloadVideoElement_heap CONFIG r (cur + i) u w) as (Hh1 & Hh2 & _).
    pose proof (preloadVideoElement_cases CONFIG r (cur + i) u w) as Hcases.
    cbv zeta in Hcases, Hh1, Hh2.
    set (w1 := preloadVideoElement CONFIG r (cur + i) u w) in *.
    destruct (IH (i + 1) w1) as (H1 & H2 & H3 & H4).
    split; [congruence|]. split; [congruence|].
    destruct (_ || _ || _).
    - rewrite Hcases in *. split; [exact H3|].
      intros k c Hk Hnone. destruct (H4 k c Hk Hnone) as (? & ? & ?).
      split; [lia|]. split; assumption.
    - destruct Hcases as (Hfree & Hcache & _). split.
      + intros k c Hk. apply H3. rewrite Hcache.
        rewrite lookup_insert_ne; [exact Hk|]. congruence.
      + intros k c Hk Hnone.
        destruct (decide (k = cur + i)) as [->|Hne].
        * specialize (H3 (cur + i) (CacheEntry.mk (length (videoElems w)) u (now w))).
          rewrite Hcache, lookup_insert_eq in H3. specialize (H3 eq_refl).
          rewrite Hk in H3. injection H3 as ->.
          split; [lia|]. split; [rewrite Z.geb_leb in Hend; apply Z.leb_gt in Hend; lia|].
          exists r, slide. cbn [CacheEntry.url]. auto.
        * assert (Hn1 : preloadedVideos (store w1) !! k = None)
            by (rewrite Hcache, lookup_insert_ne by congruence; exact Hnone).
          destruct (H4 k c Hk Hn1) as (? & ? & (r' & d' & Hat & Hty & Htr & Hsrc)).
          split; [lia|]. split; [assumption|].
          exists r', d'. rewrite (slideAt_heap w w1) in Hat by exact Hh1.
          rewrite Hh2 in Hsrc. auto. }
  destruct external as [videoId|] eqn:Hext.
  - destruct (preloadedVideoUrls (store w) !! videoId) as [u|] eqn:Hu;
      cbn [otruthy]; [|exact Hskip].
    destruct (truthy u) eqn:Htu; cbv beta iota; rewrite ?Htu; [|exact Hskip].
    apply Hadd; [exact Htu|]. right. exists videoId. split; [|exact Hu].
    subst external. destruct (Slide.externalVideoId slide) as [id|]; [|discriminate].
    destruct (_ && _); [|discriminate]. congruence.
  - destruct (Slide.url slide) as [u|] eqn:Hu; [|exact Hskip].
    destruct (truthy u) eqn:Htu; cbv beta iota; rewrite ?Htu; [|exact Hskip].
    apply Hadd; [exact Htu|]. left. reflexivity.
Qed.

(** X5.  [preloadUpcomingVideos] keeps every entry of the cache; an entry
    it adds is for a position after the current one, at most
    [VIDEO_PRELOAD_COUNT] ahead and within the slides, whose slide is a
    video, and it holds a non-empty URL: the slide's own, or the one its
    id resolved to. *)
Theorem preloadUpcomingVideos_ahead (CONFIG : Config)
  (slides0 : list SlideRef) (cur : Z) (w : World) :
  let w' := preloadUpcomingVideos CONFIG slides0 cur w in
  (forall k c, preloadedVideos (store w) !! k = Some c ->
     preloadedVideos (store w') !! k = Some c)
  /\ (forall k c, preloadedVideos (store w') !! k = Some c ->
        preloadedVideos (store w) !! k = None ->
        cur < k <= cur + VIDEO_PRELOAD_COUNT CONFIG /\ k < len slides0
        /\ entryFor w slides0 k c).
Proof.
  cbv zeta. unfold preloadUpcomingVideos.
  destruct (preloadUpcomingVideos_loop_adds CONFIG slides0 cur
              (Z.to_nat (VIDEO_PRELOAD_COUNT CONFIG)) 1 w) as (_ & _ & H3 & H4).
  split; [exact H3|]. intros k c Hk Hnone.
  destruct (H4 k c Hk Hnone) as (? & ? & ?). split; [lia|]. split; assumption.
Qed.

(** ** Rendering *)

(** X6.  A video slide whose position has an entry in the cache is
    rendered with the cached element: no element is created, no
    resolution starts and no request leaves; the entry is taken out of
    the cache, and the element sits in the slide with its source
    unchanged, its off-screen style removed, the user's mute preference
    and the title of the slide, playing when the slide is the active
    one. *)
Theorem createSlideElement_takes_preloaded (CONFIG : Config) (data : SlideRef)
  (d : Slide.t) (position : string) (slideIndex : Z) (c : CacheEntry.t)
  (v : Video.t) (w : World) :
  slideObjs w !! data = Some d ->
  Slide.type d = "video" ->
  preloadedVideos (store w) !! slideIndex = Some c ->
  videoElems w !! CacheEntry.element c = Some v ->
  let r := createSlideElement CONFIG data position slideIndex w in
  fst r = Some (mkSlideEl position (MediaVideo (CacheEntry.element c)))
  /\ preloadedVideos (store (snd r)) = delete slideIndex (preloadedVideos (store w))
  /\ length (videoElems (snd r)) = length (videoElems w)
  /\ pending (snd r) = pending w
  /\ requests (snd r) = requests w
  /\ slideObjs (snd r) = slideObjs w
  /\ exists v', videoElems (snd r) !! CacheEntry.element c = Some v'
       /\ Video.src v' = Video.src v
       /\ Video.parent v' = Video.InSlide
       /\ Video.style v' = Video.mkStyle "" "" "" ""
       /\ Video.muted v' = videoMuted (store w)
       /\ Video.ariaLabel v' = Slide.title d
       /\ Video.paused v' = (if isActive position then false else Video.paused v)
       /\ Video.autoplay v' = (if isActive position then true else Video.autoplay v).
Proof.
  intros Hd Htype Hc Hv r. subst r. unfold createSlideElement, getPreloadedVideo.
  rewrite Hd, Htype, Hc. cbn [String.eqb Ascii.eqb Bool.eqb].
  destruct (isActive position); read_world; rewrite ?length_alter;
    rewrite !list_lookup_alter_eq, Hv;
    repeat split; eexists; (split; [reflexivity|]); repeat split.
Qed.

Lemma createSlideElement_renders CONFIG data d position slideIndex w :
  slideObjs w !! data = Some d ->
  let r := createSlideElement CONFIG data position slideIndex w in
  (exists m, fst r = Some (mkSlideEl position m))
  /\ slideshow (snd r) = slideshow w
  /\ length (slideObjs (snd r)) = length (slideObjs w).
Proof.
  intros Hd r. subst r. unfold createSlideElement. rewrite Hd.
  destruct (String.eqb (Slide.type d) "video"); [|eauto].
  unfold getPreloadedVideo.
  destruct (preloadedVideos (store w) !! slideIndex) as [cached|].
  - destruct (isActive position); read_world; eauto.
  - cbn [newVideo]. 
    destruct (Slide.externalVideoId d) as [id|].
    + destruct (Slide.needsResolve d && truthy id).
      * destruct (getPreloadedVideoUrl id _).
        -- destruct (isActive position && _); read_world;
             rewrite length_alter; eauto.
        -- unfold fetchExternalVideoUrl.
           destruct (cachedToken _); destruct (isActive position && _);
             read_world; eauto.
      * destruct (isActive position && _); read_world; eauto.
    + destruct (isActive position && _); read_world; eauto.
Qed.

Lemma renderOffsets_positions CONFIG slides0 cur offsets w children :
  slideshow w = Some children ->
  (forall r, r ∈ slides0 -> (r < length (slideObjs w))%nat) ->
  exists children',
    slideshow (renderOffsets CONFIG slides0 cur offsets w) = Some children'
    /\ slidePosition <$> children' =
       (slidePosition <$> children) ++
       (snd <$> filter (fun op => 0 <= cur + op.1 < len slides0) offsets).
Proof.
  revert w children. induction offsets as [|[offset position] rest IH];
    intros w children Hshow Hheap; cbn [renderOffsets].
  { exists children. rewrite filter_nil, app_nil_r. auto. }
  destruct ((cur + offset <? 0) || (cur + offset >=? len slides0)) eqn:Hout.
  - rewrite filter_cons_False.
    + apply IH; assumption.
    + cbn [fst]. apply orb_true_iff in Hout as [H|H].
      * apply Z.ltb_lt in H. lia.
      * rewrite Z.geb_leb in H. apply Z.leb_le in H. lia.
  - apply orb_false_iff in Hout as [Hlo Hhi].
    apply Z.ltb_ge in Hlo. rewrite Z.geb_leb in Hhi. apply Z.leb_gt in Hhi.
    rewrite filter_cons_True by (cbn [fst]; lia).
    destruct (slides0 !! Z.to_nat (cur + offset)) as [data|] eqn:Hdata.
    2:{ apply lookup_ge_None in Hdata. unfold len in Hhi. lia. }
    assert (Hin : data ∈ slides0) by (eapply list_elem_of_lookup_2; eauto).
    destruct (lookup_lt_is_Some_2 (slideObjs w) data (Hheap data Hin)) as [d Hd].
    destruct (createSlideElement_renders CONFIG data d position (cur + offset) w Hd)
      as ([m Hm] & Hs & Hl).
    destruct (createSlideElement CONFIG data position (cur + offset) w)
      as [slide w1]. cbn [fst snd] in *. subst slide. rewrite Hs, Hshow.
    destruct (IH (set_slideshow (Some (children ++ [mkSlideEl position m])) w1)
                (children ++ [mkSlideEl position m])) as (ch' & Hch & Hpos).
    + reflexivity.
    + intros r Hr. read_world. rewrite Hl. auto.
    + exists ch'. split; [exact Hch|]. rewrite Hpos.
      rewrite fmap_app, fmap_cons. cbn [snd slidePosition fmap list_fmap].
      rewrite <- app_assoc. reflexivity.
Qed.

(** X7.  With the position on the slides, [updateSlides] replaces the
    content of the slideshow by the slide before, when there is one, the
    active slide, and the slide after, when there is one, in this
    order. *)
Theorem updateSlides_window (CONFIG : Config) (w : World) :
  is_Some (slideshow w) ->
  0 <= currentIndex (store w) < len (slides (store w)) ->
  (forall r, r ∈ slides (store w) -> (r < length (slideObjs w))%nat) ->
  slidePosition <$> default [] (slideshow (updateSlides CONFIG w)) =
    (if currentIndex (store w) =? 0 then [] else ["prev"])
    ++ ["active"]
    ++ (if currentIndex (store w) + 1 <? len (slides (store w))
        then ["next"] else []).
Proof.
  intros [children Hshow] Hpos Hheap. unfold updateSlides. rewrite Hshow.
  destruct (renderOffsets_positions CONFIG (slides (store w))
              (currentIndex (store w))
              [(-1, "prev"); (0, "active"); (1, "next")]
              (set_slideshow (Some []) w) []) as (ch' & Hch & Hp).
  - reflexivity.
  - exact Hheap.
  - cbn [store set_slideshow] in *. rewrite Hch. unfold default; cbn [from_option id].
    rewrite Hp. cbn [fmap list_fmap app].
    rewrite !filter_cons, filter_nil. cbn [fst snd].
    destruct (Z.eqb_spec (currentIndex (store w)) 0) as [E0|E0];
      destruct (Z.ltb_spec (currentIndex (store w) + 1) (len (slides (store w))));
      repeat case_decide; try lia; reflexivity.
Qed.

(** ** The result of a resolution *)

Lemma truthy_append a b : truthy (a +:+ b) = truthy a || truthy b.
Proof. destruct a; reflexivity. Qed.

Lemma proxied_truthy CONFIG u : truthy (proxied CONFIG u) = true.
Proof.
  unfold proxied. rewrite !truthy_append. cbn [truthy].
  rewrite orb_true_r. reflexivity.
Qed.

Lemma or_else_Some a b u :
  or_else a b = Some u ->
  (a = Some u /\ truthy u = true) \/ (otruthy a = false /\ b = Some u).
Proof.
  unfold or_else. destruct (otruthy a) eqn:E; intros H.
  - left. subst a. split; [reflexivity|exact E].
  - right. split; [reflexivity|exact H].
Qed.

(** X8.  A URL that [fetchExternalVideoUrl] resolves to is never empty.
    It comes from a response with a body (an ok one when the proxy is
    used); it is the [hd] URL of [gif.urls] (of [urls] when the body has
    no [gif.urls]) when that is non-empty, and the [sd] URL otherwise;
    and it goes through the proxy when the proxy is enabled.  The last
    step of the call changes nothing in the world. *)
Theorem fetchExternalVideoUrl_resolved (CONFIG : Config) (id : string)
  (r : Response) (w w' : World) (u : string) :
  resumeFetch CONFIG id AwaitInfo (Some r) w = Some (inr (Some u), w') ->
  w' = w
  /\ truthy u = true
  /\ exists ok body raw,
       r = HttpResponse ok (Some body)
       /\ (PROXY_ENABLED CONFIG = true -> ok = true)
       /\ truthy raw = true
       /\ u = (if PROXY_ENABLED CONFIG then proxied CONFIG raw else raw)
       /\ let found := match gif_urls body with
                       | Some found => found
                       | None => default (mkUrls None None) (urls body)
                       end in
          hd found = Some raw
          \/ (otruthy (hd found) = false /\ sd found = Some raw).
Proof.
  cbn [resumeFetch]. intros H. injection H as Hu <-.
  split; [reflexivity|]. unfold urlFromResponse, readJson in Hu.
  destruct r as [|ok [body|]]; try discriminate;
    [|destruct (PROXY_ENABLED CONFIG && negb ok); discriminate].
  destruct (PROXY_ENABLED CONFIG && negb ok) eqn:Hok; [discriminate|].
  cbv zeta in Hu.
  set (found := match gif_urls body with
                | Some found => found
                | None => match urls body with
                          | Some found => found
                          | None => mkUrls None None
                          end
                end) in *.
  destruct (or_else (or_else (hd found) (sd found)) None) as [raw|] eqn:Hraw;
    [|discriminate].
  assert (Hpick : (hd found = Some raw \/ (otruthy (hd found) = false /\ sd found = Some raw))
                  /\ truthy raw = true).
  { destruct (or_else_Some _ _ _ Hraw) as [[H1 H2]|[_ H1]]; [|discriminate].
    destruct (or_else_Some _ _ _ H1) as [[H3 _]|[H3 H4]]; auto. }
  destruct Hpick as [Hpick Hraw'].
  rewrite Hraw' in Hu. cbn [andb] in Hu.
  assert (Hfound : found = match gif_urls body with
                           | Some found => found
                           | None => default (mkUrls None None) (urls body)
                           end).
  { subst found. destruct (gif_urls body); [reflexivity|].
    destruct (urls body); reflexivity. }
  destruct (PROXY_ENABLED CONFIG) eqn:Hproxy; injection Hu as <-.
  - split; [apply proxied_truthy|]. exists ok, body, raw.
    split; [reflexivity|]. split; [destruct ok; [reflexivity|discriminate]|].
    split; [exact Hraw'|]. split; [reflexivity|]. cbv zeta. rewrite <- Hfound.
    exact Hpick.
  - split; [exact Hraw'|]. exists ok, body, raw.
    split; [reflexivity|]. split; [discriminate|].
    split; [exact Hraw'|]. split; [reflexivity|]. cbv zeta. rewrite <- Hfound.
    exact Hpick.
Qed.

(** ** The cached token *)

(** X9.  A token that the provider handed out serves for an hour: before
    the hour has passed a resolution sends no token request and asks for
    the video with this token; from then on it requests a token
    again. *)
Theorem token_cached_for_an_hour (CONFIG : Config) (r : Response)
  (w w1 w2 : World) (tok id : string) :
  tokenFromResponse CONFIG r w = (Some tok, w1) ->
  media w2 = media w1 ->
  (now w2 < now w + 3600000 ->
     fetchExternalVideoUrl CONFIG id w2 = (AwaitCachedToken tok, w2)
     /\ resumeFetch CONFIG id (AwaitCachedToken tok) None w2
        = Some (inl AwaitInfo, issue (infoRequest CONFIG id tok) w2))
  /\ (now w + 3600000 <= now w2 ->
        fetchExternalVideoUrl CONFIG id w2 =
          (AwaitToken,
           issue (fetchRequest CONFIG (xvb +:+ "/auth/temporary") jsonHeaders) w2)).
Proof.
  unfold tokenFromResponse. intros Htok Hmedia.
  destruct (readJson CONFIG r) as [data|]; [|discriminate].
  destruct (otruthy (token data)) eqn:Htruthy; [|discriminate].
  injection Htok as Htok <-. rewrite Htok in *. cbn [otruthy] in Htruthy.
  unfold fetchExternalVideoUrl, cachedToken. rewrite Hmedia.
  cbn [media set_media externalVideoToken externalVideoTokenExpiry].
  rewrite Htruthy. cbn [andb].
  change (60 * 60 * 1000) with 3600000.
  split; intros Hnow.
  - rewrite (proj2 (Z.ltb_lt _ _) Hnow). split; [reflexivity|].
    cbn [resumeFetch withToken]. rewrite Htruthy. reflexivity.
  - rewrite (proj2 (Z.ltb_ge _ _) Hnow). reflexivity.
Qed.

(** ** A resolution that fails *)

(** X10.  When the token request of a resolution fails, the resolution
    ends with [null] at once: no request for the video leaves, the token
    variables and the resolved URLs are as before, and the id is no
    longer marked in flight. *)
Theorem failed_token_ends_resolution (CONFIG : Config) (id : string)
  (resolver : Resolver) (r : Response) (w : World) :
  fst (tokenFromResponse CONFIG r w) = None ->
  resumeResolution CONFIG id AwaitToken resolver (Some r) w
    = Some (onResolved id resolver None w)
  /\ requests (onResolved id resolver None w) = requests w
  /\ media (onResolved id resolver None w) = media w
  /\ preloadedVideoUrls (store (onResolved id resolver None w))
     = preloadedVideoUrls (store w)
  /\ (id ∉ preloadingInProgress (store (onResolved id resolver None w))).
Proof.
  intros Hfail. unfold resumeResolution, resumeFetch.
  assert (Hw : tokenFromResponse CONFIG r w = (None, w)).
  { unfold tokenFromResponse in *. destruct (readJson CONFIG r) as [data|];
      [|reflexivity].
    destruct (otruthy (token data)) eqn:E; [|reflexivity].
    cbn [fst] in Hfail. rewrite Hfail in E. discriminate. }
  rewrite Hw. cbn [withToken].
  split; [reflexivity|].
  destruct resolver as [|data video position];
    cbn [onResolved]; unfold onPreloaderResolved, onRendererResolved; read_world;
    repeat split; try reflexivity;
    intros [_ Hne]%elem_of_difference; apply Hne, elem_of_singleton; reflexivity.
Qed.

(** ** Marks and resolutions *)

Lemma starting_refl w : starting w w.
Proof. split; [reflexivity|]. split; [intros; lia|]. intros id H. left. exact H. Qed.

Lemma starting_trans w0 w1 w2 : starting w0 w1 -> starting w1 w2 -> starting w0 w2.
Proof.
  intros (Hu1 & Hp1 & Hm1) (Hu2 & Hp2 & Hm2). split; [congruence|]. split.
  - intros id. specialize (Hp1 id). specialize (Hp2 id). lia.
  - intros id Hin. specialize (Hp1 id). specialize (Hp2 id).
    destruct (Hm2 id Hin) as [Hin1|Hlt]; [|right; lia].
    destruct (Hm1 id Hin1) as [Hin0|Hlt]; [left; exact Hin0|right; lia].
Qed.

Lemma starting_same w0 w w' :
  preloadedVideoUrls (store w') = preloadedVideoUrls (store w) ->
  preloadingInProgress (store w') = preloadingInProgress (store w) ->
  pending w' = pending w ->
  starting w0 w -> starting w0 w'.
Proof.
  intros Hu Hm Hp H. apply (starting_trans w0 w w'); [exact H|].
  unfold starting. rewrite Hu, Hm, Hp. apply starting_refl.
Qed.

Lemma starting_schedule w0 t w : starting w0 w -> starting w0 (schedule t w).
Proof.
  intros H. apply (starting_trans w0 w _); [exact H|].
  split; [reflexivity|]. cbn [schedule pending set_pending store].
  split.
  - intros id. rewrite resolutionsOf_app. lia.
  - intros id Hin. left. exact Hin.
Qed.

(** A mark together with the resolution it stands for. *)
Lemma starting_started w0 w w' id stage resolver :
  preloadedVideoUrls (store w') = preloadedVideoUrls (store w) ->
  preloadingInProgress (store w') = {[id]} ∪ preloadingInProgress (store w) ->
  pending w' = pending w ++ [Resolution id stage resolver] ->
  starting w0 w -> starting w0 w'.
Proof.
  intros Hu Hm Hp H. apply (starting_trans w0 w w'); [exact H|].
  unfold starting. rewrite Hu, Hm, Hp. split; [reflexivity|]. split.
  - intros id'. rewrite resolutionsOf_app. lia.
  - intros id' Hin. rewrite resolutionsOf_app. cbn [resolutionsOf].
    apply elem_of_union in Hin as [Hin|Hin]; [|left; exact Hin].
    apply elem_of_singleton in Hin as ->. right.
    rewrite String.eqb_refl. lia.
Qed.

Ltac starting_simple :=
  intros; eapply starting_same; [| | |eassumption]; reflexivity.

Lemma starting_updVideo w0 f e w : starting w0 w -> starting w0 (updVideo f e w).
Proof. starting_simple. Qed.

Lemma starting_updSlide w0 f r w : starting w0 w -> starting w0 (updSlide f r w).
Proof. starting_simple. Qed.

Lemma starting_issue w0 r w : starting w0 w -> starting w0 (issue r w).
Proof. starting_simple. Qed.

Lemma starting_set_slideshow w0 x w :
  starting w0 w -> starting w0 (set_slideshow x w).
Proof. starting_simple. Qed.

Lemma starting_set_monitor w0 x w :
  starting w0 w -> starting w0 (set_bufferMonitorInterval x w).
Proof. starting_simple. Qed.

Lemma starting_set_videoElems w0 x w :
  starting w0 w -> starting w0 (set_videoElems x w).
Proof. starting_simple. Qed.

Lemma starting_set_slideObjs w0 x w :
  starting w0 w -> starting w0 (set_slideObjs x w).
Proof. starting_simple. Qed.

Lemma starting_set_media w0 x w : starting w0 w -> starting w0 (set_media x w).
Proof. starting_simple. Qed.

Lemma starting_set_now w0 x w : starting w0 w -> starting w0 (set_now x w).
Proof. starting_simple. Qed.

(** A write to the store that keeps the two collections. *)
Lemma starting_store w0 (f : AppState -> AppState) w :
  preloadedVideoUrls (f (store w)) = preloadedVideoUrls (store w) ->
  preloadingInProgress (f (store w)) = preloadingInProgress (store w) ->
  starting w0 w -> starting w0 (setState f w).
Proof. intros Hu Hm H. eapply starting_same; [exact Hu|exact Hm|reflexivity|exact H]. Qed.

Lemma starting_set_paused w0 b w :
  starting w0 w -> starting w0 (setState (set_preloadingPaused b) w).
Proof. starting_simple. Qed.

Lemma starting_set_loading w0 x w :
  starting w0 w -> starting w0 (setState (set_loading x) w).
Proof. starting_simple. Qed.

Lemma starting_set_firstLoad w0 x w :
  starting w0 w -> starting w0 (setState (set_firstLoad x) w).
Proof. starting_simple. Qed.

Lemma starting_set_images w0 x w :
  starting w0 w -> starting w0 (mutate (set_preloadedImages x) w).
Proof. starting_simple. Qed.

Lemma starting_set_cache w0 x w :
  starting w0 w -> starting w0 (mutate (set_preloadedVideos x) w).
Proof. starting_simple. Qed.

Lemma starting_resetZoom w0 w : starting w0 w -> starting w0 (resetZoom w).
Proof. starting_simple. Qed.

Lemma starting_stopAutoplay w0 w : starting w0 w -> starting w0 (stopAutoplay w).
Proof. starting_simple. Qed.

Lemma starting_stopBufferMonitoring w0 w :
  starting w0 w -> starting w0 (stopBufferMonitoring w).
Proof.
  unfold stopBufferMonitoring. destruct (bufferMonitorInterval w);
    [apply starting_set_monitor|trivial].
Qed.

Lemma starting_loadMorePosts w0 w : starting w0 w -> starting w0 (loadMorePosts w).
Proof.
  intros H. unfold loadMorePosts. apply starting_schedule, starting_set_loading, H.
Qed.

Create HintDb starting.
#[local] Hint Resolve starting_refl starting_updVideo starting_updSlide
  starting_schedule starting_issue starting_set_slideshow starting_set_monitor
  starting_set_videoElems starting_set_slideObjs starting_set_media
  starting_set_now starting_set_paused starting_set_loading
  starting_set_firstLoad starting_set_images starting_set_cache
  starting_resetZoom starting_stopAutoplay starting_stopBufferMonitoring
  starting_loadMorePosts : starting.

Lemma starting_pauseAllPreloads w0 w :
  starting w0 w -> starting w0 (pauseAllPreloads w).
Proof.
  intros H. unfold pauseAllPreloads.
  destruct (preloadingPaused (store w)); [exact H|].
  apply starting_set_paused. rewrite map_fold_foldr.
  destruct (pause_list w (map_to_list (preloadedVideos (store w))))
    as (Hrest & _ & _).
  set (r := foldr _ w _) in *.
  eapply starting_same; [| | |exact H].
  - exact (f_equal (fun x => preloadedVideoUrls (store x)) Hrest).
  - exact (f_equal (fun x => preloadingInProgress (store x)) Hrest).
  - exact (f_equal pending Hrest).
Qed.

Lemma starting_resumePreloads w0 w :
  starting w0 w -> starting w0 (resumePreloads w).
Proof.
  intros H. unfold resumePreloads.
  destruct (negb (preloadingPaused (store w))); [exact H|].
  destruct (preloadedVideos _ !! _); unfold playThenPause; auto with starting.
Qed.

Lemma starting_checkBuffer CONFIG w0 w :
  starting w0 w -> starting w0 (checkBuffer CONFIG w).
Proof.
  intros H. unfold checkBuffer. destruct (getActiveVideo w) as [[e v]|];
    [|exact H].
  destruct (_ && _); [apply starting_pauseAllPreloads; exact H|].
  destruct (_ && _); [apply starting_resumePreloads; exact H|exact H].
Qed.

Lemma starting_startBufferMonitoring CONFIG w0 w :
  starting w0 w -> starting w0 (startBufferMonitoring CONFIG w).
Proof.
  intros H. unfold startBufferMonitoring.
  apply starting_set_monitor, starting_checkBuffer,
    starting_stopBufferMonitoring, H.
Qed.

Lemma starting_onPreloadError w0 e w :
  starting w0 w -> starting w0 (onPreloadError e w).
Proof.
  intros H. unfold onPreloadError.
  destruct (videoElems w !! e) as [v|]; [|exact H].
  destruct (Video.errorListener v); auto with starting.
Qed.

Lemma starting_getPreloadedVideo w0 k w :
  starting w0 w -> starting w0 (snd (getPreloadedVideo k w)).
Proof.
  intros H. unfold getPreloadedVideo.
  destruct (preloadedVideos (store w) !! k); cbn [snd]; auto with starting.
Qed.

Lemma starting_cleanupOldPreloads CONFIG cur w0 w :
  starting w0 w -> starting w0 (cleanupOldPreloads CONFIG cur w).
Proof.
  intros H.
  pose proof (cleanup_list CONFIG cur w
                (map_to_list (preloadedVideos (store w)))) as (Hsame & _).
  rewrite <- cleanupOldPreloads_foldr in Hsame.
  unfold sameButCache in Hsame.
  eapply starting_same; [| | |exact H].
  - exact (f_equal (fun x => preloadedVideoUrls (store x)) Hsame).
  - exact (f_equal (fun x => preloadingInProgress (store x)) Hsame).
  - exact (f_equal pending Hsame).
Qed.

Lemma starting_fetchExternalVideoUrl CONFIG w0 id w :
  starting w0 w -> starting w0 (snd (fetchExternalVideoUrl CONFIG id w)).
Proof.
  intros H. unfold fetchExternalVideoUrl.
  destruct (cachedToken w); cbn [snd]; auto with starting.
Qed.

Lemma starting_preloadVideoElement CONFIG slideData slideIndex videoUrl w0 w :
  starting w0 w ->
  starting w0 (preloadVideoElement CONFIG slideData slideIndex videoUrl w).
Proof.
  intros H. unfold preloadVideoElement.
  destruct (bool_decide _); [exact H|].
  destruct (_ >=? _); [exact H|].
  destruct (preloadingPaused (store w)); [exact H|].
  cbn [newVideo]. destruct (slideIndex =? _); unfold playThenPause;
    auto 6 with starting.
Qed.

#[local] Hint Resolve starting_pauseAllPreloads starting_resumePreloads
  starting_checkBuffer starting_startBufferMonitoring starting_onPreloadError
  starting_getPreloadedVideo starting_cleanupOldPreloads
  starting_fetchExternalVideoUrl starting_preloadVideoElement : starting.

Lemma starting_preloadUpcomingVideos_loop CONFIG slides0 cur n i w0 w :
  starting w0 w ->
  starting w0 (preloadUpcomingVideos_loop CONFIG slides0 cur n i w).
Proof.
  revert i w. induction n as [|n IH]; intros i w H; simpl; [exact H|].
  destruct (cur + i >=? len slides0); [exact H|].
  destruct (slideAt w slides0 (cur + i)) as [[r slide]|]; [|exact H].
  destruct (negb _); [apply IH; exact H|].
  repeat case_match; apply IH; auto with starting.
Qed.

Lemma starting_createSlideElement CONFIG w0 data position slideIndex w :
  starting w0 w ->
  starting w0 (snd (createSlideElement CONFIG data position slideIndex w)).
Proof.
  intros H. unfold createSlideElement.
  destruct (slideObjs w !! data) as [d|]; [|exact H].
  destruct (String.eqb (Slide.type d) "video"); [|exact H].
  pose proof (starting_getPreloadedVideo w0 slideIndex w H) as H1.
  destruct (getPreloadedVideo slideIndex w) as [[e|] w1]; cbn [snd] in H1.
  - destruct (isActive position); cbn [snd]; auto with starting.
  - cbn [newVideo].
    set (e := length (videoElems w1)).
    set (w2 := set_videoElems _ w1).
    assert (H2 : starting w0 w2) by (subst w2; auto with starting).
    clearbody w2.
    match goal with
    | |- context [match ?x with Some id => _ | None => updVideo _ e w2 end] =>
        set (external := x)
    end.
    set (w3 := match external with Some _ => _ | None => _ end).
    assert (H3 : starting w0 w3).
    { subst w3. destruct external as [id|]; [|auto with starting].
      destruct (getPreloadedVideoUrl id w2); [auto with starting|].
      unfold fetchExternalVideoUrl.
      destruct (cachedToken _);
        (eapply starting_started; [| | |exact H2]; reflexivity). }
    clearbody w3. cbn [snd].
    destruct (isActive position && _); cbn [snd]; auto with starting.
Qed.

Lemma starting_renderOffsets CONFIG slides0 cur offsets w0 w :
  starting w0 w -> starting w0 (renderOffsets CONFIG slides0 cur offsets w).
Proof.
  revert w. induction offsets as [|[offset position] rest IH]; intros w H;
    simpl; [exact H|].
  destruct ((cur + offset <? 0) || (cur + offset >=? len slides0));
    [apply IH; exact H|].
  destruct (slides0 !! Z.to_nat (cur + offset)) as [data|]; [|exact H].
  pose proof (starting_createSlideElement CONFIG w0 data position
                (cur + offset) w H) as H1.
  destruct (createSlideElement CONFIG data position (cur + offset) w)
    as [slide w1]; cbn [snd] in H1.
  apply IH. destruct slide, (slideshow w1); auto with starting.
Qed.

Lemma starting_updateSlides CONFIG w0 w :
  starting w0 w -> starting w0 (updateSlides CONFIG w).
Proof.
  intros H. unfold updateSlides. destruct (slideshow w); [|exact H].
  apply starting_renderOffsets. auto with starting.
Qed.

Lemma starting_preloadImages_loop CONFIG slides0 cur n i w0 w :
  starting w0 w -> starting w0 (preloadImages_loop CONFIG slides0 cur n i w).
Proof.
  revert i w. induction n as [|n IH]; intros i w H; simpl; [exact H|].
  destruct (cur + i >=? len slides0); [exact H|].
  destruct (slideAt w slides0 (cur + i)) as [[r data]|]; [|exact H].
  apply IH. destruct (_ && _); auto with starting.
Qed.

Lemma starting_preloadExternalVideoUrls_loop CONFIG slides0 start n i w0 w :
  starting w0 w ->
  starting w0 (preloadExternalVideoUrls_loop CONFIG slides0 start n i w).
Proof.
  revert i w. induction n as [|n IH]; intros i w H; simpl; [exact H|].
  destruct (start + i >=? len slides0); [exact H|].
  destruct (slideAt w slides0 (start + i)) as [[r slide]|]; [|exact H].
  destruct (Slide.externalVideoId slide) as [videoId|]; [|apply IH; exact H].
  destruct (_ || _); [apply IH; exact H|].
  destruct (_ || _); [apply IH; exact H|].
  unfold fetchExternalVideoUrl.
  destruct (cachedToken _); apply IH;
    (eapply starting_started; [| | |exact H]; reflexivity).
Qed.

Lemma starting_preloadExternalVideoUrls CONFIG slides0 start count w0 w :
  starting w0 w ->
  starting w0 (preloadExternalVideoUrls CONFIG slides0 start count w).
Proof. apply starting_preloadExternalVideoUrls_loop. Qed.

Lemma starting_preloadUpcomingMedia CONFIG w0 w :
  starting w0 w -> starting w0 (preloadUpcomingMedia CONFIG w).
Proof.
  intros H. unfold preloadUpcomingMedia.
  apply starting_schedule, starting_preloadExternalVideoUrls,
    starting_preloadImages_loop, H.
Qed.

#[local] Hint Resolve starting_preloadUpcomingVideos_loop
  starting_createSlideElement starting_renderOffsets starting_updateSlides
  starting_preloadImages_loop starting_preloadExternalVideoUrls
  starting_preloadUpcomingMedia : starting.

Lemma starting_navigate CONFIG direction w0 w :
  starting w0 w -> starting w0 (navigate CONFIG direction w).
Proof.
  intros H. unfold navigate.
  destruct (_ || _); [exact H|].
  set (w3 := match getActiveVideo _ with Some _ => _ | None => _ end).
  assert (H3 : starting w0 w3).
  { subst w3. destruct (getActiveVideo _) as [[video v]|]; auto with starting. }
  clearbody w3.
  set (w4 := setState _ w3).
  assert (H4 : starting w0 w4) by (subst w4; starting_simple).
  clearbody w4.
  set (w6 := match slideAt _ _ _ with Some _ => _ | None => _ end).
  assert (H6 : starting w0 w6).
  { subst w6. destruct (slideAt _ _ _) as [[r newSlide]|]; [|auto with starting].
    destruct (String.eqb _ _); auto with starting. }
  clearbody w6.
  destruct (shouldPreloadPosts CONFIG _); auto with starting.
Qed.

Lemma starting_loadSubreddit name w0 w :
  starting w0 w -> starting w0 (loadSubreddit name w).
Proof.
  intros H. unfold loadSubreddit. apply starting_schedule.
  eapply starting_same; [| | |exact H]; reflexivity.
Qed.

Lemma starting_onSubredditPosts CONFIG r w0 w :
  starting w0 w -> starting w0 (onSubredditPosts CONFIG r w).
Proof.
  intros H. unfold onSubredditPosts.
  destruct r as [[extracted after']|]; [|auto with starting].
  cbn [allocSlides].
  set (w2 := setState _ _).
  assert (H2 : starting w0 w2) by (subst w2; starting_simple).
  clearbody w2. destruct (len _ =? 0); [exact H2|].
  destruct (firstLoad _); auto with starting.
Qed.

Lemma starting_onMorePosts captured r w0 w :
  starting w0 w -> starting w0 (onMorePosts captured r w).
Proof.
  intros H. unfold onMorePosts.
  destruct r as [[extracted after']|]; [|auto with starting].
  cbn [allocSlides]. starting_simple.
Qed.

(** The two invariants go along [starting]. *)
Lemma starting_urlsResolved w0 w :
  starting w0 w -> urlsResolved w0 -> urlsResolved w.
Proof. intros (Hu & _ & _) H. unfold urlsResolved. rewrite Hu. exact H. Qed.

Lemma starting_marksPending w0 w :
  starting w0 w -> marksPending w0 -> marksPending w.
Proof.
  intros (_ & Hp & Hm) H id Hin. specialize (Hp id).
  destruct (Hm id Hin) as [Hin0|Hlt]; [|lia].
  specialize (H id Hin0). lia.
Qed.

(** What the settling of a resolution writes. *)
Lemma onResolved_writes id resolver url w :
  let w' := onResolved id resolver url w in
  preloadingInProgress (store w') = preloadingInProgress (store w) ∖ {[id]}
  /\ preloadedVideoUrls (store w') =
       match url with
       | Some u => if truthy u then <[id := u]> (preloadedVideoUrls (store w))
                   else preloadedVideoUrls (store w)
       | None => preloadedVideoUrls (store w)
       end
  /\ pending w' = pending w
  /\ requests w' = requests w
  /\ media w' = media w.
Proof.
  destruct resolver as [|data video position]; cbn [onResolved];
    unfold onPreloaderResolved, onRendererResolved.
  - destruct url as [u|]; [destruct (truthy u)|]; repeat split.
  - destruct url as [u|]; [destruct (truthy u)|]; [destruct (isActive position)| |];
      repeat split.
Qed.

Lemma resumeFetch_keeps CONFIG id stage r w result w1 :
  resumeFetch CONFIG id stage r w = Some (result, w1) ->
  store w1 = store w /\ pending w1 = pending w.
Proof.
  unfold resumeFetch, withToken, tokenFromResponse. intros H.
  destruct stage as [|tok|], r as [r|]; try discriminate.
  - destruct (readJson CONFIG r) as [data|].
    + destruct (otruthy (token data)).
      * destruct (token data) as [t|].
        -- destruct (truthy t); injection H as _ <-; split; reflexivity.
        -- injection H as _ <-; split; reflexivity.
      * injection H as _ <-; split; reflexivity.
    + injection H as _ <-; split; reflexivity.
  - destruct (truthy tok); injection H as _ <-; split; reflexivity.
  - injection H as _ <-; split; reflexivity.
Qed.

(** The resolutions left when a task leaves the queue. *)
Lemma resolutionsOf_delete id ts i t :
  ts !! i = Some t ->
  resolutionsOf id ts =
    (resolutionsOf id (delete i ts)
     + match t with
       | Resolution id' _ _ => if String.eqb id id' then 1 else 0
       | _ => 0
       end)%nat.
Proof.
  revert i. induction ts as [|t0 ts IH]; intros i Hi; [discriminate|].
  destruct i as [|i]; cbn in Hi.
  - injection Hi as ->. clear IH. cbn [delete list_delete].
    destruct t; cbn [resolutionsOf]; try lia.
    destruct (String.eqb id id0); lia.
  - cbn [delete list_delete]. specialize (IH i Hi).
    change (list_delete i ts) with (delete i ts).
    destruct t0; cbn [resolutionsOf]; try exact IH.
    destruct (String.eqb id id0); rewrite IH; reflexivity.
Qed.

Lemma task_cases (t : Task) :
  (exists id stage resolver, t = Resolution id stage resolver)
  \/ (forall id stage resolver, t <> Resolution id stage resolver).
Proof. destruct t; try (right; discriminate). left. eauto. Qed.

(** The handlers of the tasks that are not resolutions. *)
Lemma starting_runTask CONFIG t o w w' :
  (forall id stage resolver, t <> Resolution id stage resolver) ->
  runTask CONFIG t o w = Some w' -> starting w w'.
Proof.
  intros Hother Hrun.
  destruct t as [|slides0 cur|video|id stage resolver|captured|],
           o as [| |fulfilled|r|r];
    cbn [runTask] in Hrun; try discriminate; try injection Hrun as <-.
  - auto with starting.
  - unfold preloadUpcomingVideos. auto with starting.
  - destruct fulfilled; auto with starting.
  - exfalso. exact (Hother id stage resolver eq_refl).
  - exfalso. exact (Hother id stage resolver eq_refl).
  - apply starting_onMorePosts, starting_refl.
  - apply starting_onSubredditPosts, starting_refl.
Qed.

(** The events that are not the running of a task. *)
Lemma starting_step CONFIG w ev :
  (forall i o, ev <> Run i o) -> starting w (step CONFIG w ev).
Proof.
  intros Hev. destruct ev as [direction|name|i o| |e|e ct b|t]; cbn [step].
  - apply starting_navigate, starting_refl.
  - apply starting_loadSubreddit, starting_refl.
  - exfalso. exact (Hev i o eq_refl).
  - destruct (bufferMonitorInterval w); auto with starting.
  - auto with starting.
  - auto with starting.
  - auto with starting.
Qed.

Lemma step_marksPending CONFIG w ev :
  marksPending w -> marksPending (step CONFIG w ev).
Proof.
  intros H. destruct ev as [direction|name|i o| |e|e ct b|t];
    try (eapply starting_marksPending; [|exact H];
         apply starting_step; discriminate).
  cbn [step]. destruct (pending w !! i) as [task|] eqn:Hi; [|exact H].
  destruct (runTask CONFIG task o _) as [w'|] eqn:E; [|exact H].
  set (wd := set_pending (delete i (pending w)) w) in *.
  destruct (task_cases task) as [(id & stage & resolver & ->)|Hno].
  - assert (Hres : exists r, resumeResolution CONFIG id stage resolver r wd = Some w').
    { destruct o; cbn [runTask] in E; try discriminate; eauto. }
    destruct Hres as [r Hres]. unfold resumeResolution in Hres.
    destruct (resumeFetch CONFIG id stage r wd) as [[[stage'|url] w1]|] eqn:Hf;
      try discriminate; injection Hres as <-;
      destruct (resumeFetch_keeps _ _ _ _ _ _ _ Hf) as [Hst Hpe].
    + intros id' Hin. cbn [schedule store set_pending pending] in *.
      rewrite Hst in Hin. specialize (H id' Hin).
      rewrite (resolutionsOf_delete id' (pending w) i _ Hi) in H.
      rewrite Hpe, resolutionsOf_app. subst wd. cbn [pending set_pending].
      cbn [resolutionsOf]. destruct (String.eqb id' id); lia.
    + destruct (onResolved_writes id resolver url w1) as (Hm & _ & Hp & _).
      intros id' Hin. rewrite Hm, Hst in Hin. rewrite Hp, Hpe.
      apply elem_of_difference in Hin as [Hin Hne].
      rewrite elem_of_singleton in Hne.
      specialize (H id' Hin).
      rewrite (resolutionsOf_delete id' (pending w) i _ Hi) in H.
      subst wd. cbn [pending set_pending].
      destruct (String.eqb_spec id' id) as [->|_]; [contradiction|lia].
  - eapply starting_marksPending; [exact (starting_runTask _ _ _ _ _ Hno E)|].
    intros id Hin. specialize (H id Hin).
    rewrite (resolutionsOf_delete id (pending w) i _ Hi) in H.
    subst wd. cbn [pending set_pending].
    destruct task; try lia. exfalso. eapply Hno. reflexivity.
Qed.

Lemma step_urlsResolved CONFIG w ev :
  urlsResolved w -> urlsResolved (step CONFIG w ev).
Proof.
  intros H. destruct ev as [direction|name|i o| |e|e ct b|t];
    try (eapply starting_urlsResolved; [|exact H];
         apply starting_step; discriminate).
  cbn [step]. destruct (pending w !! i) as [task|] eqn:Hi; [|exact H].
  destruct (runTask CONFIG task o _) as [w'|] eqn:E; [|exact H].
  set (wd := set_pending (delete i (pending w)) w) in *.
  destruct (task_cases task) as [(id & stage & resolver & ->)|Hno].
  - assert (Hres : exists r, resumeResolution CONFIG id stage resolver r wd = Some w').
    { destruct o; cbn [runTask] in E; try discriminate; eauto. }
    destruct Hres as [r Hres]. unfold resumeResolution in Hres.
    destruct (resumeFetch CONFIG id stage r wd) as [[[stage'|url] w1]|] eqn:Hf;
      try discriminate; injection Hres as <-;
      destruct (resumeFetch_keeps _ _ _ _ _ _ _ Hf) as [Hst Hpe].
    + intros id' u. cbn [schedule store set_pending]. rewrite Hst. apply H.
    + destruct (onResolved_writes id resolver url w1) as (_ & Hu & _).
      intros id' u. rewrite Hu, Hst. subst wd. cbn [store set_pending].
      destruct url as [u0|]; [|apply H].
      destruct (truthy u0) eqn:Htruthy; [|apply H].
      destruct (decide (id' = id)) as [->|Hne].
      * rewrite lookup_insert_eq. congruence.
      * rewrite lookup_insert_ne by congruence. apply H.
  - eapply starting_urlsResolved; [exact (starting_runTask _ _ _ _ _ Hno E)|].
    exact H.
Qed.

(** X11.  When a resolution of an id settles, for either of its two
    callers, the id is no longer marked in flight, and the lookup of the
    id returns the URL that was resolved when it is non-empty, and what
    it returned before otherwise; the marks and the lookups of the other
    ids, the queue and the requests are untouched. *)
Theorem resolution_settles (id : string) (resolver : Resolver)
  (url : option string) (w : World) :
  let w' := onResolved id resolver url w in
  (id ∉ preloadingInProgress (store w'))
  /\ (forall id', id' <> id ->
        (id' ∈ preloadingInProgress (store w')
         <-> id' ∈ preloadingInProgress (store w))
        /\ getPreloadedVideoUrl id' w' = getPreloadedVideoUrl id' w)
  /\ getPreloadedVideoUrl id w' =
       (if otruthy url then url else getPreloadedVideoUrl id w)
  /\ pending w' = pending w
  /\ requests w' = requests w.
Proof.
  destruct (onResolved_writes id resolver url w) as (Hm & Hu & Hp & Hr & _).
  cbv zeta. unfold getPreloadedVideoUrl. rewrite Hm, Hu.
  split; [|split; [|split; [|split; assumption]]].
  - intros [_ Hne]%elem_of_difference. apply Hne, elem_of_singleton. reflexivity.
  - intros id' Hne. split.
    + rewrite elem_of_difference, elem_of_singleton. tauto.
    + destruct url as [u|]; [|reflexivity].
      destruct (truthy u); [|reflexivity].
      rewrite lookup_insert_ne by congruence. reflexivity.
  - destruct url as [u|]; [|reflexivity]. cbn [otruthy].
    destruct (truthy u) eqn:Htruthy; [|reflexivity].
    rewrite lookup_insert_eq, Htruthy. reflexivity.
Qed.

(** X12.  No mark is left behind: if every id marked in flight has a
    resolution that has not settled, this is so after any sequence of
    events. *)
Theorem marks_have_resolutions (CONFIG : Config) (w : World)
  (evs : list Event) :
  marksPending w -> marksPending (run CONFIG w evs).
Proof.
  unfold run. revert w. induction evs as [|ev evs IH]; intros w H;
    cbn [fold_left]; [exact H|].
  apply IH, step_marksPending, H.
Qed.

(** X13.  If the resolved URLs are non-empty, they stay so through any
    sequence of events, and [getPreloadedVideoUrl] returns what the map
    holds. *)
Theorem urls_never_empty (CONFIG : Config) (w : World) (evs : list Event) :
  urlsResolved w ->
  urlsResolved (run CONFIG w evs)
  /\ forall id,
       getPreloadedVideoUrl id (run CONFIG w evs)
       = preloadedVideoUrls (store (run CONFIG w evs)) !! id.
Proof.
  intros H.
  assert (Hrun : urlsResolved (run CONFIG w evs)).
  { unfold run. revert w H. induction evs as [|ev evs IH]; intros w H;
      cbn [fold_left]; [exact H|].
    apply IH, step_urlsResolved, H. }
  split; [exact Hrun|]. intros id. unfold getPreloadedVideoUrl.
  destruct (preloadedVideoUrls _ !! id) as [u|] eqn:Hu; [|reflexivity].
  rewrite (Hrun id u Hu). reflexivity.
Qed.

(** ** What rendering and preloading write *)

Lemma morePostsOf_app ts ts' :
  morePostsOf (ts ++ ts') = (morePostsOf ts + morePostsOf ts')%nat.
Proof.
  induction ts as [|t ts IH]; [reflexivity|].
  destruct t; cbn [app morePostsOf]; rewrite IH; reflexivity.
Qed.

Lemma set_collections_id (s : AppState) :
  set_preloadedVideos (preloadedVideos s)
    (set_preloadedImages (preloadedImages s)
       (set_preloadingInProgress (preloadingInProgress s) s)) = s.
Proof. destruct s. reflexivity. Qed.

Lemma onlyPreloads_refl w : onlyPreloads w w.
Proof. split; [apply set_collections_id|]. repeat split. Qed.

Lemma onlyPreloads_next w0 w w' :
  (forall a b c,
     set_preloadedVideos a (set_preloadedImages b
       (set_preloadingInProgress c (store w')))
     = set_preloadedVideos a (set_preloadedImages b
         (set_preloadingInProgress c (store w)))) ->
  bufferMonitorInterval w' = bufferMonitorInterval w ->
  media w' = media w ->
  now w' = now w ->
  morePostsOf (pending w') = morePostsOf (pending w) ->
  onlyPreloads w0 w -> onlyPreloads w0 w'.
Proof.
  intros Hs Hb Hm Hn Hp (Hs0 & Hb0 & Hm0 & Hn0 & Hp0).
  split; [rewrite Hs; exact Hs0|]. repeat split; congruence.
Qed.

Lemma onlyPreloads_trans w0 w1 w2 :
  onlyPreloads w0 w1 -> onlyPreloads w1 w2 -> onlyPreloads w0 w2.
Proof.
  intros (Hs1 & Hb1 & Hm1 & Hn1 & Hp1) (Hs2 & Hb2 & Hm2 & Hn2 & Hp2).
  split; [|repeat split; congruence].
  rewrite <- Hs1 at 4. rewrite <- Hs2. reflexivity.
Qed.

Ltac onlyPreloads_simple :=
  intros; eapply onlyPreloads_next; [| | | | |eassumption];
  try reflexivity; try (intros; reflexivity).

Lemma onlyPreloads_updVideo w0 f e w :
  onlyPreloads w0 w -> onlyPreloads w0 (updVideo f e w).
Proof. onlyPreloads_simple. Qed.

Lemma onlyPreloads_updSlide w0 f r w :
  onlyPreloads w0 w -> onlyPreloads w0 (updSlide f r w).
Proof. onlyPreloads_simple. Qed.

Lemma onlyPreloads_issue w0 r w : onlyPreloads w0 w -> onlyPreloads w0 (issue r w).
Proof. onlyPreloads_simple. Qed.

Lemma onlyPreloads_set_slideshow w0 x w :
  onlyPreloads w0 w -> onlyPreloads w0 (set_slideshow x w).
Proof. onlyPreloads_simple. Qed.

Lemma onlyPreloads_set_videoElems w0 x w :
  onlyPreloads w0 w -> onlyPreloads w0 (set_videoElems x w).
Proof. onlyPreloads_simple. Qed.

Lemma onlyPreloads_set_cache w0 x w :
  onlyPreloads w0 w -> onlyPreloads w0 (mutate (set_preloadedVideos x) w).
Proof. onlyPreloads_simple. Qed.

Lemma onlyPreloads_set_images w0 x w :
  onlyPreloads w0 w -> onlyPreloads w0 (mutate (set_preloadedImages x) w).
Proof. onlyPreloads_simple. Qed.

Lemma onlyPreloads_set_inProgress w0 x w :
  onlyPreloads w0 w -> onlyPreloads w0 (mutate (set_preloadingInProgress x) w).
Proof. onlyPreloads_simple. Qed.

(** The tasks of the code in question: timers, [play()] promises and
    resolutions. *)
Lemma onlyPreloads_schedule w0 t w :
  (forall slides0, t <> MorePosts slides0) ->
  onlyPreloads w0 w -> onlyPreloads w0 (schedule t w).
Proof.
  intros Ht H. eapply onlyPreloads_next; [| | | | |exact H];
    try reflexivity; try (intros; reflexivity).
  cbn [schedule pending set_pending]. rewrite morePostsOf_app.
  destruct t; cbn [morePostsOf]; try lia.
  exfalso. eapply Ht. reflexivity.
Qed.

Lemma onlyPreloads_schedule_resolution w0 id stage resolver w :
  onlyPreloads w0 w -> onlyPreloads w0 (schedule (Resolution id stage resolver) w).
Proof. apply onlyPreloads_schedule. discriminate. Qed.

Lemma onlyPreloads_schedule_play w0 e w :
  onlyPreloads w0 w -> onlyPreloads w0 (schedule (PlayThenPause e) w).
Proof. apply onlyPreloads_schedule. discriminate. Qed.

Lemma onlyPreloads_schedule_monitor w0 w :
  onlyPreloads w0 w -> onlyPreloads w0 (schedule TimeoutStartBufferMonitoring w).
Proof. apply onlyPreloads_schedule. discriminate. Qed.

Lemma onlyPreloads_schedule_videos w0 slides0 cur w :
  onlyPreloads w0 w ->
  onlyPreloads w0 (schedule (TimeoutPreloadUpcomingVideos slides0 cur) w).
Proof. apply onlyPreloads_schedule. discriminate. Qed.

Create HintDb onlyPreloads.
#[local] Hint Resolve onlyPreloads_refl onlyPreloads_updVideo
  onlyPreloads_updSlide onlyPreloads_issue onlyPreloads_set_slideshow
  onlyPreloads_set_videoElems onlyPreloads_set_cache onlyPreloads_set_images
  onlyPreloads_set_inProgress onlyPreloads_schedule_resolution
  onlyPreloads_schedule_play onlyPreloads_schedule_monitor
  onlyPreloads_schedule_videos : onlyPreloads.

Lemma onlyPreloads_getPreloadedVideo w0 k w :
  onlyPreloads w0 w -> onlyPreloads w0 (snd (getPreloadedVideo k w)).
Proof.
  intros H. unfold getPreloadedVideo.
  destruct (preloadedVideos (store w) !! k); cbn [snd]; auto with onlyPreloads.
Qed.

Lemma onlyPreloads_cleanupOldPreloads CONFIG cur w0 w :
  onlyPreloads w0 w -> onlyPreloads w0 (cleanupOldPreloads CONFIG cur w).
Proof.
  intros H.
  pose proof (cleanup_list CONFIG cur w
                (map_to_list (preloadedVideos (store w)))) as (Hsame & _).
  rewrite <- cleanupOldPreloads_foldr in Hsame.
  unfold sameButCache in Hsame.
  set (r := cleanupOldPreloads CONFIG cur w) in *.
  eapply onlyPreloads_next; [| | | | |exact H].
  - intros a b c.
    pose proof (f_equal (fun x => set_preloadedVideos a (set_preloadedImages b
                  (set_preloadingInProgress c (store x)))) Hsame) as Hs.
    exact Hs.
  - exact (f_equal bufferMonitorInterval Hsame).
  - exact (f_equal media Hsame).
  - exact (f_equal now Hsame).
  - exact (f_equal (fun x => morePostsOf (pending x)) Hsame).
Qed.

Lemma onlyPreloads_fetchExternalVideoUrl CONFIG w0 id w :
  onlyPreloads w0 w -> onlyPreloads w0 (snd (fetchExternalVideoUrl CONFIG id w)).
Proof.
  intros H. unfold fetchExternalVideoUrl.
  destruct (cachedToken w); cbn [snd]; auto with onlyPreloads.
Qed.

Lemma onlyPreloads_preloadVideoElement CONFIG slideData slideIndex videoUrl w0 w :
  onlyPreloads w0 w ->
  onlyPreloads w0 (preloadVideoElement CONFIG slideData slideIndex videoUrl w).
Proof.
  intros H. unfold preloadVideoElement.
  destruct (bool_decide _); [exact H|].
  destruct (_ >=? _); [exact H|].
  destruct (preloadingPaused (store w)); [exact H|].
  cbn [newVideo]. destruct (slideIndex =? _); unfold playThenPause;
    auto 6 with onlyPreloads.
Qed.

#[local] Hint Resolve onlyPreloads_getPreloadedVideo
  onlyPreloads_cleanupOldPreloads onlyPreloads_fetchExternalVideoUrl
  onlyPreloads_preloadVideoElement : onlyPreloads.

Lemma onlyPreloads_preloadUpcomingVideos_loop CONFIG slides0 cur n i w0 w :
  onlyPreloads w0 w ->
  onlyPreloads w0 (preloadUpcomingVideos_loop CONFIG slides0 cur n i w).
Proof.
  revert i w. induction n as [|n IH]; intros i w H; simpl; [exact H|].
  destruct (cur + i >=? len slides0); [exact H|].
  destruct (slideAt w slides0 (cur + i)) as [[r slide]|]; [|exact H].
  destruct (negb _); [apply IH; exact H|].
  repeat case_match; apply IH; auto with onlyPreloads.
Qed.

Lemma onlyPreloads_createSlideElement CONFIG w0 data position slideIndex w :
  onlyPreloads w0 w ->
  onlyPreloads w0 (snd (createSlideElement CONFIG data position slideIndex w)).
Proof.
  intros H. unfold createSlideElement.
  destruct (slideObjs w !! data) as [d|]; [|exact H].
  destruct (String.eqb (Slide.type d) "video"); [|exact H].
  pose proof (onlyPreloads_getPreloadedVideo w0 slideIndex w H) as H1.
  destruct (getPreloadedVideo slideIndex w) as [[e|] w1]; cbn [snd] in H1.
  - destruct (isActive position); cbn [snd]; auto with onlyPreloads.
  - cbn [newVideo].
    set (e := length (videoElems w1)).
    set (w2 := set_videoElems _ w1).
    assert (H2 : onlyPreloads w0 w2) by (subst w2; auto with onlyPreloads).
    clearbody w2.
    match goal with
    | |- context [match ?x with Some id => _ | None => updVideo _ e w2 end] =>
        set (external := x)
    end.
    set (w3 := match external with Some _ => _ | None => _ end).
    assert (H3 : onlyPreloads w0 w3).
    { subst w3. destruct external as [id|]; [|auto with onlyPreloads].
      destruct (getPreloadedVideoUrl id w2); [auto with onlyPreloads|].
      set (w'' := updVideo _ e _).
      assert (H'' : onlyPreloads w0 w'') by (subst w''; auto with onlyPreloads).
      pose proof (onlyPreloads_fetchExternalVideoUrl CONFIG w0 id w'' H'') as Hf.
      destruct (fetchExternalVideoUrl CONFIG id w'') as [stage w''']; cbn [snd] in Hf.
      auto with onlyPreloads. }
    clearbody w3. cbn [snd].
    destruct (isActive position && _); cbn [snd]; auto with onlyPreloads.
Qed.

Lemma onlyPreloads_renderOffsets CONFIG slides0 cur offsets w0 w :
  onlyPreloads w0 w -> onlyPreloads w0 (renderOffsets CONFIG slides0 cur offsets w).
Proof.
  revert w. induction offsets as [|[offset position] rest IH]; intros w H;
    simpl; [exact H|].
  destruct ((cur + offset <? 0) || (cur + offset >=? len slides0));
    [apply IH; exact H|].
  destruct (slides0 !! Z.to_nat (cur + offset)) as [data|]; [|exact H].
  pose proof (onlyPreloads_createSlideElement CONFIG w0 data position
                (cur + offset) w H) as H1.
  destruct (createSlideElement CONFIG data position (cur + offset) w)
    as [slide w1]; cbn [snd] in H1.
  apply IH. destruct slide, (slideshow w1); auto with onlyPreloads.
Qed.

Lemma onlyPreloads_updateSlides CONFIG w0 w :
  onlyPreloads w0 w -> onlyPreloads w0 (updateSlides CONFIG w).
Proof.
  intros H. unfold updateSlides. destruct (slideshow w); [|exact H].
  apply onlyPreloads_renderOffsets. auto with onlyPreloads.
Qed.

Lemma onlyPreloads_preloadImages_loop CONFIG slides0 cur n i w0 w :
  onlyPreloads w0 w -> onlyPreloads w0 (preloadImages_loop CONFIG slides0 cur n i w).
Proof.
  revert i w. induction n as [|n IH]; intros i w H; simpl; [exact H|].
  destruct (cur + i >=? len slides0); [exact H|].
  destruct (slideAt w slides0 (cur + i)) as [[r data]|]; [|exact H].
  apply IH. destruct (_ && _); auto with onlyPreloads.
Qed.

Lemma onlyPreloads_preloadExternalVideoUrls_loop CONFIG slides0 start n i w0 w :
  onlyPreloads w0 w ->
  onlyPreloads w0 (preloadExternalVideoUrls_loop CONFIG slides0 start n i w).
Proof.
  revert i w. induction n as [|n IH]; intros i w H; simpl; [exact H|].
  destruct (start + i >=? len slides0); [exact H|].
  destruct (slideAt w slides0 (start + i)) as [[r slide]|]; [|exact H].
  destruct (Slide.externalVideoId slide) as [videoId|]; [|apply IH; exact H].
  destruct (_ || _); [apply IH; exact H|].
  destruct (_ || _); [apply IH; exact H|].
  set (w1 := mutate _ w).
  assert (H1 : onlyPreloads w0 w1) by (subst w1; auto with onlyPreloads).
  pose proof (onlyPreloads_fetchExternalVideoUrl CONFIG w0 videoId w1 H1) as Hf.
  destruct (fetchExternalVideoUrl CONFIG videoId w1) as [stage w2]; cbn [snd] in Hf.
  apply IH. auto with onlyPreloads.
Qed.

Lemma onlyPreloads_preloadUpcomingMedia CONFIG w0 w :
  onlyPreloads w0 w -> onlyPreloads w0 (preloadUpcomingMedia CONFIG w).
Proof.
  intros H. unfold preloadUpcomingMedia, preloadExternalVideoUrls.
  apply onlyPreloads_schedule_videos,
    onlyPreloads_preloadExternalVideoUrls_loop,
    onlyPreloads_preloadImages_loop, H.
Qed.

(** What [onlyPreloads] says of the other keys of the store. *)
Lemma onlyPreloads_reads w0 w :
  onlyPreloads w0 w ->
  slides (store w) = slides (store w0)
  /\ currentIndex (store w) = currentIndex (store w0)
  /\ after (store w) = after (store w0)
  /\ loading (store w) = loading (store w0)
  /\ preloadingPaused (store w) = preloadingPaused (store w0)
  /\ isZoomed (store w) = isZoomed (store w0)
  /\ panX (store w) = panX (store w0)
  /\ panY (store w) = panY (store w0)
  /\ isPanning (store w) = isPanning (store w0)
  /\ preloadedVideoUrls (store w) = preloadedVideoUrls (store w0).
Proof.
  intros (Hs & _). repeat split.
  - exact (f_equal slides Hs).
  - exact (f_equal currentIndex Hs).
  - exact (f_equal after Hs).
  - exact (f_equal loading Hs).
  - exact (f_equal preloadingPaused Hs).
  - exact (f_equal isZoomed Hs).
  - exact (f_equal panX Hs).
  - exact (f_equal panY Hs).
  - exact (f_equal isPanning Hs).
  - exact (f_equal preloadedVideoUrls Hs).
Qed.

(** X14.  [updateSlides], [preloadUpcomingMedia], [cleanupOldPreloads] and
    [preloadUpcomingVideos] write to three keys of the store at most,
    the preload collections; they leave the monitor, the token and the
    clock alone, and they queue no request for a page. *)
Theorem rendering_writes_preloads_only (CONFIG : Config) (w : World)
  (slides0 : list SlideRef) (cur : Z) :
  onlyPreloads w (updateSlides CONFIG w)
  /\ onlyPreloads w (preloadUpcomingMedia CONFIG w)
  /\ onlyPreloads w (cleanupOldPreloads CONFIG cur w)
  /\ onlyPreloads w (preloadUpcomingVideos CONFIG slides0 cur w).
Proof.
  split; [apply onlyPreloads_updateSlides, onlyPreloads_refl|].
  split; [apply onlyPreloads_preloadUpcomingMedia, onlyPreloads_refl|].
  split; [apply onlyPreloads_cleanupOldPreloads, onlyPreloads_refl|].
  apply onlyPreloads_preloadUpcomingVideos_loop, onlyPreloads_refl.
Qed.

(** ** A move *)

(** The world in which [navigate] decides on the next page: the state of
    the move, and what rendering and preloading made of it. *)
Lemma navigate_stages (CONFIG : Config) (direction : Z) (w : World) :
  let newIdx := currentIndex (store w) + direction in
  (newIdx <? 0) || (newIdx >=? len (slides (store w))) = false ->
  exists w4 w8,
    navigate CONFIG direction w =
      (if shouldPreloadPosts CONFIG w8 then loadMorePosts w8 else w8)
    /\ store w4 = set_preloadingPaused false (set_currentIndex newIdx
                    (store (resetZoom w)))
    /\ bufferMonitorInterval w4 = false
    /\ media w4 = media w /\ now w4 = now w
    /\ pending w4 = pending w
    /\ onlyPreloads w4 w8
    /\ (forall k, k < newIdx - CLEANUP_THRESHOLD CONFIG ->
          preloadedVideos (store w8) !! k = None).
Proof.
  intros newIdx Hin. unfold navigate. fold newIdx. rewrite Hin.
  set (w2 := stopBufferMonitoring (resetZoom w)).
  assert (H2 : store w2 = store (resetZoom w) /\ bufferMonitorInterval w2 = false
               /\ media w2 = media w /\ now w2 = now w /\ pending w2 = pending w).
  { subst w2. unfold stopBufferMonitoring.
    destruct (bufferMonitorInterval (resetZoom w)) eqn:E; repeat split; exact E. }
  clearbody w2. destruct H2 as (Hs2 & Hb2 & Hm2 & Hn2 & Hp2).
  set (w3 := match getActiveVideo w2 with Some _ => _ | None => _ end).
  assert (H3 : store w3 = store w2 /\ bufferMonitorInterval w3 = false
               /\ media w3 = media w /\ now w3 = now w /\ pending w3 = pending w).
  { subst w3. destruct (getActiveVideo w2) as [[video v]|]; repeat split; assumption. }
  clearbody w3. destruct H3 as (Hs3 & Hb3 & Hm3 & Hn3 & Hp3).
  set (w4 := setState _ w3).
  set (w6 := match slideAt _ _ _ with Some _ => _ | None => _ end).
  set (w8 := cleanupOldPreloads CONFIG newIdx (preloadUpcomingMedia CONFIG w6)).
  exists w4, w8. split; [reflexivity|].
  split; [subst w4; cbn [setState store set_store]; rewrite Hs3, Hs2; reflexivity|].
  split; [exact Hb3|]. split; [exact Hm3|]. split; [exact Hn3|].
  split; [exact Hp3|]. split.
  - assert (H6 : onlyPreloads w4 w6).
    { subst w6. pose proof (onlyPreloads_updateSlides CONFIG w4 w4
                              (onlyPreloads_refl w4)) as H5.
      destruct (slideAt _ _ _) as [[r newSlide]|]; [|exact H5].
      destruct (String.eqb _ _); auto with onlyPreloads. }
    subst w8. apply onlyPreloads_cleanupOldPreloads,
                onlyPreloads_preloadUpcomingMedia, H6.
  - intros k Hk. subst w8. rewrite cleanupOldPreloads_lookup.
    rewrite bool_decide_true by exact Hk. reflexivity.
Qed.

(** X15.  After a move, zoom and pan are reset, preloading is not paused,
    the buffer monitor is stopped (the timer of the new slide starts it
    again), and the cache holds no entry more than [CLEANUP_THRESHOLD]
    behind the new position; the resolved URLs and the token are as
    before. *)
Theorem navigate_settles_view (CONFIG : Config) (direction : Z) (w : World) :
  let newIdx := currentIndex (store w) + direction in
  let w' := navigate CONFIG direction w in
  0 <= newIdx < len (slides (store w)) ->
  isZoomed (store w') = false
  /\ panX (store w') = 0 /\ panY (store w') = 0
  /\ isPanning (store w') = false
  /\ preloadingPaused (store w') = false
  /\ bufferMonitorInterval w' = false
  /\ (forall k, k < newIdx - CLEANUP_THRESHOLD CONFIG ->
        preloadedVideos (store w') !! k = None)
  /\ preloadedVideoUrls (store w') = preloadedVideoUrls (store w)
  /\ media w' = media w.
Proof.
  intros newIdx w' Hrange. subst w'.
  assert (Hin : (newIdx <? 0) || (newIdx >=? len (slides (store w))) = false).
  { apply orb_false_iff. split; [apply Z.ltb_ge; lia|].
    rewrite Z.geb_leb. apply Z.leb_gt. lia. }
  destruct (navigate_stages CONFIG direction w Hin)
    as (w4 & w8 & -> & Hs4 & Hb4 & Hm4 & _ & _ & H8 & Hclean).
  destruct (onlyPreloads_reads w4 w8 H8)
    as (_ & _ & _ & _ & Hpaused & Hz & Hx & Hy & Hp & Hu).
  destruct H8 as (_ & Hb8 & Hm8 & _ & _).
  rewrite Hs4 in Hpaused, Hz, Hx, Hy, Hp, Hu.
  assert (Hsame : forall w9, w9 = (if shouldPreloadPosts CONFIG w8
                                   then loadMorePosts w8 else w8) ->
            isZoomed (store w9) = isZoomed (store w8)
            /\ panX (store w9) = panX (store w8)
            /\ panY (store w9) = panY (store w8)
            /\ isPanning (store w9) = isPanning (store w8)
            /\ preloadingPaused (store w9) = preloadingPaused (store w8)
            /\ bufferMonitorInterval w9 = bufferMonitorInterval w8
            /\ preloadedVideos (store w9) = preloadedVideos (store w8)
            /\ preloadedVideoUrls (store w9) = preloadedVideoUrls (store w8)
            /\ media w9 = media w8).
  { intros w9 ->. destruct (shouldPreloadPosts CONFIG w8); repeat split. }
  destruct (Hsame _ eq_refl) as (-> & -> & -> & -> & -> & -> & -> & -> & ->).
  rewrite Hz, Hx, Hy, Hp, Hpaused, Hb8, Hb4, Hu, Hm8, Hm4.
  repeat split. exact Hclean.
Qed.

Lemma navigate_page (CONFIG : Config) (direction : Z) (w : World) :
  let w' := navigate CONFIG direction w in
  morePostsOf (pending w') =
    (morePostsOf (pending w)
     + (if asksForPage CONFIG direction w then 1 else 0))%nat
  /\ loading (store w') = loading (store w) || asksForPage CONFIG direction w
  /\ after (store w') = after (store w).
Proof.
  cbv zeta. unfold asksForPage.
  destruct ((currentIndex (store w) + direction <? 0)
            || (currentIndex (store w) + direction >=? len (slides (store w))))
    eqn:Hin.
  - unfold navigate. rewrite Hin. cbn [negb andb].
    rewrite orb_false_r, Nat.add_0_r. repeat split.
  - destruct (navigate_stages CONFIG direction w Hin)
      as (w4 & w8 & -> & Hs4 & _ & _ & _ & Hp4 & H8 & _).
    destruct (onlyPreloads_reads w4 w8 H8) as (Hs & Hi & Ha & Hl & _).
    destruct H8 as (_ & _ & _ & _ & Hp8).
    rewrite Hs4 in Hs, Hi, Ha, Hl.
    cbn [resetZoom setState store set_store slides currentIndex after loading
         set_preloadingPaused set_currentIndex set_isPanning set_panY set_panX
         set_isZoomed] in Hs, Hi, Ha, Hl.
    unfold shouldPreloadPosts. rewrite Hs, Hi, Ha, Hl, Hp4 in *.
    cbn [negb andb].
    destruct ((len (slides (store w)) - (currentIndex (store w) + direction)
               <? PRELOAD_THRESHOLD CONFIG)
              && bool_decide (after (store w) <> None)
              && negb (loading (store w))) eqn:Hask.
    + unfold loadMorePosts.
      cbn [schedule setState store set_store pending set_pending loading after
           set_loading].
      rewrite morePostsOf_app, Hp8. cbn [morePostsOf].
      rewrite orb_true_r. repeat split. exact Ha.
    + rewrite Hp8, Nat.add_0_r, orb_false_r. repeat split; assumption.
Qed.

(** X16.  [navigate] asks for the next page exactly when it moves, fewer
    than [PRELOAD_THRESHOLD] slides are left from the new position, there
    is a pagination token and no load is under way; it then sets
    [loading], and it never changes the token.  So while a load is under
    way no sequence of moves asks for a page, and any sequence of moves
    asks for one page at most. *)
Theorem navigate_asks_for_page (CONFIG : Config) (direction : Z) (w : World) :
  let w' := navigate CONFIG direction w in
  morePostsOf (pending w') =
    (morePostsOf (pending w)
     + (if asksForPage CONFIG direction w then 1 else 0))%nat
  /\ loading (store w') = loading (store w) || asksForPage CONFIG direction w
  /\ after (store w') = after (store w)
  /\ (forall directions,
        loading (store w) = true ->
        morePostsOf (pending (navigateAll CONFIG w directions))
        = morePostsOf (pending w))
  /\ (forall directions,
        (morePostsOf (pending (navigateAll CONFIG w directions))
         <= S (morePostsOf (pending w)))%nat).
Proof.
  destruct (navigate_page CONFIG direction w) as (Hp & Hl & Ha).
  split; [exact Hp|]. split; [exact Hl|]. split; [exact Ha|].
  assert (Hloading : forall directions w0,
            loading (store w0) = true ->
            morePostsOf (pending (navigateAll CONFIG w0 directions))
            = morePostsOf (pending w0)).
  { intros directions. induction directions as [|d ds IH]; intros w0 Hw0;
      [reflexivity|].
    cbn [navigateAll fold_left]. destruct (navigate_page CONFIG d w0) as (Hp0 & Hl0 & _).
    unfold asksForPage in Hp0, Hl0. rewrite Hw0 in Hp0, Hl0.
    rewrite andb_false_r in Hp0. cbn [orb] in Hl0.
    change (fold_left (fun w1 d0 => navigate CONFIG d0 w1) ds (navigate CONFIG d w0))
      with (navigateAll CONFIG (navigate CONFIG d w0) ds).
    rewrite (IH _ Hl0), Hp0. lia. }
  split; [intros directions; apply Hloading|].
  clear Hp Hl Ha. intros directions. revert w.
  induction directions as [|d ds IH]; intros w; [cbn; lia|].
  cbn [navigateAll fold_left].
  change (fold_left (fun w1 d0 => navigate CONFIG d0 w1) ds (navigate CONFIG d w))
    with (navigateAll CONFIG (navigate CONFIG d w) ds).
  destruct (navigate_page CONFIG d w) as (Hp & Hl & _).
  destruct (asksForPage CONFIG d w).
  - rewrite orb_true_r in Hl. rewrite (Hloading ds _ Hl), Hp. lia.
  - specialize (IH (navigate CONFIG d w)). rewrite Hp in IH. lia.
Qed.

(** ** Resetting the store *)

Lemma resetUpdates_lookup {V : Type} (initial : gmap string V) (newSet : V)
  (keys : list string) (key : string) :
  Store.resetUpdates initial newSet keys !! key =
  match initial !! key with
  | Some v =>
      if bool_decide (key ∈ keys)
      then Some (if String.eqb key "preloadedImages" then newSet else v)
      else None
  | None => None
  end.
Proof.
  unfold Store.resetUpdates.
  assert (Hgen : forall acc : gmap string V,
    foldl (fun updates k =>
             match initial !! k with
             | Some v => <[k := if String.eqb k "preloadedImages" then newSet else v]>
                           updates
             | None => updates
             end) acc keys !! key =
    match initial !! key with
    | Some v =>
        if bool_decide (key ∈ keys)
        then Some (if String.eqb key "preloadedImages" then newSet else v)
        else acc !! key
    | None => acc !! key
    end).
  { induction keys as [|k keys IH]; intros acc; cbn [foldl].
    - destruct (initial !! key); [rewrite bool_decide_false by apply not_elem_of_nil|];
        reflexivity.
    - rewrite IH. destruct (initial !! key) as [v|] eqn:Hkey.
      + destruct (decide (key ∈ keys)) as [Hin|Hnin].
        * rewrite !bool_decide_true; [reflexivity| |exact Hin].
          apply elem_of_cons. right. exact Hin.
        * rewrite (bool_decide_false (key ∈ keys)) by exact Hnin.
          destruct (decide (key = k)) as [->|Hne].
          -- rewrite bool_decide_true by (apply elem_of_cons; left; reflexivity).
             rewrite Hkey, lookup_insert_eq. reflexivity.
          -- rewrite bool_decide_false
               by (rewrite elem_of_cons; intros [?|?]; contradiction).
             destruct (initial !! k); [|reflexivity].
             rewrite lookup_insert_ne by congruence. reflexivity.
      + destruct (initial !! k) as [v|] eqn:Hk; [|reflexivity].
        rewrite lookup_insert_ne; [reflexivity|]. intros ->. congruence. }
  rewrite Hgen. rewrite lookup_empty.
  destruct (initial !! key); reflexivity.
Qed.

Lemma setState_get {V : Type} (s : Store.t V) (updates : gmap string V)
  (key : string) :
  Store.get key (fst (Store.setState updates s)) =
  match updates !! key with
  | Some v => Some v
  | None => Store.get key s
  end.
Proof.
  unfold Store.get, Store.setState, Store.spread. cbn [fst Store.state].
  rewrite lookup_union.
  destruct (updates !! key), (Store.state s !! key); reflexivity.
Qed.

(** X17.  [reset(keys)] gives each listed key that the initial state
    declares its initial value (a new set for [preloadedImages]) and
    leaves every other key as it is, listed or not; [reset()] makes the
    state the initial one with a new set for [preloadedImages], so a key
    that was added since is gone; both keep the listeners. *)
Theorem reset_restores {V : Type} (initial : gmap string V) (newSet : V)
  (s : Store.t V) (key : string) :
  (forall keys,
     Store.get key (fst (fst (Store.reset initial newSet (Some keys) s))) =
     match initial !! key with
     | Some v =>
         if bool_decide (key ∈ keys)
         then Some (if String.eqb key "preloadedImages" then newSet else v)
         else Store.get key s
     | None => Store.get key s
     end)
  /\ Store.get key (fst (fst (Store.reset initial newSet None s))) =
       (if String.eqb key "preloadedImages" then Some newSet
        else initial !! key)
  /\ (forall keys,
        Store.listeners (fst (fst (Store.reset initial newSet keys s)))
        = Store.listeners s).
Proof.
  split; [|split].
  - intros keys. unfold Store.reset.
    pose proof (setState_get s (Store.resetUpdates initial newSet keys) key) as Hget.
    destruct (Store.setState (Store.resetUpdates initial newSet keys) s) as [s' errors].
    cbn [fst] in *. rewrite Hget, resetUpdates_lookup.
    destruct (initial !! key); [destruct (bool_decide _)|]; reflexivity.
  - unfold Store.reset, Store.get, Store.spread. cbn [fst Store.state].
    destruct (String.eqb_spec key "preloadedImages") as [->|Hne].
    + apply lookup_insert_eq.
    + rewrite lookup_insert_ne by congruence.
      rewrite lookup_union, lookup_empty. destruct (initial !! key); reflexivity.
  - intros [keys|]; unfold Store.reset; [|reflexivity].
    unfold Store.setState. reflexivity.
Qed.

(** ** Autoplay and the keyboard *)

Lemma onlyPreloads_reads_more w0 w :
  onlyPreloads w0 w ->
  autoplay (store w) = autoplay (store w0)
  /\ autoplayInterval (store w) = autoplayInterval (store w0)
  /\ subreddit (store w) = subreddit (store w0)
  /\ firstLoad (store w) = firstLoad (store w0)
  /\ videoMuted (store w) = videoMuted (store w0).
Proof.
  intros (Hs & _). repeat split.
  - exact (f_equal autoplay Hs).
  - exact (f_equal autoplayInterval Hs).
  - exact (f_equal subreddit Hs).
  - exact (f_equal firstLoad Hs).
  - exact (f_equal videoMuted Hs).
Qed.

Lemma navigate_keeps CONFIG direction w :
  let w' := navigate CONFIG direction w in
  autoplay (store w') = autoplay (store w)
  /\ autoplayInterval (store w') = autoplayInterval (store w)
  /\ subreddit (store w') = subreddit (store w)
  /\ firstLoad (store w') = firstLoad (store w)
  /\ videoMuted (store w') = videoMuted (store w).
Proof.
  cbv zeta.
  destruct ((currentIndex (store w) + direction <? 0)
            || (currentIndex (store w) + direction >=? len (slides (store w))))
    eqn:Hin.
  - unfold navigate. rewrite Hin. repeat split.
  - destruct (navigate_stages CONFIG direction w Hin)
      as (w4 & w8 & -> & Hs4 & _ & _ & _ & _ & H8 & _).
    destruct (onlyPreloads_reads_more w4 w8 H8) as (Ha & Hi & Hsub & Hf & Hm).
    rewrite Hs4 in Ha, Hi, Hsub, Hf, Hm.
    destruct (shouldPreloadPosts CONFIG w8); repeat split; assumption.
Qed.

Lemma autoplayTick_one CONFIG w :
  0 <= currentIndex (store w) < len (slides (store w)) ->
  let w' := autoplayTick CONFIG w in
  slides (store w') = slides (store w)
  /\ (if isAtEnd w
      then currentIndex (store w') = currentIndex (store w)
           /\ autoplay (store w') = false
           /\ autoplayInterval (store w') = None
      else currentIndex (store w') = currentIndex (store w) + 1
           /\ autoplay (store w') = autoplay (store w)
           /\ autoplayInterval (store w') = autoplayInterval (store w)).
Proof.
  intros Hrange. cbv zeta. unfold autoplayTick.
  destruct (isAtEnd w) eqn:Hend; cbn [negb].
  - repeat split.
  - unfold isAtEnd in Hend. rewrite Z.geb_leb in Hend. apply Z.leb_gt in Hend.
    destruct (navigate_one CONFIG 1 w) as [Hi Hs].
    destruct (navigate_keeps CONFIG 1 w) as (Ha & Hint & _).
    replace ((currentIndex (store w) + 1 <? 0)
             || (currentIndex (store w) + 1 >=? len (slides (store w))))
      with false in Hi.
    + repeat split; assumption.
    + symmetry. apply orb_false_iff. split; [apply Z.ltb_ge; lia|].
      rewrite Z.geb_leb. apply Z.leb_gt. lia.
Qed.

(** X18.  From a position on the slides, [k] ticks of the autoplay timer
    move the position [k] slides on, but not past the last slide, and
    keep the slides; autoplay is as it was while [k] is not more than the
    number of slides that were ahead, and switched off after that. *)
Theorem autoplay_runs_to_the_end (CONFIG : Config) (w : World) (k : nat) :
  0 <= currentIndex (store w) < len (slides (store w)) ->
  let w' := Nat.iter k (autoplayTick CONFIG) w in
  let last := len (slides (store w)) - 1 in
  slides (store w') = slides (store w)
  /\ currentIndex (store w') = Z.min (currentIndex (store w) + Z.of_nat k) last
  /\ autoplay (store w') =
       (if Z.of_nat k <=? last - currentIndex (store w)
        then autoplay (store w) else false).
Proof.
  intros Hrange. cbv zeta. induction k as [|k IH].
  - cbn [Nat.iter nat_rect]. split; [reflexivity|]. split; [lia|].
    rewrite (proj2 (Z.leb_le _ _)) by lia. reflexivity.
  - change (Nat.iter (S k) (autoplayTick CONFIG) w)
      with (autoplayTick CONFIG (Nat.iter k (autoplayTick CONFIG) w)).
    destruct IH as (Hs & Hi & Ha).
    set (wk := Nat.iter k (autoplayTick CONFIG) w) in *.
    assert (Hrk : 0 <= currentIndex (store wk) < len (slides (store wk)))
      by (rewrite Hs, Hi; lia).
    destruct (autoplayTick_one CONFIG wk Hrk) as (Hs' & Hstep).
    split; [congruence|].
    unfold isAtEnd in Hstep. rewrite Hs, Hi in Hstep. rewrite Hi in Hrk.
    destruct (Z.min (currentIndex (store w) + Z.of_nat k)
                (len (slides (store w)) - 1) >=? len (slides (store w)) - 1)
      eqn:Hend.
    + rewrite Z.geb_leb in Hend. apply Z.leb_le in Hend.
      destruct Hstep as (-> & -> & _).
      split; [lia|]. rewrite (proj2 (Z.leb_gt _ _)) by lia. reflexivity.
    + rewrite Z.geb_leb in Hend. apply Z.leb_gt in Hend.
      destruct Hstep as (-> & -> & _). rewrite Ha.
      split; [lia|].
      rewrite !(proj2 (Z.leb_le _ _)) by lia. reflexivity.
Qed.

Lemma toggleZoom_store w :
  slides (store (toggleZoom w)) = slides (store w)
  /\ currentIndex (store (toggleZoom w)) = currentIndex (store w).
Proof. unfold toggleZoom. destruct (getActiveImage w); split; reflexivity. Qed.

Lemma toggleAutoplay_store intervalId w :
  slides (store (toggleAutoplay intervalId w)) = slides (store w)
  /\ currentIndex (store (toggleAutoplay intervalId w)) = currentIndex (store w).
Proof.
  unfold toggleAutoplay, startAutoplay.
  destruct (autoplay (store w)); [|destruct (negb (hasSlides w))];
    split; reflexivity.
Qed.

(** X19.  A key press keeps the slides and moves the position by one at
    most, and only to a position on the slides; it does not move it at
    all while the view is zoomed; a position that is on the slides stays
    on them. *)
Theorem handleKeydown_position (CONFIG : Config) (intervalId : nat)
  (tagName key : string) (w : World) :
  let w' := handleKeydown CONFIG intervalId tagName key w in
  let cur := currentIndex (store w) in
  let cur' := currentIndex (store w') in
  slides (store w') = slides (store w)
  /\ (isZoomed (store w) = true -> cur' = cur)
  /\ (cur' = cur
      \/ ((cur' = cur - 1 \/ cur' = cur + 1)
          /\ 0 <= cur' < len (slides (store w))))
  /\ (validPosition w -> validPosition w').
Proof.
  cbv zeta. unfold handleKeydown.
  assert (Hnav : forall d, d = -1 \/ d = 1 ->
    let w' := if negb (isZoomed (store w)) then navigate CONFIG d w else w in
    slides (store w') = slides (store w)
    /\ (isZoomed (store w) = true -> currentIndex (store w') = currentIndex (store w))
    /\ (currentIndex (store w') = currentIndex (store w)
        \/ ((currentIndex (store w') = currentIndex (store w) - 1
             \/ currentIndex (store w') = currentIndex (store w) + 1)
            /\ 0 <= currentIndex (store w') < len (slides (store w))))
    /\ (validPosition w -> validPosition w')).
  { intros d Hd. cbv zeta. destruct (isZoomed (store w)); cbn [negb].
    - repeat split; auto.
    - destruct (navigate_one CONFIG d w) as [Hi Hs].
      split; [exact Hs|]. split; [discriminate|]. split.
      + rewrite Hi.
        destruct ((currentIndex (store w) + d <? 0)
                  || (currentIndex (store w) + d >=? len (slides (store w))))
          eqn:Hin; [left; reflexivity|right].
        apply orb_false_iff in Hin as [Hlo Hhi].
        apply Z.ltb_ge in Hlo. rewrite Z.geb_leb in Hhi. apply Z.leb_gt in Hhi.
        lia.
      + apply navigate_validPosition. }
  assert (Hsame : forall w' : World,
    slides (store w') = slides (store w) ->
    currentIndex (store w') = currentIndex (store w) ->
    slides (store w') = slides (store w)
    /\ (isZoomed (store w) = true -> currentIndex (store w') = currentIndex (store w))
    /\ (currentIndex (store w') = currentIndex (store w)
        \/ ((currentIndex (store w') = currentIndex (store w) - 1
             \/ currentIndex (store w') = currentIndex (store w) + 1)
            /\ 0 <= currentIndex (store w') < len (slides (store w))))
    /\ (validPosition w -> validPosition w')).
  { intros w' Hs Hi. repeat split; auto. apply validPosition_same; assumption. }
  destruct (_ || _); [apply Hsame; reflexivity|].
  case_bool_decide; [apply Hnav; auto|].
  case_bool_decide; [apply Hnav; auto|].
  case_bool_decide; [apply Hsame; reflexivity|].
  case_bool_decide; [apply Hsame; apply toggleZoom_store|].
  case_bool_decide; [apply Hsame; apply toggleAutoplay_store|].
  case_bool_decide; [|apply Hsame; reflexivity].
  destruct (isZoomed (store w)); apply Hsame; reflexivity.
Qed.

(** ** The images ahead *)

Lemma slideAt_valid w slides0 idx :
  (forall r, r ∈ slides0 -> (r < length (slideObjs w))%nat) ->
  0 <= idx < len slides0 ->
  is_Some (slideAt w slides0 idx).
Proof.
  intros Hheap Hidx. unfold slideAt.
  rewrite (proj2 (Z.ltb_ge _ _)) by lia.
  destruct (slides0 !! Z.to_nat idx) as [r|] eqn:Hr.
  - assert (Hin : r ∈ slides0) by (eapply list_elem_of_lookup_2; eauto).
    destruct (lookup_lt_is_Some_2 (slideObjs w) r (Hheap r Hin)) as [d ->].
    eauto.
  - apply lookup_ge_None in Hr. unfold len in Hidx. lia.
Qed.

Lemma preloadImages_loop_adds CONFIG slides0 cur n i w :
  (forall r, r ∈ slides0 -> (r < length (slideObjs w))%nat) ->
  0 <= cur + i ->
  let w' := preloadImages_loop CONFIG slides0 cur n i w in
  slideObjs w' = slideObjs w
  /\ preloadedImages (store w) ⊆ preloadedImages (store w')
  /\ (forall k r d, cur + i <= k < cur + i + Z.of_nat n ->
        slideAt w slides0 k = Some (r, d) -> Slide.type d = "image" ->
        Slide.url d ∈ preloadedImages (store w'))
  /\ (forall u, u ∈ preloadedImages (store w') ->
        u ∈ preloadedImages (store w)
        \/ exists k r d, cur + i <= k < cur + i + Z.of_nat n
             /\ slideAt w slides0 k = Some (r, d)
             /\ Slide.type d = "image" /\ Slide.url d = u).
Proof.
  revert i w. induction n as [|n IH]; intros i w Hheap Hi;
    cbn [preloadImages_loop]; cbv zeta.
  { split; [reflexivity|]. split; [reflexivity|]. split; [intros; lia|].
    intros u Hu. left. exact Hu. }
  destruct (cur + i >=? len slides0) eqn:Hend.
  { rewrite Z.geb_leb in Hend. apply Z.leb_le in Hend.
    split; [reflexivity|]. split; [reflexivity|]. split.
    - intros k r d Hk Hat. exfalso. unfold slideAt in Hat.
      destruct (k <? 0); [discriminate|].
      destruct (slides0 !! Z.to_nat k) eqn:Hl; [|discriminate].
      apply lookup_lt_Some in Hl. unfold len in Hend. lia.
    - intros u Hu. left. exact Hu. }
  rewrite Z.geb_leb in Hend. apply Z.leb_gt in Hend.
  destruct (slideAt_valid w slides0 (cur + i) Hheap ltac:(lia)) as [[r0 d0] Hat0].
  rewrite Hat0.
  set (w1 := if String.eqb (Slide.type d0) "image"
                && negb (bool_decide (Slide.url d0 ∈ preloadedImages (store w)))
             then mutate (set_preloadedImages
                    ({[Slide.url d0]} ∪ preloadedImages (store w))) w
             else w).
  assert (H1 : slideObjs w1 = slideObjs w
               /\ preloadedImages (store w) ⊆ preloadedImages (store w1)
               /\ (Slide.type d0 = "image" -> Slide.url d0 ∈ preloadedImages (store w1))
               /\ (forall u, u ∈ preloadedImages (store w1) ->
                     u ∈ preloadedImages (store w)
                     \/ (Slide.type d0 = "image" /\ Slide.url d0 = u))).
  { subst w1. destruct (String.eqb_spec (Slide.type d0) "image") as [Ht|Ht];
      cbn [andb]; [|repeat split; auto; contradiction].
    case_bool_decide as Hin; cbn [negb].
    - repeat split; auto.
    - cbn [mutate store set_store slideObjs preloadedImages set_preloadedImages].
      split; [reflexivity|]. split; [apply union_subseteq_r|].
      split; [intros _; apply elem_of_union; left; apply elem_of_singleton;
              reflexivity|].
      intros u Hu. apply elem_of_union in Hu as [Hu|Hu]; [|left; exact Hu].
      apply elem_of_singleton in Hu. right. split; [exact Ht|congruence]. }
  clearbody w1. destruct H1 as (Ho1 & Hsub1 & Hhere & Hnew1).
  destruct (IH (i + 1) w1) as (Ho & Hsub & Hall & Hnew).
  { intros r Hr. rewrite Ho1. apply Hheap. exact Hr. }
  { lia. }
  split; [congruence|]. split; [etransitivity; eassumption|]. split.
  - intros k r d Hk Hat Ht.
    destruct (decide (k = cur + i)) as [->|Hne].
    + rewrite Hat0 in Hat. injection Hat as <- <-.
      apply Hsub. apply Hhere. exact Ht.
    + apply (Hall k r d); [lia| |exact Ht].
      rewrite (slideAt_heap w w1) by exact Ho1. exact Hat.
  - intros u Hu. destruct (Hnew u Hu) as [Hu1|(k & r & d & Hk & Hat & Ht & Hurl)].
    + destruct (Hnew1 u Hu1) as [Hu0|[Ht Hurl]]; [left; exact Hu0|].
      right. exists (cur + i), r0, d0. split; [lia|]. auto.
    + right. exists k, r, d. split; [lia|].
      rewrite (slideAt_heap w w1) in Hat by exact Ho1. auto.
Qed.

Lemma preloadExternalVideoUrls_loop_images CONFIG slides0 start n i w :
  preloadedImages (store (preloadExternalVideoUrls_loop CONFIG slides0 start n i w))
  = preloadedImages (store w).
Proof.
  revert i w. induction n as [|n IH]; intros i w; simpl; [reflexivity|].
  destruct (start + i >=? len slides0); [reflexivity|].
  destruct (slideAt w slides0 (start + i)) as [[r slide]|]; [|reflexivity].
  destruct (Slide.externalVideoId slide) as [videoId|]; [|apply IH].
  destruct (_ || _); [apply IH|].
  destruct (_ || _); [apply IH|].
  unfold fetchExternalVideoUrl. destruct (cachedToken _); rewrite IH; reflexivity.
Qed.

(** X20.  With the position at 0 or more, [preloadUpcomingMedia] only adds
    to the set of preloaded images; afterwards the set holds the URL of
    every image slide among the next [PRELOAD_COUNT] slides, and whatever
    it holds that it did not hold before is such a URL. *)
Theorem preloadUpcomingMedia_images (CONFIG : Config) (w : World) :
  (forall r, r ∈ slides (store w) -> (r < length (slideObjs w))%nat) ->
  0 <= currentIndex (store w) ->
  let cur := currentIndex (store w) in
  let w' := preloadUpcomingMedia CONFIG w in
  preloadedImages (store w) ⊆ preloadedImages (store w')
  /\ (forall k r d, cur < k <= cur + PRELOAD_COUNT CONFIG ->
        slideAt w (slides (store w)) k = Some (r, d) ->
        Slide.type d = "image" ->
        Slide.url d ∈ preloadedImages (store w'))
  /\ (forall u, u ∈ preloadedImages (store w') ->
        u ∈ preloadedImages (store w)
        \/ exists k r d, cur < k <= cur + PRELOAD_COUNT CONFIG
             /\ slideAt w (slides (store w)) k = Some (r, d)
             /\ Slide.type d = "image" /\ Slide.url d = u).
Proof.
  intros Hheap Hcur. cbv zeta. unfold preloadUpcomingMedia, preloadExternalVideoUrls.
  cbn [schedule store set_pending].
  rewrite preloadExternalVideoUrls_loop_images.
  destruct (preloadImages_loop_adds CONFIG (slides (store w))
              (currentIndex (store w)) (Z.to_nat (PRELOAD_COUNT CONFIG)) 1 w
              Hheap ltac:(lia)) as (_ & Hsub & Hall & Hnew).
  split; [exact Hsub|]. split.
  - intros k r d Hk. apply Hall. lia.
  - intros u Hu. destruct (Hnew u Hu) as [?|(k & r & d & Hk & ?)]; [left; assumption|].
    right. exists k, r, d. split; [lia|assumption].
Qed.

(** ** A feed arrives *)

(** X21.  When the posts of a feed arrive, right after [loadSubreddit]
    asked for them, the slides are the new ones, the position is 0 and on
    the slides, the pagination token is the one that came, nothing is
    loading, autoplay and zoom are off, and the first-load flag is
    cleared when there is a slide.  When the request fails the feed is
    left empty at position 0, not loading. *)
Theorem feed_arrives (CONFIG : Config) (name : string)
  (extracted : list Slide.t) (after' : option string) (w : World) :
  let w1 := loadSubreddit name w in
  let w2 := onSubredditPosts CONFIG (Some (extracted, after')) w1 in
  let w3 := onSubredditPosts CONFIG None w1 in
  (slides (store w2) = seq (length (slideObjs w)) (length extracted)
   /\ currentIndex (store w2) = 0
   /\ after (store w2) = after'
   /\ loading (store w2) = false
   /\ subreddit (store w2) = name
   /\ autoplay (store w2) = false
   /\ isZoomed (store w2) = false
   /\ firstLoad (store w2) =
        (if extracted is [] then firstLoad (store w) else false)
   /\ validPosition w2)
  /\ (slides (store w3) = []
      /\ currentIndex (store w3) = 0
      /\ after (store w3) = None
      /\ loading (store w3) = false
      /\ subreddit (store w3) = name
      /\ firstLoad (store w3) = firstLoad (store w)).
Proof.
  cbv zeta. split; [|repeat split].
  unfold onSubredditPosts. cbn [allocSlides].
  set (fresh := seq (length (slideObjs (loadSubreddit name w))) (length extracted)).
  assert (Hfresh : fresh = seq (length (slideObjs w)) (length extracted))
    by reflexivity.
  set (w2 := setState _ _).
  assert (H2 : slides (store w2) = fresh
               /\ currentIndex (store w2) = 0
               /\ after (store w2) = after'
               /\ loading (store w2) = false
               /\ subreddit (store w2) = name
               /\ autoplay (store w2) = false
               /\ isZoomed (store w2) = false
               /\ firstLoad (store w2) = firstLoad (store w))
    by (subst w2; repeat split).
  clearbody w2. destruct H2 as (Hs & Hi & Ha & Hl & Hn & Hp & Hz & Hf).
  assert (Hlen : len fresh = Z.of_nat (length extracted))
    by (unfold len; rewrite Hfresh, length_seq; reflexivity).
  change (seq (length (slideObjs w)) (length extracted)) with fresh.
  clearbody fresh.
  destruct (len fresh =? 0) eqn:Hempty.
  - apply Z.eqb_eq in Hempty.
    assert (extracted = []) as -> by (destruct extracted; [reflexivity|cbn in *; lia]).
    assert (fresh = []) as -> by (rewrite Hfresh; reflexivity).
    repeat split; try assumption. left. exact Hs.
  - apply Z.eqb_neq in Hempty.
    pose proof (onlyPreloads_updateSlides CONFIG w2 w2 (onlyPreloads_refl w2)) as H3.
    set (w3 := updateSlides CONFIG w2) in *. clearbody w3.
    destruct (onlyPreloads_reads w2 w3 H3)
      as (Hs3 & Hi3 & Ha3 & Hl3 & _ & Hz3 & _).
    destruct (onlyPreloads_reads_more w2 w3 H3) as (Hp3 & _ & Hn3 & Hf3 & _).
    assert (Hne : extracted <> []) by (intros ->; cbn in Hlen; lia).
    destruct extracted as [|x xs]; [contradiction|].
    assert (Hpos : validPosition w3).
    { right. rewrite Hs3, Hi3, Hs, Hi. cbn [length] in Hlen. lia. }
    assert (Hfinal : forall w4 : World,
              store w4 = store w3 \/ store w4 = set_firstLoad false (store w3) ->
              firstLoad (store w4) = false ->
              slides (store w4) = fresh
              /\ currentIndex (store w4) = 0
              /\ after (store w4) = after'
              /\ loading (store w4) = false
              /\ subreddit (store w4) = name
              /\ autoplay (store w4) = false
              /\ isZoomed (store w4) = false
              /\ firstLoad (store w4) = false
              /\ validPosition w4).
    { intros w4 Hw4 Hf4.
      assert (Hsame : slides (store w4) = slides (store w3)
                      /\ currentIndex (store w4) = currentIndex (store w3)
                      /\ after (store w4) = after (store w3)
                      /\ loading (store w4) = loading (store w3)
                      /\ subreddit (store w4) = subreddit (store w3)
                      /\ autoplay (store w4) = autoplay (store w3)
                      /\ isZoomed (store w4) = isZoomed (store w3))
        by (destruct Hw4 as [->| ->]; repeat split).
      destruct Hsame as (E1 & E2 & E3 & E4 & E5 & E6 & E7).
      repeat split; try congruence.
      eapply validPosition_same; [exact E1|exact E2|exact Hpos]. }
    destruct (firstLoad (store w3)) eqn:Hfl.
    + apply Hfinal; [right; reflexivity|reflexivity].
    + apply Hfinal; [left; reflexivity|exact Hfl].
Qed.

(** ** Retries *)


Lemma backoff_cons base from n :
  0 < n -> backoff base from n = base * 2 ^ from :: backoff base (from + 1) (n - 1).
Proof.
  intros Hn. unfold backoff. rewrite seqZ_cons by lia.
  rewrite fmap_cons. replace (Z.succ from) with (from + 1) by lia.
  replace (Z.pred n) with (n - 1) by lia. reflexivity.
Qed.

Lemma backoff_nil base from n : n <= 0 -> backoff base from n = [].
Proof. intros Hn. unfold backoff. rewrite seqZ_nil by lia. reflexivity. Qed.

Lemma fetchWithRetry_loop_succeeds {D E : Type} (base retries : Z) (jsonp : Z -> D + E)
  (k : Z) (d : D) (fuel : nat) (attempt : Z) (lastError : option E) :
  attempt <= k < retries ->
  (Z.to_nat (k - attempt) < fuel)%nat ->
  jsonp k = inl d ->
  (forall j, attempt <= j < k -> exists e, jsonp j = inr e) ->
  fetchWithRetry_loop base retries jsonp fuel attempt lastError
  = (inl d, backoff base attempt (k - attempt)).
Proof.
  revert attempt lastError. induction fuel as [|fuel IH];
    intros attempt lastError Hk Hfuel Hd Hfail; [lia|].
  cbn [fetchWithRetry_loop].
  rewrite (proj2 (Z.ltb_lt attempt retries)) by lia.
  destruct (decide (attempt = k)) as [->|Hne].
  - rewrite Hd, backoff_nil by lia. reflexivity.
  - destruct (Hfail attempt ltac:(lia)) as [e He]. rewrite He.
    rewrite (proj2 (Z.ltb_lt attempt (retries - 1))) by lia.
    rewrite (IH (attempt + 1) (Some e)); [|lia|lia|exact Hd|intros j Hj; apply Hfail; lia].
    rewrite (backoff_cons base attempt (k - attempt)) by lia.
    replace (k - (attempt + 1)) with (k - attempt - 1) by lia. reflexivity.
Qed.

Lemma fetchWithRetry_loop_exhausted {D E : Type} (base retries : Z) (jsonp : Z -> D + E)
  (fuel : nat) (attempt : Z) (lastError : option E) :
  (Z.to_nat (retries - attempt) <= fuel)%nat ->
  (forall j, attempt <= j < retries -> exists e, jsonp j = inr e) ->
  fetchWithRetry_loop base retries jsonp fuel attempt lastError
  = (inr (if attempt <? retries
          then match jsonp (retries - 1) with
               | inr e => Some e
               | inl _ => None
               end
          else lastError),
     backoff base attempt (retries - 1 - attempt)).
Proof.
  revert attempt lastError. induction fuel as [|fuel IH];
    intros attempt lastError Hfuel Hfail.
  - cbn [fetchWithRetry_loop].
    rewrite (proj2 (Z.ltb_ge attempt retries)) by lia.
    rewrite backoff_nil by lia. reflexivity.
  - cbn [fetchWithRetry_loop].
    destruct (Z.ltb_spec attempt retries) as [Hlt|Hge];
      [|rewrite backoff_nil by lia; reflexivity].
    destruct (Hfail attempt ltac:(lia)) as [e He]. rewrite He.
    rewrite (IH (attempt + 1) (Some e)); [|lia|intros j Hj; apply Hfail; lia].
    destruct (Z.ltb_spec attempt (retries - 1)) as [Hmore|Hlast].
    + rewrite (proj2 (Z.ltb_lt (attempt + 1) retries)) by lia.
      rewrite (backoff_cons base attempt (retries - 1 - attempt)) by lia.
      replace (retries - 1 - (attempt + 1)) with (retries - 1 - attempt - 1) by lia.
      reflexivity.
    + rewrite (proj2 (Z.ltb_ge (attempt + 1) retries)) by lia.
      replace (retries - 1) with attempt by lia. rewrite He.
      rewrite !backoff_nil by lia. reflexivity.
Qed.

Lemma backoff_sum base from n :
  0 <= from -> 0 <= n ->
  foldr Z.add 0 (backoff base from n) = base * (2 ^ (from + n) - 2 ^ from).
Proof.
  intros Hfrom Hn. revert from Hfrom.
  refine (natlike_ind (fun n => forall from, 0 <= from ->
            foldr Z.add 0 (backoff base from n)
            = base * (2 ^ (from + n) - 2 ^ from)) _ _ n Hn).
  - intros from _. rewrite backoff_nil by lia. cbn [foldr].
    replace (from + 0) with from by lia. lia.
  - intros m Hm IH from Hfrom.
    rewrite backoff_cons by lia. cbn [foldr].
    replace (Z.succ m - 1) with m by lia.
    rewrite IH by lia.
    replace (from + 1 + m) with (from + Z.succ m) by lia.
    rewrite (Z.pow_add_r 2 from 1) by lia. lia.
Qed.

(** X22.  [fetchWithRetry] returns the data of the first attempt that
    succeeds, having slept [RETRY_BASE_DELAY * 2^j] after each failed
    attempt [j] before it.  When all [retries] attempts fail it throws
    the error of the last one, having slept after each attempt but the
    last, [RETRY_BASE_DELAY * (2^(retries-1) - 1)] in all; with no
    attempt to make it throws [undefined].  It never sleeps more than
    [retries - 1] times. *)
Theorem fetchWithRetry_outcome {D E : Type} (RETRY_BASE_DELAY retries : Z)
  (jsonp : Z -> D + E) :
  (forall k d,
     0 <= k < retries ->
     jsonp k = inl d ->
     (forall j, 0 <= j < k -> exists e, jsonp j = inr e) ->
     fetchWithRetry RETRY_BASE_DELAY retries jsonp
     = (inl d, backoff RETRY_BASE_DELAY 0 k))
  /\ ((forall j, 0 <= j < retries -> exists e, jsonp j = inr e) ->
      fetchWithRetry RETRY_BASE_DELAY retries jsonp
      = (inr (if 0 <? retries
              then match jsonp (retries - 1) with
                   | inr e => Some e
                   | inl _ => None
                   end
              else None),
         backoff RETRY_BASE_DELAY 0 (retries - 1))
      /\ (0 < retries ->
          foldr Z.add 0 (snd (fetchWithRetry RETRY_BASE_DELAY retries jsonp))
          = RETRY_BASE_DELAY * (2 ^ (retries - 1) - 1)))
  /\ (length (snd (fetchWithRetry RETRY_BASE_DELAY retries jsonp))
      <= Z.to_nat (retries - 1))%nat.
Proof.
  unfold fetchWithRetry. split; [|split].
  - intros k d Hk Hd Hfail.
    rewrite (fetchWithRetry_loop_succeeds RETRY_BASE_DELAY retries jsonp k d
               (Z.to_nat retries) 0 None); [|lia|lia|exact Hd|exact Hfail].
    replace (k - 0) with k by lia. reflexivity.
  - intros Hfail.
    rewrite (fetchWithRetry_loop_exhausted RETRY_BASE_DELAY retries jsonp
               (Z.to_nat retries) 0 None); [|lia|exact Hfail].
    replace (retries - 1 - 0) with (retries - 1) by lia.
    split; [reflexivity|]. intros Hpos. cbn [snd].
    rewrite backoff_sum by lia.
    replace (0 + (retries - 1)) with (retries - 1) by lia.
    rewrite Z.pow_0_r. reflexivity.
  - generalize (Z.to_nat retries) at 1. intros fuel.
    assert (Hgen : forall attempt lastError, 0 <= attempt ->
              (length (snd (fetchWithRetry_loop RETRY_BASE_DELAY retries jsonp
                              fuel attempt lastError))
               <= Z.to_nat (retries - 1 - attempt))%nat).
    { induction fuel as [|fuel IH]; intros attempt lastError Ha;
        cbn [fetchWithRetry_loop]; [cbn; lia|].
      destruct (Z.ltb_spec attempt retries); [|cbn; lia].
      destruct (jsonp attempt) as [data|error]; [cbn; lia|].
      specialize (IH (attempt + 1) (Some error) ltac:(lia)).
      destruct (fetchWithRetry_loop _ _ _ fuel (attempt + 1) (Some error))
        as [result delays].
      cbn [snd] in *. rewrite length_app.
      destruct (Z.ltb_spec attempt (retries - 1)); cbn [length]; lia. }
    specialize (Hgen 0 None ltac:(lia)).
    replace (retries - 1 - 0) with (retries - 1) in Hgen by lia. exact Hgen.
Qed.

(** ** The fallback from JSONP *)

Lemma jsonpAll_proxy_only {D E : Type} (calls : list ((D + E) * (D + E))) :
  jsonpAll false calls
  = ((fun call => (snd call, [Proxy])) <$> calls, false).
Proof.
  induction calls as [|[direct viaProxy] rest IH]; [reflexivity|].
  cbn [jsonpAll jsonp negb]. rewrite IH. reflexivity.
Qed.

(** X23.  Once JSONP has failed for a request it is not tried again: the
    requests before the first failure are served by JSONP alone, the
    failing one falls back to the proxy, and every later request goes to
    the proxy only. *)
Theorem jsonp_falls_back_for_good {D E : Type} (calls : list ((D + E) * (D + E)))
  (i : nat) (e : E) (viaProxy : D + E) :
  calls !! i = Some (inr e, viaProxy) ->
  (forall j call, (j < i)%nat -> calls !! j = Some call ->
     exists d, fst call = inl d) ->
  let results := fst (jsonpAll true calls) in
  snd (jsonpAll true calls) = false
  /\ (forall j call, (j < i)%nat -> calls !! j = Some call ->
        results !! j = Some (fst call, [Jsonp]))
  /\ results !! i = Some (viaProxy, [Jsonp; Proxy])
  /\ (forall j call, (i < j)%nat -> calls !! j = Some call ->
        results !! j = Some (snd call, [Proxy])).
Proof.
  revert i. induction calls as [|[direct0 proxy0] rest IH]; intros i Hi Hbefore;
    [discriminate|].
  cbv zeta. destruct i as [|i].
  - cbn in Hi. injection Hi as -> ->. cbn [jsonpAll jsonp negb].
    rewrite jsonpAll_proxy_only. cbn [fst snd].
    split; [reflexivity|]. split; [intros; lia|]. split; [reflexivity|].
    intros j call Hj Hcall. destruct j as [|j]; [lia|].
    change (rest !! j = Some call) in Hcall.
    change (((fun call0 : (D + E) * (D + E) => (snd call0, [Proxy])) <$> rest) !! j
            = Some (snd call, [Proxy])).
    rewrite list_lookup_fmap, Hcall. reflexivity.
  - destruct (Hbefore O (direct0, proxy0) ltac:(lia) eq_refl) as [d Hd].
    cbn [fst] in Hd. subst direct0. cbn [jsonpAll jsonp negb].
    cbn in Hi.
    destruct (IH i Hi) as (Hflag & Hpre & Hat & Hpost).
    { intros j call Hj Hcall. apply (Hbefore (S j) call); [lia|exact Hcall]. }
    destruct (jsonpAll true rest) as [results works]. cbn [fst snd] in *.
    split; [exact Hflag|]. split; [|split].
    + intros j call Hj Hcall. destruct j as [|j].
      * cbn in Hcall. injection Hcall as <-. reflexivity.
      * cbn in Hcall |- *. apply Hpre; [lia|exact Hcall].
    + exact Hat.
    + intros j call Hj Hcall. destruct j as [|j]; [lia|].
      cbn in Hcall |- *. apply Hpost; [lia|exact Hcall].
Qed.

(** ** The proxy *)

Lemma passThrough_lookup (from to : Worker.Headers) (names : list string)
  (h : string) :
  Worker.passThrough from names to !! h =
  if bool_decide (h ∈ names)
  then match from !! h with Some v => Some v | None => to !! h end
  else to !! h.
Proof.
  unfold Worker.passThrough. revert to.
  induction names as [|n names IH]; intros to; cbn [foldl].
  - rewrite bool_decide_false by apply not_elem_of_nil. reflexivity.
  - rewrite IH. destruct (decide (h = n)) as [->|Hne].
    + rewrite (bool_decide_true (n ∈ n :: names))
        by (apply elem_of_cons; left; reflexivity).
      destruct (from !! n) as [v|] eqn:Hn.
      * rewrite lookup_insert_eq. destruct (bool_decide _); reflexivity.
      * destruct (bool_decide _); reflexivity.
    + assert (Hto : match from !! n with
                    | Some v => <[n := v]> to
                    | None => to
                    end !! h = to !! h).
      { destruct (from !! n); [apply lookup_insert_ne; congruence|reflexivity]. }
      rewrite Hto.
      destruct (decide (h ∈ names)) as [Hin|Hnin].
      * rewrite !bool_decide_true; [reflexivity| |exact Hin].
        apply elem_of_cons. right. exact Hin.
      * rewrite !bool_decide_false; [reflexivity| |exact Hnin].
        rewrite elem_of_cons. intros [?|?]; contradiction.
Qed.

Lemma jsonError_cors code error message :
  Worker.responseHeaders (Worker.jsonError code error message)
    !! "access-control-allow-origin" = Some "*".
Proof. reflexivity. Qed.

(** X24.  The proxy forwards a request only to a host of its list; the
    forwarded request carries no header of the client but
    [Authorization] and [Content-Type]; every response carries
    [Access-Control-Allow-Origin: *]; and a request for another host is
    answered 403, whatever the upstream would give. *)
Theorem proxy_allowlist (hostname : string -> option string)
  (fetch : string -> Worker.Headers -> Worker.Upstream + string)
  (request : Worker.Request) :
  (forall targetUrl h,
     Worker.route hostname request = inr (targetUrl, h) ->
     Worker.method request <> "OPTIONS"
     /\ Worker.target request = Some targetUrl
     /\ (exists host, hostname targetUrl = Some host /\ host ∈ Worker.allowed)
     /\ (forall name, is_Some (h !! name) ->
           name ∈ ["user-agent"; "accept"; "referer"; "origin";
                   "authorization"; "content-type"])
     /\ h !! "authorization" = Worker.headers request !! "authorization"
     /\ h !! "user-agent" = Some Worker.userAgent)
  /\ Worker.responseHeaders (Worker.handleRequest hostname fetch request)
       !! "access-control-allow-origin" = Some "*"
  /\ (forall targetUrl host,
        Worker.method request <> "OPTIONS" ->
        Worker.target request = Some targetUrl ->
        truthy targetUrl = true ->
        hostname targetUrl = Some host ->
        host ∉ Worker.allowed ->
        Worker.handleRequest hostname fetch request
        = Worker.jsonError 403 "Domain not allowed" None).
Proof.
  split; [|split].
  - intros targetUrl h. unfold Worker.route.
    destruct (String.eqb_spec (Worker.method request) "OPTIONS") as [|Hm];
      [discriminate|].
    destruct (Worker.target request) as [t|]; [|discriminate].
    destruct (negb (truthy t)); [discriminate|].
    destruct (hostname t) as [host|] eqn:Hhost; [|discriminate].
    case_bool_decide as Hallowed; cbn [negb]; [|discriminate].
    cbv zeta.
    match goal with |- inr (_, ?x) = _ -> _ => set (hs := x) end.
    intros H. assert (Ht : t = targetUrl) by congruence.
    assert (Hh : hs = h) by congruence. clear H. subst targetUrl h. subst hs.
    split; [exact Hm|]. split; [reflexivity|].
    split; [exists host; rewrite Hhost; auto|].
    split; [|split].
    + intros name [v Hv]. rewrite passThrough_lookup in Hv.
      destruct (decide (name ∈ ["authorization"; "content-type"])) as [Hin|Hnin].
      * rewrite !elem_of_cons in Hin. rewrite !elem_of_cons.
        destruct Hin as [->|[->|Hin]]; auto 10.
      * rewrite bool_decide_false in Hv by exact Hnin.
        destruct (String.eqb host Worker.xvm).
        -- repeat (apply lookup_insert_Some in Hv
                     as [[<- _]|[_ Hv]]; [rewrite !elem_of_cons; auto 10|]).
           rewrite lookup_empty in Hv. discriminate.
        -- repeat (apply lookup_insert_Some in Hv
                     as [[<- _]|[_ Hv]]; [rewrite !elem_of_cons; auto 10|]).
           rewrite lookup_empty in Hv. discriminate.
    + rewrite passThrough_lookup.
      rewrite bool_decide_true by (apply elem_of_cons; left; reflexivity).
      destruct (Worker.headers request !! "authorization"); [reflexivity|].
      destruct (String.eqb host Worker.xvm); reflexivity.
    + rewrite passThrough_lookup.
      rewrite bool_decide_false
        by (rewrite !elem_of_cons, elem_of_nil; intros [?|[?|?]];
            try discriminate; contradiction).
      destruct (String.eqb host Worker.xvm); reflexivity.
  - unfold Worker.handleRequest, Worker.route.
    destruct (String.eqb (Worker.method request) "OPTIONS"); [reflexivity|].
    destruct (Worker.target request) as [t|]; [|reflexivity].
    destruct (negb (truthy t)); [reflexivity|].
    destruct (hostname t) as [host|]; [|reflexivity].
    destruct (negb (bool_decide _)); [reflexivity|].
    unfold Worker.relay. destruct (fetch _ _) as [up|message]; [|reflexivity].
    cbn [Worker.responseHeaders Worker.corsHeaders foldl fst snd].
    rewrite lookup_insert_ne by discriminate.
    rewrite lookup_insert_ne by discriminate.
    apply lookup_insert_eq.
  - intros targetUrl host Hm Ht Htruthy Hhost Hout.
    unfold Worker.handleRequest, Worker.route.
    destruct (String.eqb_spec (Worker.method request) "OPTIONS") as [|_];
      [contradiction|].
    rewrite Ht, Htruthy, Hhost. cbn [negb].
    rewrite bool_decide_false by exact Hout. reflexivity.
Qed.

(** ** The ends of the feed *)

(** X25.  The helpers [isAtStart] and [isAtEnd] agree with the bounds check
    of [navigate]: at the start a move back does nothing, at the end a
    move forward does nothing, and anywhere else on a valid position the
    move is made; a valid position has slides and a current slide. *)
Theorem navigate_at_the_ends (CONFIG : Config) (w : World) :
  (isAtStart w = true -> navigate CONFIG (-1) w = w)
  /\ (isAtEnd w = true -> navigate CONFIG 1 w = w)
  /\ (0 <= currentIndex (store w) < len (slides (store w)) ->
      hasSlides w = true
      /\ (isAtStart w = false ->
          currentIndex (store (navigate CONFIG (-1) w)) = currentIndex (store w) - 1)
      /\ (isAtEnd w = false ->
          currentIndex (store (navigate CONFIG 1 w)) = currentIndex (store w) + 1)
      /\ ((forall r, r ∈ slides (store w) -> (r < length (slideObjs w))%nat) ->
          is_Some (getCurrentSlide w))).
Proof.
  unfold isAtStart, isAtEnd, hasSlides, getCurrentSlide.
  split; [|split].
  - intros Hstart. apply Z.eqb_eq in Hstart. unfold navigate.
    rewrite Hstart. reflexivity.
  - intros Hend. rewrite Z.geb_leb in Hend. apply Z.leb_le in Hend.
    unfold navigate.
    replace (currentIndex (store w) + 1 >=? len (slides (store w))) with true
      by (symmetry; rewrite Z.geb_leb; apply Z.leb_le; lia).
    rewrite orb_true_r. reflexivity.
  - intros Hrange. split; [apply Z.gtb_lt; lia|]. split; [|split].
    + intros Hstart. apply Z.eqb_neq in Hstart.
      destruct (navigate_one CONFIG (-1) w) as [Hi _]. rewrite Hi.
      replace ((currentIndex (store w) + -1 <? 0)
               || (currentIndex (store w) + -1 >=? len (slides (store w))))
        with false; [lia|].
      symmetry. apply orb_false_iff. split; [apply Z.ltb_ge; lia|].
      rewrite Z.geb_leb. apply Z.leb_gt. lia.
    + intros Hend. rewrite Z.geb_leb in Hend. apply Z.leb_gt in Hend.
      destruct (navigate_one CONFIG 1 w) as [Hi _]. rewrite Hi.
      replace ((currentIndex (store w) + 1 <? 0)
               || (currentIndex (store w) + 1 >=? len (slides (store w))))
        with false; [reflexivity|].
      symmetry. apply orb_false_iff. split; [apply Z.ltb_ge; lia|].
      rewrite Z.geb_leb. apply Z.leb_gt. lia.
    + intros Hheap. apply slideAt_valid; assumption.
Qed.

(** ** A page arrives *)

Lemma onMorePosts_appends (r : option (list Slide.t * option string)) (w : World) :
  let w' := onMorePosts (slides (store w)) r w in
  slides (store w) `prefix_of` slides (store w')
  /\ currentIndex (store w') = currentIndex (store w)
  /\ loading (store w') = false
  /\ after (store w') = match r with
                        | Some (_, after') => after'
                        | None => after (store w)
                        end
  /\ (forall ref d, slideObjs w !! ref = Some d -> slideObjs w' !! ref = Some d)
  /\ (forall k d, (pageOf r) !! k = Some d ->
        exists ref, slides (store w') !! (length (slides (store w)) + k)%nat = Some ref
                    /\ slideObjs w' !! ref = Some d)
  /\ (0 <= currentIndex (store w) < len (slides (store w)) ->
      0 <= currentIndex (store w') < len (slides (store w'))).
Proof.
  cbv zeta. unfold onMorePosts.
  destruct r as [[extracted after']|];
    cbn [allocSlides setState store set_store slideObjs set_slideObjs slides
         currentIndex loading after set_loading set_after set_slides pageOf].
  - split; [apply prefix_app_r; reflexivity|].
    split; [reflexivity|]. split; [reflexivity|]. split; [reflexivity|]. split.
    + intros ref d Hd. apply lookup_app_l_Some. exact Hd.
    + split.
      * intros k d Hk. exists (length (slideObjs w) + k)%nat. split.
        -- rewrite lookup_app_r by lia.
           replace (length (slides (store w)) + k - length (slides (store w)))%nat
             with k by lia.
           apply lookup_seq. split; [reflexivity|].
           apply lookup_lt_Some in Hk. exact Hk.
        -- rewrite lookup_app_r by lia.
           replace (length (slideObjs w) + k - length (slideObjs w))%nat
             with k by lia.
           exact Hk.
      * unfold len. rewrite length_app. lia.
  - split; [reflexivity|]. repeat split; auto; try lia.
    intros k d Hk. rewrite lookup_nil in Hk. discriminate.
Qed.

Lemma delete_last {A} (x : A) (l : list A) : delete (length l) (l ++ [x]) = l.
Proof.
  induction l as [|y l IH]; [reflexivity|].
  cbn [length app]. change (delete (S (length l)) (y :: l ++ [x]))
    with (y :: delete (length l) (l ++ [x])).
  rewrite IH. reflexivity.
Qed.

(** X26.  [loadMorePosts] and the arrival of its page: [loading] is set
    while the request is under way and cleared afterwards, the new slides
    are appended after the ones the feed had, in the order of the page,
    [currentIndex] stays, and a valid position stays valid; when the
    request fails only [loading] changes. *)
Theorem page_round (CONFIG : Config)
  (r : option (list Slide.t * option string)) (w : World) :
  let w1 := loadMorePosts w in
  let w2 := step CONFIG w1 (Run (length (pending w)) (Posts r)) in
  loading (store w1) = true
  /\ slides (store w1) = slides (store w)
  /\ pending w2 = pending w
  /\ loading (store w2) = false
  /\ currentIndex (store w2) = currentIndex (store w)
  /\ slides (store w) `prefix_of` slides (store w2)
  /\ after (store w2) = match r with
                        | Some (_, after') => after'
                        | None => after (store w)
                        end
  /\ (forall k d, (pageOf r) !! k = Some d ->
        exists ref, slides (store w2) !! (length (slides (store w)) + k)%nat = Some ref
                    /\ slideObjs w2 !! ref = Some d)
  /\ (len (slides (store w2))
      = len (slides (store w)) + Z.of_nat (length (pageOf r)))
  /\ (0 <= currentIndex (store w) < len (slides (store w)) ->
      0 <= currentIndex (store w2) < len (slides (store w2))).
Proof.
  cbv zeta. unfold loadMorePosts, step.
  cbn [schedule pending set_pending].
  rewrite lookup_last, delete_last. cbn [runTask].
  pose (w1 := set_pending (pending w) (setState (set_loading true) w)).
  change (set_pending _ (schedule _ (setState _ w))) with w1.
  assert (Hs : slides (store w1) = slides (store w)) by reflexivity.
  assert (Hc : currentIndex (store w1) = currentIndex (store w)) by reflexivity.
  assert (Ha : after (store w1) = after (store w)) by reflexivity.
  assert (Hp : pending w1 = pending w).
  { unfold w1. destruct w; reflexivity. }
  rewrite <- Hs.
  destruct (onMorePosts_appends r w1)
    as (Hpre & Hcur & Hload & Hafter & _ & Hnew & Hvalid).
  split; [reflexivity|]. split; [reflexivity|]. split.
  { rewrite <- Hp. unfold onMorePosts.
    destruct r as [[extracted after']|]; reflexivity. }
  split; [exact Hload|]. split; [rewrite Hcur; exact Hc|].
  split; [exact Hpre|]. split.
  { rewrite Hafter. destruct r as [[? ?]|]; [reflexivity|exact Ha]. }
  split; [exact Hnew|]. split.
  { unfold onMorePosts, len, pageOf. destruct r as [[extracted after']|]; cbn.
    - rewrite length_app, length_seq. lia.
    - lia. }
  rewrite <- Hc. exact Hvalid.
Qed.

(** ** One resolution for an id *)

(** X27.  One call of [preloadExternalVideoUrls] starts at most one
    resolution for an id, however many of the upcoming slides carry it,
    and none for an id that is resolved or already in flight; the id it
    starts is marked, and no resolved url is touched. *)
Theorem preloadExternalVideoUrls_once (CONFIG : Config)
  (slides0 : list SlideRef) (startIndex count : Z) (w : World) (id : string) :
  let w' := preloadExternalVideoUrls CONFIG slides0 startIndex count w in
  let before := resolutionsOf id (pending w) in
  let after_ := resolutionsOf id (pending w') in
  preloadedVideoUrls (store w') = preloadedVideoUrls (store w)
  /\ preloadingInProgress (store w) ⊆ preloadingInProgress (store w')
  /\ (after_ = before \/ after_ = S before)
  /\ (after_ = S before ->
      id ∈ preloadingInProgress (store w')
      /\ (id ∉ preloadingInProgress (store w))
      /\ preloadedVideoUrls (store w) !! id = None).
Proof.
  cbv zeta. unfold preloadExternalVideoUrls.
  destruct (preloadExternalVideoUrls_loop_starts CONFIG slides0 startIndex
              (Z.to_nat count) 0 w id) as (Hu & Hm & Hlo & Hhi & Hin).
  split; [exact Hu|]. split; [exact Hm|]. split; [|intros Hstarted; split; [|split]].
  - destruct (bool_decide _); lia.
  - apply Hin. lia.
  - intros Hwas. rewrite bool_decide_true in Hhi by (right; exact Hwas). lia.
  - destruct (preloadedVideoUrls (store w) !! id) as [u|] eqn:Hurl; [|reflexivity].
    rewrite bool_decide_true in Hhi by (left; eauto). lia.
Qed.

(** ** The further properties at work on the scenarios *)

(** Nine seconds are buffered ahead of the active video of the warm
    session. *)
Lemma getBufferHealth_range_witness :
  Video.buffered warmActiveVideo !! 0%nat = Some (0%Q, 10%Q)
  /\ getBufferHealth (Some warmActiveVideo) = (10 - 1)%Q.
Proof.
  split; [reflexivity|].
  destruct (getBufferHealth_range (Some warmActiveVideo)) as (_ & Hin & _).
  apply (Hin warmActiveVideo 0%nat 0%Q 10%Q); try reflexivity;
    try (vm_compute; discriminate).
  intros j s' e' Hj. lia.
Defined.

(** An element cached for position 5 is handed out once. *)
Lemma preload_then_take_witness :
  preloadedVideos (store initialWorld) !! 5 = None
  /\ fst (getPreloadedVideo 5
            (preloadVideoElement exampleConfig 0%nat 5 "v5.mp4" initialWorld))
     = Some 0%nat.
Proof.
  split; [reflexivity|].
  apply (preload_then_take exampleConfig 0%nat 5 "v5.mp4" initialWorld);
    [reflexivity|vm_compute; reflexivity|reflexivity].
Defined.

(** The element cached for position 5 fails to load. *)
Lemma preload_error_undone_witness :
  preloadedVideos (store initialWorld) !! 5 = None
  /\ preloadedVideos (store (onPreloadError 0%nat
       (preloadVideoElement exampleConfig 0%nat 5 "v5.mp4" initialWorld)))
     = preloadedVideos (store initialWorld).
Proof.
  split; [reflexivity|].
  apply (preload_error_undone exampleConfig 0%nat 5 "v5.mp4" initialWorld);
    [reflexivity|vm_compute; reflexivity|reflexivity].
Defined.

(** The warm session is paused: the timer of the preloader changes
    nothing. *)
Lemma preloadUpcomingVideos_blocked_witness :
  preloadingPaused (store warmWorld) = true
  /\ preloadUpcomingVideos exampleConfig (slides (store warmWorld)) 1 warmWorld
     = warmWorld.
Proof.
  assert (Hpaused : preloadingPaused (store warmWorld) = true)
    by (vm_compute; reflexivity).
  split; [exact Hpaused|].
  apply preloadUpcomingVideos_blocked. left. exact Hpaused.
Defined.

(** On the second slide of the feed of videos, the element cached for
    position 2 is for a slide ahead. *)
Lemma preloadUpcomingVideos_ahead_witness :
  preloadedVideos (store videoFeedShown) !! 2 = None
  /\ 1 < 2 <= 1 + VIDEO_PRELOAD_COUNT exampleConfig.
Proof.
  assert (Hnone : preloadedVideos (store videoFeedShown) !! 2 = None)
    by (vm_compute; reflexivity).
  split; [exact Hnone|].
  destruct (preloadUpcomingVideos_ahead exampleConfig
              (slides (store videoFeedShown)) 1 videoFeedShown) as [_ Hnew].
  destruct (preloadedVideos (store (preloadUpcomingVideos exampleConfig
              (slides (store videoFeedShown)) 1 videoFeedShown)) !! 2)
    as [c|] eqn:Hc; [|vm_compute in Hc; discriminate Hc].
  exact (proj1 (Hnew 2 c Hc Hnone)).
Defined.

(** The slide at position 2 of the warm session takes the element cached
    for it. *)
Lemma createSlideElement_takes_preloaded_witness :
  preloadedVideos (store warmWorld) !! 2 = Some (CacheEntry.mk 5%nat "v2.mp4" 0)
  /\ fst (createSlideElement exampleConfig 2%nat "next" 2 warmWorld)
     = Some (mkSlideEl "next" (MediaVideo 5%nat)).
Proof.
  assert (Hc : preloadedVideos (store warmWorld) !! 2
               = Some (CacheEntry.mk 5%nat "v2.mp4" 0))
    by (vm_compute; reflexivity).
  split; [exact Hc|].
  destruct (videoElems warmWorld !! 5%nat) as [v|] eqn:Hv;
    [|vm_compute in Hv; discriminate Hv].
  apply (createSlideElement_takes_preloaded exampleConfig 2%nat
           (nativeVideo "v2.mp4") "next" 2 (CacheEntry.mk 5%nat "v2.mp4" 0)
           v warmWorld); [vm_compute; reflexivity|reflexivity|exact Hc|exact Hv].
Defined.

(** The warm session shows its second slide between the first and the
    third. *)
Lemma updateSlides_window_witness :
  0 <= currentIndex (store warmWorld) < len (slides (store warmWorld))
  /\ slidePosition <$> default [] (slideshow (updateSlides exampleConfig warmWorld))
     = ["prev"; "active"; "next"].
Proof.
  assert (Hrange : 0 <= currentIndex (store warmWorld)
                   < len (slides (store warmWorld)))
    by (vm_compute; split; [discriminate|reflexivity]).
  split; [exact Hrange|].
  rewrite (updateSlides_window exampleConfig warmWorld).
  - vm_compute. reflexivity.
  - vm_compute. eauto.
  - exact Hrange.
  - intros r Hr.
    replace (slides (store warmWorld)) with [0; 1; 2; 3; 4; 5]%nat in Hr
      by (vm_compute; reflexivity).
    replace (length (slideObjs warmWorld)) with 6%nat by (vm_compute; reflexivity).
    rewrite !elem_of_cons, elem_of_nil in Hr. lia.
Defined.

(** The answer of the provider of the example resolves "abc". *)
Lemma fetchExternalVideoUrl_resolved_witness :
  resumeFetch exampleConfig "abc" AwaitInfo (Some infoResponse) initialWorld
  = Some (inr (Some "https://media.example/abc.mp4"), initialWorld)
  /\ truthy "https://media.example/abc.mp4" = true.
Proof.
  assert (H : resumeFetch exampleConfig "abc" AwaitInfo (Some infoResponse)
                initialWorld
              = Some (inr (Some "https://media.example/abc.mp4"), initialWorld))
    by reflexivity.
  split; [exact H|].
  exact (proj1 (proj2 (fetchExternalVideoUrl_resolved exampleConfig "abc"
                         infoResponse initialWorld initialWorld
                         "https://media.example/abc.mp4" H))).
Defined.

(** The token "t0" serves the next resolution. *)
Lemma token_cached_for_an_hour_witness :
  fst (tokenFromResponse exampleConfig tokenResponse initialWorld) = Some "t0"
  /\ fst (fetchExternalVideoUrl exampleConfig "abc"
            (snd (tokenFromResponse exampleConfig tokenResponse initialWorld)))
     = AwaitCachedToken "t0".
Proof.
  split; [reflexivity|].
  destruct (token_cached_for_an_hour exampleConfig tokenResponse initialWorld
              (snd (tokenFromResponse exampleConfig tokenResponse initialWorld))
              (snd (tokenFromResponse exampleConfig tokenResponse initialWorld))
              "t0" "abc" eq_refl eq_refl) as [Hfresh _].
  destruct (Hfresh ltac:(vm_compute; reflexivity)) as [-> _]. reflexivity.
Defined.

(** The token request of a resolution fails. *)
Lemma failed_token_ends_resolution_witness :
  fst (tokenFromResponse exampleConfig NetworkFailure feedShown) = None
  /\ requests (onResolved "abc" ByPreloader None feedShown) = requests feedShown.
Proof.
  split; [reflexivity|].
  exact (proj1 (proj2 (failed_token_ends_resolution exampleConfig "abc"
                         ByPreloader NetworkFailure feedShown eq_refl))).
Defined.

(** A resolution of "abc" settles: the mark of "xyz" stays as it is. *)
Lemma resolution_settles_witness :
  "xyz" <> "abc"
  /\ ("xyz" ∈ preloadingInProgress
                (store (onResolved "abc" ByPreloader None feedShown))
      <-> "xyz" ∈ preloadingInProgress (store feedShown)).
Proof.
  assert (Hne : "xyz" <> "abc") by discriminate.
  split; [exact Hne|].
  destruct (resolution_settles "abc" ByPreloader None feedShown)
    as (_ & Hother & _).
  exact (proj1 (Hother "xyz" Hne)).
Defined.

(** Two resolutions of "abc" are under way: its mark stands for them. *)
Lemma marks_have_resolutions_witness :
  marksPending initialWorld
  /\ marksPending (run exampleConfig initialWorld
       [LoadSubreddit "gifs"; Run 0 (Posts (Some (exampleFeed, None)));
        Navigate 1; Navigate 1; Run 0 (Fetched tokenResponse)]).
Proof.
  assert (Hinit : marksPending initialWorld).
  { intros id Hin. unfold initialWorld in Hin.
    cbn [store preloadingInProgress] in Hin.
    apply elem_of_empty in Hin. contradiction. }
  split; [exact Hinit|].
  apply (marks_have_resolutions exampleConfig initialWorld). exact Hinit.
Defined.

(** The warm session and what follows it hold no empty URL. *)
Lemma urls_never_empty_witness :
  urlsResolved initialWorld
  /\ urlsResolved (run exampleConfig initialWorld
       [LoadSubreddit "gifs"; Run 0 (Posts (Some (videoFeed, None)));
        Navigate 1; Run 1 (Fetched tokenResponse);
        Run 2 (Fetched infoResponse)]).
Proof.
  assert (Hinit : urlsResolved initialWorld).
  { intros id u Hu. unfold initialWorld in Hu.
    cbn [store preloadedVideoUrls] in Hu. rewrite lookup_empty in Hu.
    discriminate Hu. }
  split; [exact Hinit|].
  apply (urls_never_empty exampleConfig initialWorld). exact Hinit.
Defined.

(** A move in the warm session. *)
Lemma navigate_settles_view_witness :
  0 <= currentIndex (store warmWorld) + 1 < len (slides (store warmWorld))
  /\ preloadingPaused (store (navigate exampleConfig 1 warmWorld)) = false.
Proof.
  assert (Hrange : 0 <= currentIndex (store warmWorld) + 1
                   < len (slides (store warmWorld)))
    by (vm_compute; split; [discriminate|reflexivity]).
  split; [exact Hrange|].
  destruct (navigate_settles_view exampleConfig 1 warmWorld Hrange)
    as (_ & _ & _ & _ & Hpaused & _).
  exact Hpaused.
Defined.

(** While a page is being fetched, moves ask for no other. *)
Lemma navigate_asks_for_page_witness :
  loading (store (loadMorePosts warmWorld)) = true
  /\ morePostsOf (pending (navigateAll exampleConfig (loadMorePosts warmWorld)
                             [1; 1; 1; -1]))
     = morePostsOf (pending (loadMorePosts warmWorld)).
Proof.
  split; [reflexivity|].
  destruct (navigate_asks_for_page exampleConfig 1 (loadMorePosts warmWorld))
    as (_ & _ & _ & Hloading & _).
  apply Hloading. reflexivity.
Defined.

(** Seven ticks from the second of six slides. *)
Lemma autoplay_runs_to_the_end_witness :
  0 <= currentIndex (store warmWorld) < len (slides (store warmWorld))
  /\ currentIndex (store (Nat.iter 7 (autoplayTick exampleConfig) warmWorld))
     = Z.min (currentIndex (store warmWorld) + 7)
             (len (slides (store warmWorld)) - 1).
Proof.
  assert (Hrange : 0 <= currentIndex (store warmWorld)
                   < len (slides (store warmWorld)))
    by (vm_compute; split; [discriminate|reflexivity]).
  split; [exact Hrange|].
  exact (proj1 (proj2 (autoplay_runs_to_the_end exampleConfig warmWorld 7 Hrange))).
Defined.

(** The right arrow on a zoomed view. *)
Lemma handleKeydown_position_witness :
  isZoomed (store (setState (set_isZoomed true) warmWorld)) = true
  /\ currentIndex (store (handleKeydown exampleConfig 1%nat "BODY" "ArrowRight"
                            (setState (set_isZoomed true) warmWorld)))
     = currentIndex (store (setState (set_isZoomed true) warmWorld)).
Proof.
  split; [reflexivity|].
  destruct (handleKeydown_position exampleConfig 1%nat "BODY" "ArrowRight"
              (setState (set_isZoomed true) warmWorld)) as (_ & Hzoomed & _).
  apply Hzoomed. reflexivity.
Defined.

(** The images after the first slide of the example feed. *)
Lemma preloadUpcomingMedia_images_witness :
  0 <= currentIndex (store feedShown)
  /\ preloadedImages (store feedShown)
     ⊆ preloadedImages (store (preloadUpcomingMedia exampleConfig feedShown)).
Proof.
  assert (Hcur : 0 <= currentIndex (store feedShown))
    by (vm_compute; discriminate).
  split; [exact Hcur|].
  apply (preloadUpcomingMedia_images exampleConfig feedShown); [|exact Hcur].
  intros r Hr.
  replace (slides (store feedShown)) with [0; 1; 2; 3]%nat in Hr
    by (vm_compute; reflexivity).
  replace (length (slideObjs feedShown)) with 4%nat by (vm_compute; reflexivity).
  rewrite !elem_of_cons, elem_of_nil in Hr. lia.
Defined.

(** Two timeouts, then the posts: one and two seconds were slept. *)
Lemma fetchWithRetry_outcome_witness :
  thirdTime 2 = inl "posts"
  /\ fetchWithRetry 1000 3 thirdTime = (inl "posts", [1000; 2000]).
Proof.
  split; [reflexivity|].
  destruct (fetchWithRetry_outcome 1000 3 thirdTime) as [Hok _].
  rewrite (Hok 2 "posts"); [reflexivity|lia|reflexivity|].
  intros j Hj. exists "Request timeout". unfold thirdTime.
  rewrite (proj2 (Z.ltb_lt j 2)) by lia. reflexivity.
Defined.

(** After the failure of the second request the third goes through the
    proxy. *)
Lemma jsonp_falls_back_for_good_witness :
  threeRequests !! 1%nat = Some (inr "Failed to load", inl "b")
  /\ fst (jsonpAll true threeRequests) !! 2%nat = Some (inl "d", [Proxy]).
Proof.
  split; [reflexivity|].
  destruct (jsonp_falls_back_for_good threeRequests 1%nat "Failed to load"
              (inl "b") eq_refl) as (_ & _ & _ & Hafter).
  - intros j call Hj Hcall. destruct j as [|j]; [|lia].
    injection Hcall as <-. exists "a". reflexivity.
  - apply (Hafter 2%nat (inl "c", inl "d")); [lia|reflexivity].
Defined.

(** A host that is not allowed is answered 403, whatever the network
    would give; the cookie of a request for Reddit is not forwarded. *)
Lemma proxy_allowlist_witness :
  hostOf "https://evil.example/x" = Some "evil.example"
  /\ Worker.status (Worker.handleRequest hostOf
       (fun _ _ => inl (Worker.mkUpstream 200 ∅ "secret")) evilRequest) = 403
  /\ exists h,
       Worker.route hostOf redditRequest
       = inr ("https://old.reddit.com/r/pics/hot.json", h)
       /\ h !! "cookie" = None.
Proof.
  split; [reflexivity|]. split.
  - destruct (proxy_allowlist hostOf
                (fun _ _ => inl (Worker.mkUpstream 200 ∅ "secret")) evilRequest)
      as (_ & _ & Hdenied).
    rewrite (Hdenied "https://evil.example/x" "evil.example");
      [reflexivity|discriminate|reflexivity|reflexivity|reflexivity|].
    unfold Worker.allowed. rewrite !elem_of_cons, elem_of_nil.
    intros [H|[H|[H|[H|H]]]]; try discriminate H; exact H.
  - eexists. split; [reflexivity|].
    destruct (proxy_allowlist hostOf (fun _ _ => inr "offline") redditRequest)
      as (Hroute & _ & _).
    destruct (Hroute _ _ eq_refl) as (_ & _ & _ & Honly & _).
    apply eq_None_not_Some. intros Hcookie. apply Honly in Hcookie.
    rewrite !elem_of_cons, elem_of_nil in Hcookie.
    destruct Hcookie as [H|[H|[H|[H|[H|[H|H]]]]]]; try discriminate H; exact H.
Defined.
